(** * autoencoder.py: the log-cosh VAE objective and the training routine

    A shallow embedding of [LogCoshVAE.loss], [sample_data] and [train] of
    [autoencoder.py], and the properties of the training loop: batch-size
    back-off on memory exhaustion, the NaN exit, the probe schedule and the
    final weighted score.

    The later modules embed the rest of the file: [accumulate] over a store
    of parameter objects, repeated [next(loader)], and the shapes that
    [LogCoshVAE.__init__], [encode], [decode], [forward], [Flatten] and
    [UnFlatten] give.

    Tensor arithmetic is read over the real numbers: a tensor is the list of
    its entries, and rounding, overflow and NaN propagation of the floating
    point kernels are not part of the model.  The only NaN the model knows is
    the flag that [th.isnan(loss).any()] returns.  The exception is the
    module [Float32], which computes the reconstruction term in IEEE 754
    binary32, to show where the code and its reading over the real numbers
    part. *)

From Stdlib Require Import ZArith NArith QArith Qpower List String Bool Lia.
From Stdlib Require Import Reals Psatz.
From Stdlib Require SpecFloat.
Import ListNotations.

(** ** The objective: [LogCoshVAE.loss] *)

Module LogCoshVAE.
Local Open Scope R_scope.

(** The three fields of the model that [loss] reads. *)
Record hyper := { alpha : R; beta : R; kld_weight : R }.

(** A tensor, flattened to the list of its entries; a two-dimensional tensor
    (batch x latent) is the list of its rows. *)
Definition tensor := list R.

(** Entry-wise combination of two tensors of one shape.  Tensors of different
    sizes are outside the model: the result is [None] (torch broadcasts or
    raises there). *)
Fixpoint zip_with (f : R -> R -> R) (a b : tensor) : option tensor :=
  match a, b with
  | [], [] => Some []
  | x :: a', y :: b' =>
      match zip_with f a' b' with
      | Some r => Some (f x y :: r)
      | None => None
      end
  | _, _ => None
  end.

(** [th.sum] of the entries. *)
Definition tsum (x : tensor) : R := fold_left Rplus x 0.

(** [.mean()]: torch returns NaN for a tensor without entries, which the
    real-number reading does not have: [None]. *)
Definition tmean (x : tensor) : option R :=
  match x with
  | [] => None
  | _ => Some (tsum x / INR (List.length x))
  end.

(** One entry of [self.alpha * t + th.log(1.0 + th.exp(-2 * self.alpha * t))
    - th.log(th.tensor(2.0))]. *)
Definition logcosh_entry (a t : R) : R :=
  a * t + ln (1 + exp (-2 * a * t)) - ln 2.

(** [recons_loss]: [t = fake - real], then
    [(1.0 / self.alpha) * recons_loss.mean()]. *)
Definition recons_loss (h : hyper) (real fake : tensor) : option R :=
  match zip_with Rminus fake real with
  | Some t =>
      match tmean (map (logcosh_entry (alpha h)) t) with
      | Some m => Some (1 / alpha h * m)
      | None => None
      end
  | None => None
  end.

(** One entry of [1 + log_var - mu ** 2 - log_var.exp()]. *)
Definition kld_entry (lv m : R) : R := 1 + lv - m ^ 2 - exp lv.

(** The rows of [th.sum(1 + log_var - mu ** 2 - log_var.exp(), dim=1)]. *)
Fixpoint kld_rows (mu log_var : list tensor) : option tensor :=
  match mu, log_var with
  | [], [] => Some []
  | m :: mu', lv :: log_var' =>
      match zip_with kld_entry lv m, kld_rows mu' log_var' with
      | Some row, Some rest => Some (tsum row :: rest)
      | _, _ => None
      end
  | _, _ => None
  end.

(** [kld_loss = th.mean(-0.5 * th.sum(..., dim=1), dim=0)]. *)
Definition kld_loss (mu log_var : list tensor) : option R :=
  match kld_rows mu log_var with
  | Some rows => tmean (map (fun s => -0.5 * s) rows)
  | None => None
  end.

(** The dictionary that [loss] returns; [KLD] is the entry
    ["Kullback Leibler Divergence"], which is [-kld_loss]. *)
Record loss_dict := { Total : R; Reconstruction : R; KLD : R }.

Definition loss (h : hyper) (real fake : tensor) (mu log_var : list tensor)
  : option loss_dict :=
  match recons_loss h real fake, kld_loss mu log_var with
  | Some r, Some k =>
      Some {| Total := r + beta h * kld_weight h * k;
              Reconstruction := r;
              KLD := - k |}
  | _, _ => None
  end.

(** A batch x latent tensor of zeros. *)
Definition zeros (batch latent : nat) : list tensor :=
  repeat (repeat 0 latent) batch.

End LogCoshVAE.

(** ** The training routine: [sample_data] and [train] *)

Module Train.

(** *** Exceptions, outcomes and the trace *)

(** What the body of [train] can raise.  [except RuntimeError as e] catches
    the first kind only; [msg] is [str(e)]. *)
Inductive exn :=
| RuntimeError (msg : string)
| UnboundLocalError (name : string)
| OtherError (msg : string).

(** The [return] statements of [train], by line, and the end of the [while]
    loop. *)
Inductive outcome :=
| Success      (* line 295 *)
| NanExit      (* line 289 *)
| CutoffExit   (* line 300 *)
| MemoryExit   (* line 308 *)
| OtherExit    (* line 320 *)
| LoopEnd.     (* the condition of line 191 fails *)

(** How a call of [train] ends. *)
Inductive ending :=
| Finished (o : outcome)
| Uncaught (e : exn)
| OutOfFuel.

(** The lines that [train] prints in its exits. *)
Inductive line :=
| NanLosses                  (* "NaN losses, exiting..." *)
| DoesNotFit                 (* "This configuration does not fit into memory, exiting..." *)
| Halving (batch : Q)        (* f"Out of memory, halving batch size... {batch_size}" *)
| Shown (e : exn).           (* print(e) *)

(** The actions of [train] on the model, the tracker and the console, in
    program order.  [Attempt] and [Iter] are markers: the [try] body is
    entered with the given [batch_size], the [for] header binds [i]. *)
Inductive action :=
| Attempt (batch : Q)
| BuildLoader (batch : Z)    (* data.DataLoader(..., batch_size=int(batch_size), ...) *)
| LogRealImages
| SetTrain                   (* vae.train() *)
| SetEval                    (* vae.eval() *)
| NoGradEnter                (* with th.no_grad(): *)
| NoGradExit
| Iter (idx : N)
| Forward (idx : N)          (* fake, mu, log_var = vae(real); vae.loss(...) *)
| Update (idx : N)           (* vae.zero_grad(); loss.backward(); vae_optim.step() *)
| LogLoss (idx : N)
| Reconstruct (idx : N)      (* "Reconstructed Images VAE" *)
| Generate (idx : N)         (* "Generated Images VAE" *)
| Fid (idx : N) (batch : Z)  (* validation.vae_fid(vae, int(batch_size), ...) *)
| LogFid (idx : N)           (* wandb.log(fid_dict) *)
| LogScore (v : R)           (* wandb.log({"Score": v}) *)
| Append (idx : N) (v : R)   (* scores.append(score) *)
| Print (p : line)
| CollectGarbage.            (* gc.collect(); th.cuda.empty_cache() *)

(** *** The environment: what the calls outside [train] do *)

(** Where a step can raise: lines 242-246, 248-250, 252-258, 264 (inside the
    first [no_grad] block, after [vae.eval()]) and 276 ([vae_fid]). *)
Inductive phase := PForward | PBackward | PLogLoss | PQual | PQuant.

Definition phase_eqb (p q : phase) : bool :=
  match p, q with
  | PForward, PForward | PBackward, PBackward | PLogLoss, PLogLoss
  | PQual, PQual | PQuant, PQuant => true
  | _, _ => false
  end.

(** One step as the environment decides it: whether [th.isnan(loss).any()]
    holds, the ["FID"] entry of [vae_fid], [mse_loss(fake, real)], and the
    exception of the step, if any, with the place where it is raised. *)
Record step_env := {
  loss_nan : bool;
  fid : R;
  mse : R;
  fault : option (phase * exn)
}.

(** Where the code before the [for] loop can raise: lines 193-211 (before the
    first batch is drawn), 213-217, 219-226 (the model), 228 (the optimizer)
    and 230-238. *)
Inductive setup_point := SPipeline | SSample | SModel | SOptim | SLate.

Definition setup_point_eqb (p q : setup_point) : bool :=
  match p, q with
  | SPipeline, SPipeline | SSample, SSample | SModel, SModel
  | SOptim, SOptim | SLate, SLate => true
  | _, _ => false
  end.

Record attempt_env := {
  setup_fault : option (setup_point * exn);
  steps : N -> step_env
}.

(** [dataset_len] is [len(dataset)]; [attempts k] is the behaviour of the
    environment in the [k]-th pass of the [while] loop.  The hyperparameters
    of [train] reach nothing but these calls. *)
Record env := {
  dataset_len : N;
  attempts : nat -> attempt_env
}.

(** *** Constants and arithmetic of [train] *)

Definition initial_batch_size : Q := 512.
Definition num_iters : N := 20000.
Definition retry_cutoff : N := 10000.
Definition penalty : R := 27000.
Definition oom_text : string := "CUDA out of memory".

(** [needle in hay] on strings. *)
Definition contains (needle hay : string) : bool :=
  match String.index 0 needle hay with
  | Some _ => true
  | None => false
  end.

(** [int(x)] of a float: truncation towards zero. *)
Definition py_int (x : Q) : Z := Z.quot (Qnum x) (Zpos (Qden x)).

(** [x < y] on floats. *)
Definition Qlt_bool (x y : Q) : bool := negb (Qle_bool y x).

(** [i % int(num_iters / 20) == 0 or i + 1 == num_iters]; the quotient
    [num_iters / 20] is the whole number 1000. *)
Definition qual_due (idx : N) : bool :=
  ((idx mod (num_iters / 20) =? 0) || (idx + 1 =? num_iters))%N.

(** [i % int(num_iters / 10) == 0 or i + 1 == num_iters]. *)
Definition quant_due (idx : N) : bool :=
  ((idx mod (num_iters / 10) =? 0) || (idx + 1 =? num_iters))%N.

(** [i >= num_iters / 2]; the quotient is the whole number 10000. *)
Definition recorded (idx : N) : bool := (num_iters / 2 <=? idx)%N.

(** [score = fid_dict["FID"] + mse_loss(fake, real) * 5000]. *)
Definition score (se : step_env) : R := (fid se + mse se * 5000)%R.

(** Python's [sum]: from 0, left to right. *)
Definition py_sum (x : list R) : R := fold_left Rplus x 0%R.

(** [weights = np.sqrt(np.arange(1, n + 1)); weights /= sum(weights)]. *)
Definition weights (n : nat) : list R :=
  let w := map (fun k => sqrt (INR k)) (seq 1 n) in
  let s := py_sum w in
  map (fun x => (x / s)%R) w.

(** [sum([w * v for w, v in zip(weights, scores)])]. *)
Definition weighted_scores (scores : list R) : R :=
  py_sum (map (fun wv => (fst wv * snd wv)%R)
              (combine (weights (List.length scores)) scores)).

(** *** The local variables of [train] *)

(** A local name is unbound, bound to [None] or bound to an object. *)
Inductive binding := Unbound | BoundNone | BoundObj.

(** [loader] is the position of the generator [sample_data(dataloader)]
    within its current pass; [scores] is read only after line 234 has bound
    it. *)
Record locals := {
  batch_size : Q;
  i : option N;
  vae : binding;
  vae_optim : binding;
  scores : list R;
  loader : N
}.

Definition initial_locals : locals :=
  {| batch_size := initial_batch_size; i := None;
     vae := Unbound; vae_optim := Unbound; scores := []; loader := 0%N |}.

Definition set_batch_size (b : Q) (l : locals) : locals :=
  {| batch_size := b; i := i l; vae := vae l; vae_optim := vae_optim l;
     scores := scores l; loader := loader l |}.
Definition set_i (idx : N) (l : locals) : locals :=
  {| batch_size := batch_size l; i := Some idx; vae := vae l;
     vae_optim := vae_optim l; scores := scores l; loader := loader l |}.
Definition set_vae (b : binding) (l : locals) : locals :=
  {| batch_size := batch_size l; i := i l; vae := b;
     vae_optim := vae_optim l; scores := scores l; loader := loader l |}.
Definition set_vae_optim (b : binding) (l : locals) : locals :=
  {| batch_size := batch_size l; i := i l; vae := vae l;
     vae_optim := b; scores := scores l; loader := loader l |}.
Definition set_scores (s : list R) (l : locals) : locals :=
  {| batch_size := batch_size l; i := i l; vae := vae l;
     vae_optim := vae_optim l; scores := s; loader := loader l |}.
Definition set_loader (p : N) (l : locals) : locals :=
  {| batch_size := batch_size l; i := i l; vae := vae l;
     vae_optim := vae_optim l; scores := scores l; loader := p |}.

(** *** Computations: locals, trace, and the three ways to leave *)

Inductive res (A : Type) :=
| Ok (a : A)
| Return (o : outcome)   (* a [return] statement *)
| Raise (e : exn)
| Hang.                  (* no fuel left *)
Arguments Ok {A} a.
Arguments Return {A} o.
Arguments Raise {A} e.
Arguments Hang {A}.

Definition M (A : Type) : Type := locals -> list action * locals * res A.

Definition ret {A : Type} (a : A) : M A := fun l => ([], l, Ok a).

Definition bind {A B : Type} (m : M A) (f : A -> M B) : M B := fun l =>
  let '(t1, l1, r1) := m l in
  match r1 with
  | Ok a => let '(t2, l2, r2) := f a l1 in (t1 ++ t2, l2, r2)
  | Return o => (t1, l1, Return o)
  | Raise e => (t1, l1, Raise e)
  | Hang => (t1, l1, Hang)
  end.

Notation "x <- m ;; k" := (bind m (fun x => k))
  (at level 61, m at next level, right associativity).
Notation "m ;; k" := (bind m (fun _ => k))
  (at level 61, right associativity).

Definition emit (a : action) : M unit := fun l => ([a], l, Ok tt).
Definition get : M locals := fun l => ([], l, Ok l).
Definition modify (f : locals -> locals) : M unit := fun l => ([], f l, Ok tt).
Definition raise {A : Type} (e : exn) : M A := fun l => ([], l, Raise e).
Definition return_ {A : Type} (o : outcome) : M A := fun l => ([], l, Return o).
Definition hang {A : Type} : M A := fun l => ([], l, Hang).

Definition when (b : bool) (m : M unit) : M unit := if b then m else ret tt.

(** [with th.no_grad(): body]: the block is left through [__exit__] also
    when the body raises. *)
Definition no_grad {A : Type} (body : M A) : M A := fun l =>
  let '(t, l1, r) := body l in (NoGradEnter :: t ++ [NoGradExit], l1, r).

(** [try: body except RuntimeError as e: handler]. *)
Definition try_except {A : Type} (body : M A) (handler : string -> M A) : M A :=
  fun l =>
  let '(t1, l1, r1) := body l in
  match r1 with
  | Raise (RuntimeError msg) =>
      let '(t2, l2, r2) := handler msg l1 in (t1 ++ t2, l2, r2)
  | _ => (t1, l1, r1)
  end.

(** *** [sample_data] *)

(** [next] on the generator [while True: for batch in loader: yield batch]:
    [per_pass] is the number of batches of one pass over the loader and [pos]
    the number already yielded in the current pass.  When the [for] is
    exhausted the [while] starts a new pass; the result is the new position. *)
Fixpoint sample_data (fuel : nat) (per_pass pos : N) : option N :=
  match fuel with
  | O => None
  | S fuel' =>
      if (pos <? per_pass)%N then Some (pos + 1)%N
      else sample_data fuel' per_pass 0%N
  end.

(** [len(dataloader)] with [drop_last=True]: the whole batches in the
    dataset.  [batch] is [int(batch_size)], at least 1 in every pass. *)
Definition batches_per_pass (len : N) (batch : Z) : N := (len / Z.to_N batch)%N.

(** [next(loader)]. *)
Definition next_batch (fuel : nat) (len : N) : M unit :=
  l <- get ;;
  match sample_data fuel (batches_per_pass len (py_int (batch_size l))) (loader l) with
  | Some p => modify (set_loader p)
  | None => hang
  end.

(** *** One step of the [for] loop (lines 240-289) *)

Definition may_raise (se : step_env) (p : phase) : M unit :=
  match fault se with
  | Some (q, e) => if phase_eqb p q then raise e else ret tt
  | None => ret tt
  end.

Definition step (fuel : nat) (len : N) (se : step_env) (idx : N) : M unit :=
  emit SetTrain ;;
  next_batch fuel len ;;
  may_raise se PForward ;;
  emit (Forward idx) ;;
  may_raise se PBackward ;;
  emit (Update idx) ;;
  may_raise se PLogLoss ;;
  emit (LogLoss idx) ;;
  when (qual_due idx)
    (no_grad (emit SetEval ;;
              may_raise se PQual ;;
              emit (Reconstruct idx) ;;
              emit (Generate idx))) ;;
  when (quant_due idx)
    (no_grad (l <- get ;;
              may_raise se PQuant ;;
              emit (Fid idx (py_int (batch_size l))) ;;
              emit (LogFid idx) ;;
              emit (LogScore (score se))) ;;
     when (recorded idx)
       (emit (Append idx (score se)) ;;
        modify (fun l => set_scores (scores l ++ [score se]) l))) ;;
  if loss_nan se then
    emit (Print NanLosses) ;;
    emit (LogScore penalty) ;;
    return_ NanExit
  else ret tt.

(** [for i in pbar: body] over [range(n)] from [idx] on. *)
Fixpoint for_range (n : nat) (idx : N) (body : N -> M unit) : M unit :=
  match n with
  | O => ret tt
  | S n' =>
      modify (set_i idx) ;;
      emit (Iter idx) ;;
      body idx ;;
      for_range n' (idx + 1)%N body
  end.

(** *** The [try] body (lines 193-295) *)

Definition setup_raise (ae : attempt_env) (p : setup_point) : M unit :=
  match setup_fault ae with
  | Some (q, e) => if setup_point_eqb p q then raise e else ret tt
  | None => ret tt
  end.

Definition try_body (fuel : nat) (len : N) (ae : attempt_env) : M unit :=
  l <- get ;;
  emit (Attempt (batch_size l)) ;;
  setup_raise ae SPipeline ;;
  emit (BuildLoader (py_int (batch_size l))) ;;
  modify (set_loader 0%N) ;;
  next_batch fuel len ;;
  setup_raise ae SSample ;;
  emit LogRealImages ;;
  modify (set_vae BoundNone) ;;
  modify (set_vae_optim BoundNone) ;;
  setup_raise ae SModel ;;
  modify (set_vae BoundObj) ;;
  emit SetTrain ;;
  setup_raise ae SOptim ;;
  modify (set_vae_optim BoundObj) ;;
  setup_raise ae SLate ;;
  modify (set_scores []) ;;
  for_range (N.to_nat num_iters) 0%N
    (fun idx => step fuel len (steps ae idx) idx) ;;
  l' <- get ;;
  emit (LogScore (weighted_scores (scores l'))) ;;
  return_ Success.

(** *** The handler (lines 297-320) *)

(** [if x is not None: del x]; reading an unbound local raises. *)
Definition release (name : string) (read : locals -> binding)
    (write : binding -> locals -> locals) : M unit :=
  l <- get ;;
  match read l with
  | Unbound => raise (UnboundLocalError name)
  | BoundNone => ret tt
  | BoundObj => modify (write Unbound)
  end.

Definition handler (msg : string) : M unit :=
  l <- get ;;
  match i l with
  | Some idx => if (retry_cutoff <? idx)%N then return_ CutoffExit else ret tt
  | None => ret tt
  end ;;
  if contains oom_text msg then
    modify (fun l => set_batch_size (batch_size l / 2) l) ;;
    l' <- get ;;
    if Qlt_bool (batch_size l') 1 then
      emit (Print DoesNotFit) ;;
      emit (LogScore penalty) ;;
      return_ MemoryExit
    else
      emit (Print (Halving (batch_size l'))) ;;
      release "vae" vae set_vae ;;
      release "vae_optim" vae_optim set_vae_optim ;;
      emit CollectGarbage
  else
    emit (Print (Shown (RuntimeError msg))) ;;
    return_ OtherExit.

(** *** [train] *)

(** One pass of the [while] body: the [try] statement. *)
Definition attempt (fuel : nat) (e : env) (k : nat) : M unit :=
  try_except (try_body fuel (dataset_len e) (attempts e k)) handler.

(** [while batch_size >= 1: ...], [n] passes at most, the [k]-th next. *)
Fixpoint while_loop (n : nat) (fuel : nat) (e : env) (k : nat) : M unit :=
  match n with
  | O => hang
  | S n' =>
      l <- get ;;
      if Qle_bool 1 (batch_size l) then
        attempt fuel e k ;;
        while_loop n' fuel e (S k)
      else return_ LoopEnd
  end.

Definition ending_of (r : res unit) : ending :=
  match r with
  | Ok _ => Finished LoopEnd
  | Return o => Finished o
  | Raise e => Uncaught e
  | Hang => OutOfFuel
  end.

(** [train(...)]: the trace and the way the call ends.  [fuel] bounds the
    passes of the [while] loop and of each [next(loader)]. *)
Definition train (fuel : nat) (e : env) : list action * ending :=
  let '(t, _, r) := while_loop fuel fuel e 0 initial_locals in (t, ending_of r).

(** The state in which the [k]-th pass of the [while] loop starts, with the
    trace so far: the previous [k] passes all ended in a retry. *)
Fixpoint reach (fuel : nat) (e : env) (k : nat) : option (list action * locals) :=
  match k with
  | O => Some ([], initial_locals)
  | S k' =>
      match reach fuel e k' with
      | Some (t, l) =>
          if Qle_bool 1 (batch_size l) then
            match attempt fuel e k' l with
            | (t', l', Ok _) => Some (t ++ t', l')
            | _ => None
            end
          else None
      | None => None
      end
  end.

(** *** Reading a trace *)

(** The model as the actions leave it: training or evaluation mode, whether
    gradients are recorded, and the values that [no_grad] blocks restore.
    What [validation.vae_fid] does to the mode is not in this file: it is the
    parameter [fid_mode] of [act].  A model built in a later pass is put in
    training mode by line 227 before it is used. *)
Inductive mode := Training | Evaluation.

Record model_state := { current : mode; grad : bool; saved : list bool }.

Definition act (fid_mode : mode -> mode) (s : model_state) (a : action)
  : model_state :=
  match a with
  | SetTrain => {| current := Training; grad := grad s; saved := saved s |}
  | SetEval => {| current := Evaluation; grad := grad s; saved := saved s |}
  | NoGradEnter =>
      {| current := current s; grad := false; saved := grad s :: saved s |}
  | NoGradExit =>
      match saved s with
      | g :: rest => {| current := current s; grad := g; saved := rest |}
      | [] => s
      end
  | Fid _ _ =>
      {| current := fid_mode (current s); grad := grad s; saved := saved s |}
  | _ => s
  end.

Definition replay (fid_mode : mode -> mode) (s : model_state)
    (t : list action) : model_state :=
  fold_left (act fid_mode) t s.

(** A fresh module is in training mode and gradients are on. *)
Definition fresh : model_state :=
  {| current := Training; grad := true; saved := [] |}.

(** The batch sizes of the passes of the [while] loop, in order. *)
Fixpoint attempt_sizes (t : list action) : list Q :=
  match t with
  | [] => []
  | Attempt b :: t' => b :: attempt_sizes t'
  | _ :: t' => attempt_sizes t'
  end.

(** The step indices that the [for] header bound, in order. *)
Fixpoint iters (t : list action) : list N :=
  match t with
  | [] => []
  | Iter idx :: t' => idx :: iters t'
  | _ :: t' => iters t'
  end.

(** The score samples appended, with their steps, in order. *)
Fixpoint appended (t : list action) : list (N * R) :=
  match t with
  | [] => []
  | Append idx v :: t' => (idx, v) :: appended t'
  | _ :: t' => appended t'
  end.

(** The scores written to the tracker, in order, and the last record of the
    trace when it is a score. *)
Fixpoint logged_scores (t : list action) : list R :=
  match t with
  | [] => []
  | LogScore v :: t' => v :: logged_scores t'
  | _ :: t' => logged_scores t'
  end.

Definition terminal_score (t : list action) : option R :=
  match last (map Some t) None with
  | Some (LogScore v) => Some v
  | _ => None
  end.

(** The steps begun before the next pass of the [while] loop starts. *)
Fixpoint iters_until_attempt (t : list action) : list N :=
  match t with
  | [] => []
  | Attempt _ :: _ => []
  | Iter idx :: t' => idx :: iters_until_attempt t'
  | _ :: t' => iters_until_attempt t'
  end.

(** The number of steps begun in each pass of the [while] loop. *)
Fixpoint steps_per_attempt (t : list action) : list nat :=
  match t with
  | [] => []
  | Attempt _ :: t' =>
      List.length (iters_until_attempt t') :: steps_per_attempt t'
  | _ :: t' => steps_per_attempt t'
  end.

(** *** Describing an environment and the traces it gives *)

(** Whether step [idx] gets as far as the place [p]: the probes run only
    when they are due. *)
Definition reached (idx : N) (p : phase) : bool :=
  match p with
  | PQual => qual_due idx
  | PQuant => quant_due idx
  | _ => true
  end.

(** The exception that step [idx] raises, if any. *)
Definition raises (se : step_env) (idx : N) : option exn :=
  match fault se with
  | Some (p, e) => if reached idx p then Some e else None
  | None => None
  end.

(** A step that raises nothing and whose loss is not NaN. *)
Definition clean (se : step_env) (idx : N) : Prop :=
  raises se idx = None /\ loss_nan se = false.

(** The actions of the two probes. *)
Definition qual_actions (idx : N) : list action :=
  [NoGradEnter; SetEval; Reconstruct idx; Generate idx; NoGradExit].

Definition quant_actions (batch : Z) (se : step_env) (idx : N) : list action :=
  [NoGradEnter; Fid idx batch; LogFid idx; LogScore (score se); NoGradExit]
  ++ (if recorded idx then [Append idx (score se)] else []).

(** The actions of a step that raises nothing, up to the NaN check. *)
Definition step_actions (batch : Z) (se : step_env) (idx : N) : list action :=
  [SetTrain; Forward idx; Update idx; LogLoss idx]
  ++ (if qual_due idx then qual_actions idx else [])
  ++ (if quant_due idx then quant_actions batch se idx else []).

(** The actions of a step up to the place where it raises. *)
Definition raise_actions (idx : N) (p : phase) : list action :=
  match p with
  | PForward => [SetTrain]
  | PBackward => [SetTrain; Forward idx]
  | PLogLoss => [SetTrain; Forward idx; Update idx]
  | PQual =>
      [SetTrain; Forward idx; Update idx; LogLoss idx;
       NoGradEnter; SetEval; NoGradExit]
  | PQuant =>
      [SetTrain; Forward idx; Update idx; LogLoss idx]
      ++ (if qual_due idx then qual_actions idx else [])
      ++ [NoGradEnter; NoGradExit]
  end.

(** The actions of the NaN exit (lines 287-289). *)
Definition nan_actions : list action := [Print NanLosses; LogScore penalty].

(** The sample that step [idx] appends to [scores], if any. *)
Definition sample_of (se : step_env) (idx : N) : list R :=
  if quant_due idx && recorded idx then [score se] else [].

(** The actions and the samples of [m] clean steps from [idx] on. *)
Fixpoint clean_actions (batch : Z) (sf : N -> step_env) (m : nat) (idx : N)
  : list action :=
  match m with
  | O => []
  | S m' =>
      Iter idx :: step_actions batch (sf idx) idx
      ++ clean_actions batch sf m' (idx + 1)%N
  end.

Fixpoint clean_samples (sf : N -> step_env) (m : nat) (idx : N) : list R :=
  match m with
  | O => []
  | S m' => sample_of (sf idx) idx ++ clean_samples sf m' (idx + 1)%N
  end.

(** The actions before the [for] loop when nothing raises. *)
Definition setup_actions (b : Q) : list action :=
  [Attempt b; BuildLoader (py_int b); LogRealImages; SetTrain].

(** The locals with which the [for] loop starts. *)
Definition after_setup (l : locals) (p : N) : locals :=
  {| batch_size := batch_size l; i := i l; vae := BoundObj;
     vae_optim := BoundObj; scores := []; loader := p |}.

(** The steps of a complete pass at which a sample is appended. *)
Definition sample_steps : list N :=
  [10000; 12000; 14000; 16000; 18000; 19999]%N.

(** The trace [t0] put in front of the trace of a run. *)
Definition prepend {A : Type} (t0 : list action)
    (x : list action * locals * res A) : list action * locals * res A :=
  let '(t, l, r) := x in (t0 ++ t, l, r).

(** The locals after some steps: [last] is the value of [i], [samples] what
    was appended to [scores], [p] the position of the generator. *)
Definition after_steps (l : locals) (last : option N) (samples : list R)
    (p : N) : locals :=
  {| batch_size := batch_size l; i := last; vae := vae l;
     vae_optim := vae_optim l; scores := scores l ++ samples; loader := p |}.

(** The value of [i] after [m] steps from [idx] on. *)
Definition last_iter (l : locals) (m : nat) (idx : N) : option N :=
  match m with
  | O => i l
  | S m' => Some (idx + N.of_nat m')%N
  end.

(** *** Properties of traces *)

(** Gradients are recorded and no [no_grad] block is open. *)
Definition outside (s : model_state) : Prop := grad s = true /\ saved s = [].

(** What the state of the model must be when an action happens: training
    runs in training mode with gradients on; the qualitative probe runs in
    evaluation mode with gradients off; [vae_fid] runs with gradients off;
    the end of a [no_grad] block turns gradients on again. *)
Definition permitted (s : model_state) (a : action) : Prop :=
  match a with
  | Forward _ | Update _ => current s = Training /\ grad s = true
  | Reconstruct _ | Generate _ => current s = Evaluation /\ grad s = false
  | Fid _ _ => grad s = false
  | NoGradExit => saved s = [true]
  | _ => True
  end.

(** Every action of [t], run from the state [s], is permitted. *)
Fixpoint safe (fid_mode : mode -> mode) (s : model_state) (t : list action)
  : Prop :=
  match t with
  | [] => True
  | a :: t' => permitted s a /\ safe fid_mode (act fid_mode s a) t'
  end.

(** A piece of the trace of one pass of the [while] loop: no pass starts in
    it, at most [n] steps begin in it, it is safe from any state outside a
    [no_grad] block and ends outside. *)
Definition tidy (n : nat) (t : list action) : Prop :=
  attempt_sizes t = []
  /\ (List.length (iters t) <= n)%nat
  /\ forall fid_mode s, outside s ->
       safe fid_mode s t /\ outside (replay fid_mode s t).

(** Actions that neither start a pass or a step nor evaluate or train the
    model nor touch the gradient mode. *)
Definition quiet (a : action) : bool :=
  match a with
  | BuildLoader _ | LogRealImages | SetTrain | LogFid _ | LogLoss _
  | LogScore _ | Append _ _ | Print _ | CollectGarbage => true
  | _ => false
  end.

(** The actions and the locals of a pass that raises before the [for]
    loop; [p] is the position of the generator after line 212. *)
Definition setup_prefix (b : Q) (sp : setup_point) : list action :=
  match sp with
  | SPipeline => [Attempt b]
  | SSample => [Attempt b; BuildLoader (py_int b)]
  | SModel => [Attempt b; BuildLoader (py_int b); LogRealImages]
  | SOptim | SLate =>
      [Attempt b; BuildLoader (py_int b); LogRealImages; SetTrain]
  end.

Definition setup_locals (l : locals) (p : N) (sp : setup_point) : locals :=
  {| batch_size := batch_size l;
     i := i l;
     vae := match sp with
            | SPipeline | SSample => vae l
            | SModel => BoundNone
            | SOptim | SLate => BoundObj
            end;
     vae_optim := match sp with
                  | SPipeline | SSample => vae_optim l
                  | SModel | SOptim => BoundNone
                  | SLate => BoundObj
                  end;
     scores := scores l;
     loader := match sp with SPipeline => loader l | _ => p end |}.

(** The test of lines 298-299: [i is not None and i > 10_000]. *)
Definition past_cutoff (l : locals) : bool :=
  match i l with
  | Some idx => (retry_cutoff <? idx)%N
  | None => false
  end.

(** What [if x is not None: del x] leaves of a binding. *)
Definition released (b : binding) : binding :=
  match b with
  | BoundObj => Unbound
  | _ => b
  end.

(** The locals after a retry (lines 303-316). *)
Definition after_retry (l : locals) : locals :=
  {| batch_size := batch_size l / 2; i := i l; vae := released (vae l);
     vae_optim := released (vae_optim l); scores := scores l;
     loader := loader l |}.

(** [initial_batch_size / 2^k], the batch size after [k] halvings. *)
Definition halved (k : nat) : Q := initial_batch_size / 2 ^ Z.of_nat k.

(** [range(idx, idx + m)]. *)
Fixpoint range (idx : N) (m : nat) : list N :=
  match m with
  | O => []
  | S m' => idx :: range (idx + 1)%N m'
  end.

(** The steps at which the quantitative probe runs and its score is kept. *)
Definition sampled (idx : N) : bool := quant_due idx && recorded idx.

(** The normalising constant of [weights n]. *)
Definition root_sum (n : nat) : R :=
  py_sum (map (fun k => sqrt (INR k)) (seq 1 n)).

(** A trace that is empty or starts with a pass of the [while] loop. *)
Definition starts_pass (t : list action) : Prop :=
  t = [] \/ exists b t', t = Attempt b :: t'.

(** *** Sample environments *)

(** A step without exception whose loss is a number. *)
Definition plain_step : step_env :=
  {| loss_nan := false; fid := 0; mse := 0; fault := None |}.

(** A pass in which nothing raises and no loss is NaN. *)
Definition plain_pass : attempt_env :=
  {| setup_fault := None; steps := fun _ => plain_step |}.

(** A dataset of 512 samples and nothing but plain passes. *)
Definition plain_env : env :=
  {| dataset_len := 512; attempts := fun _ => plain_pass |}.

(** A NaN loss at step 0 of the first pass, in which [vae_fid] then runs out
    of memory; the second pass stops at step 1 on another [RuntimeError]. *)
Definition nan_then_oom : env :=
  {| dataset_len := 512;
     attempts := fun k =>
       match k with
       | O =>
           {| setup_fault := None;
              steps := fun j =>
                if (j =? 0)%N then
                  {| loss_nan := true; fid := 0; mse := 0;
                     fault := Some (PQuant,
                                    RuntimeError "CUDA out of memory") |}
                else plain_step |}
       | S _ =>
           {| setup_fault := None;
              steps := fun j =>
                if (j =? 1)%N then
                  {| loss_nan := false; fid := 0; mse := 0;
                     fault := Some (PForward, RuntimeError "device lost") |}
                else plain_step |}
       end |}.

(** A NaN loss at step 12000 of the first pass. *)
Definition nan_at_12000 : env :=
  {| dataset_len := 512;
     attempts := fun _ =>
       {| setup_fault := None;
          steps := fun j =>
            if (j =? 12000)%N then
              {| loss_nan := true; fid := 0; mse := 0; fault := None |}
            else plain_step |} |}.

(** A CUDA out-of-memory error in the forward pass of step 15000 of the
    first pass. *)
Definition oom_at_15000 : env :=
  {| dataset_len := 512;
     attempts := fun _ =>
       {| setup_fault := None;
          steps := fun j =>
            if (j =? 15000)%N then
              {| loss_nan := false; fid := 0; mse := 0;
                 fault := Some (PForward,
                                RuntimeError "CUDA out of memory") |}
            else plain_step |} |}.

(** Every pass runs out of memory while the model is built. *)
Definition always_oom : env :=
  {| dataset_len := 512;
     attempts := fun _ =>
       {| setup_fault :=
            Some (SModel,
                  RuntimeError "CUDA out of memory. Tried to allocate 2.00 GiB");
          steps := fun _ => plain_step |} |}.

(** One clean step, then an exception that [train] does not catch. *)
Definition stops_at_step_1 : env :=
  {| dataset_len := 512;
     attempts := fun _ =>
       {| setup_fault := None;
          steps := fun j =>
            if (j =? 1)%N then
              {| loss_nan := false; fid := 0; mse := 0;
                 fault := Some (PForward, OtherError "interrupted") |}
            else plain_step |} |}.

(** A dataset smaller than the first batch size. *)
Definition small_dataset : env :=
  {| dataset_len := 500; attempts := fun _ => plain_pass |}.

End Train.
(** ** The reconstruction term in float32 (lines 161-164)

    The tensors of [loss] are float32 tensors.  Subtraction, addition and
    multiplication are the IEEE 754 binary32 operations, rounding to
    nearest even; [th.exp], [th.log] and [Tensor.mean] are kernels of torch
    that IEEE 754 does not fix: they are parameters, and what is assumed of
    them is said in [sane]. *)

Module Float32.
Import SpecFloat.

(** An IEEE 754 value without payload; which format it belongs to is
    decided by the operation that made it. *)
Definition float := spec_float.

(** The operations on float32 tensors, entry by entry. *)
Definition add32 : float -> float -> float := SFadd 24 128.
Definition sub32 : float -> float -> float := SFsub 24 128.
Definition mul32 : float -> float -> float := SFmul 24 128.

(** Python's [*] and [/] on floats: binary64. *)
Definition mul64 : float -> float -> float := SFmul 53 1024.
Definition div64 : float -> float -> float := SFdiv 53 1024.

(** A Python float that meets a float32 tensor is rounded to binary32. *)
Definition to32 (x : float) : float :=
  match x with
  | S754_finite s m e => binary_round 24 128 s m e
  | _ => x
  end.

(** A whole number as a float32 and as a Python float. *)
Definition of_Z32 (n : Z) : float := binary_normalize 24 128 n 0 false.
Definition of_Z64 (n : Z) : float := binary_normalize 53 1024 n 0 false.

Definition pinf : float := S754_infinity false.
Definition pzero : float := S754_zero false.

(** [x <= y]; false when one of them is NaN. *)
Definition leb : float -> float -> bool := SFleb.

(** Neither an infinity nor NaN. *)
Definition finite (x : float) : bool :=
  match x with
  | S754_zero _ | S754_finite _ _ _ => true
  | _ => false
  end.

(** [ln 2] rounded to binary32, the bit pattern 0x3F317218. *)
Definition ln2 : float := S754_finite false 11629080 (-24).

(** [th.exp] and [th.log] on one entry of a float32 tensor, and
    [Tensor.mean] on a float32 tensor. *)
Record kernels := {
  exp32 : float -> float;
  log32 : float -> float;
  mean32 : list float -> float
}.

(** What is assumed of the kernels.  [e^89] is beyond the largest float32
    and [e^(-150)] below half the smallest: [exp] gives [inf] from 89 on
    and [0] up to -150.  [log] maps [inf] to [inf], 1 to 0 and 2 to the
    float32 nearest to [ln 2].  The mean of a single entry that is not
    [-0] is that entry, and a mean over an entry that is an infinity or NaN
    is an infinity or NaN, in whatever order the entries are added. *)
Record sane (k : kernels) : Prop := {
  exp_overflows :
    forall x, leb (of_Z32 89) x = true -> exp32 k x = pinf;
  exp_underflows :
    forall x, leb x (of_Z32 (-150)) = true -> exp32 k x = pzero;
  log_of_inf : log32 k pinf = pinf;
  log_of_one : log32 k (of_Z32 1) = pzero;
  log_of_two : log32 k (of_Z32 2) = ln2;
  mean_of_one :
    forall x, x <> S754_zero true -> mean32 k [x] = x;
  mean_not_finite :
    forall xs, existsb (fun x => negb (finite x)) xs = true ->
               finite (mean32 k xs) = false
}.

(** Entry-wise combination of two float32 tensors of one shape; as in
    [LogCoshVAE.zip_with], other shapes are outside the model. *)
Fixpoint zip_with32 (f : float -> float -> float) (a b : list float)
  : option (list float) :=
  match a, b with
  | [], [] => Some []
  | x :: a', y :: b' =>
      match zip_with32 f a' b' with
      | Some r => Some (f x y :: r)
      | None => None
      end
  | _, _ => None
  end.

(** The argument of [th.exp] in line 163: [-2 * self.alpha] is computed by
    Python, in binary64, before it meets the tensor [t]. *)
Definition exp_argument (alpha t : float) : float :=
  mul32 (to32 (mul64 (of_Z64 (-2)) alpha)) t.

(** One entry of [self.alpha * t + th.log(1.0 + th.exp(-2 * self.alpha * t))
    - th.log(th.tensor(2.0))], from left to right. *)
Definition logcosh_entry32 (k : kernels) (alpha t : float) : float :=
  sub32
    (add32 (mul32 (to32 alpha) t)
           (log32 k (add32 (of_Z32 1) (exp32 k (exp_argument alpha t)))))
    (log32 k (of_Z32 2)).

(** [recons_loss]: [t = fake - real], then
    [(1.0 / self.alpha) * recons_loss.mean()]; [1.0 / self.alpha] is
    computed by Python. *)
Definition recons_loss32 (k : kernels) (alpha : float)
    (real fake : list float) : option float :=
  match zip_with32 sub32 fake real with
  | Some t =>
      Some (mul32 (to32 (div64 (of_Z64 1) alpha))
                  (mean32 k (map (logcosh_entry32 k alpha) t)))
  | None => None
  end.

(** Whether [th.exp] overflows on the entry [t]. *)
Definition overflows (alpha t : float) : bool :=
  leb (of_Z32 89) (exp_argument alpha t).

(** Kernels that meet [sane] and are coarse everywhere else: they show
    that the assumptions can be met together. *)
Definition coarse_kernels : kernels :=
  {| exp32 := fun x =>
       if leb (of_Z32 89) x then pinf
       else if leb x (of_Z32 (-150)) then pzero
       else of_Z32 1;
     log32 := fun x =>
       match x with
       | S754_infinity false => pinf
       | S754_finite false 8388608 (-22) => ln2
       | _ => pzero
       end;
     mean32 := fun xs =>
       match xs with
       | [x] => x
       | _ => if existsb (fun x => negb (finite x)) xs then S754_nan
              else pzero
       end |}.

End Float32.

(** ** More on the training routine *)

Module TrainSpec.
Import Train.

(** What the last action of the trace of a computation is, by its result:
    the logging of the penalty on the NaN exit, no logging of a score when
    it raises.  [terminal_score] reads the last action of a trace, whatever
    it is: it says how a run ends, not which record the tracker got last. *)
Definition ends_well (t : list action) (r : res unit) : Prop :=
  match r with
  | Raise _ => forall pre, terminal_score (pre ++ t) = None
  | Return o => o = NanExit /\ forall pre, terminal_score (pre ++ t) = Some penalty
  | _ => True
  end.


(** The last action of the trace of one pass of the [while] loop, and of
    the whole run, by the way it ends: the logging of a score on the three
    exits that log one; on the cutoff exit, on another [RuntimeError] and on
    an exception that leaves [train] the last action is not the logging of
    a score. *)
Definition pass_ends (t : list action) (r : res unit) : Prop :=
  match r with
  | Ok _ | Hang => True
  | Raise _ => forall pre, terminal_score (pre ++ t) = None
  | Return Success => exists v, forall pre, terminal_score (pre ++ t) = Some v
  | Return NanExit | Return MemoryExit =>
      forall pre, terminal_score (pre ++ t) = Some penalty
  | Return CutoffExit | Return OtherExit =>
      forall pre, terminal_score (pre ++ t) = None
  | Return LoopEnd => False
  end.

Definition run_ends (t : list action) (en : ending) : Prop :=
  match en with
  | OutOfFuel => True
  | Uncaught _ => terminal_score t = None
  | Finished Success => exists v, terminal_score t = Some v
  | Finished NanExit | Finished MemoryExit => terminal_score t = Some penalty
  | Finished CutoffExit | Finished OtherExit => terminal_score t = None
  | Finished LoopEnd => False
  end.

(** *** More sample environments *)

(** The first pass runs out of memory while the sample images are logged
    (line 213), before [vae] and [vae_optim] are bound. *)
Definition oom_at_first_batch : env :=
  {| dataset_len := 512;
     attempts := fun _ =>
       {| setup_fault := Some (SSample, RuntimeError "CUDA out of memory");
          steps := fun _ => plain_step |} |}.

(** A [RuntimeError] that is no memory error in the forward pass of step 1. *)
Definition device_lost_at_step_1 : env :=
  {| dataset_len := 512;
     attempts := fun _ =>
       {| setup_fault := None;
          steps := fun j =>
            if (j =? 1)%N then
              {| loss_nan := false; fid := 0; mse := 0;
                 fault := Some (PForward, RuntimeError "device lost") |}
            else plain_step |} |}.

(** A CUDA out-of-memory error in the forward pass of step 10000 of the
    first pass; the later passes are plain. *)
Definition oom_at_10000 : env :=
  {| dataset_len := 512;
     attempts := fun k =>
       match k with
       | O =>
           {| setup_fault := None;
              steps := fun j =>
                if (j =? 10000)%N then
                  {| loss_nan := false; fid := 0; mse := 0;
                     fault := Some (PForward,
                                    RuntimeError "CUDA out of memory") |}
                else plain_step |}
       | S _ => plain_pass
       end |}.

End TrainSpec.

(** ** The moving average of parameters: [accumulate] *)

Module Accumulate.
Import LogCoshVAE.
Local Open Scope R_scope.

(** [model.named_parameters()]: the names of the parameters with the
    [Parameter] objects, in order.  An object is the address of its [data]
    in the store, so that two models can share a parameter. *)
Definition model := list (string * nat).

(** The [data] of every [Parameter] object. *)
Definition store := nat -> tensor.

(** [dict(pairs).get(n)]: a later pair replaces an earlier one with the same
    key. *)
Fixpoint dict (m : model) (n : string) : option nat :=
  match m with
  | [] => None
  | (k, p) :: m' =>
      match dict m' n with
      | Some q => Some q
      | None => if String.eqb k n then Some p else None
      end
  end.

(** [decay * a + (1 - decay) * b] on tensors of one size. *)
Definition mix (decay : R) (a b : tensor) : option tensor :=
  zip_with (fun x y => decay * x + (1 - decay) * y) a b.

(** [p.data = v]. *)
Definition set_data (p : nat) (v : tensor) (s : store) : store :=
  fun q => if Nat.eqb q p then v else s q.

(** How the loop can stop early: [par1[n]] or [par2[n]] raises [KeyError];
    the two tensors differ in size, where torch broadcasts or raises, which
    is outside the model. *)
Inductive error :=
| KeyError (n : string)
| SizeMismatch (n : string).

(** [for n, p in model1.named_parameters(): p.data = ...]; the store is
    updated in place, parameter by parameter. *)
Fixpoint loop (decay : R) (par1 par2 : string -> option nat) (ps : model)
    (s : store) : store * option error :=
  match ps with
  | [] => (s, None)
  | (n, p) :: rest =>
      match par1 n with
      | None => (s, Some (KeyError n))
      | Some p1 =>
          match par2 n with
          | None => (s, Some (KeyError n))
          | Some p2 =>
              match mix decay (s p1) (s p2) with
              | None => (s, Some (SizeMismatch n))
              | Some v => loop decay par1 par2 rest (set_data p v s)
              end
          end
      end
  end.

Definition accumulate (decay : R) (model1 model2 : model) (s : store)
  : store * option error :=
  loop decay (dict model1) (dict model2) model1 s.

(** The parameter objects of a model. *)
Definition objects (m : model) : list nat := map snd m.

(** Two models of three parameters that share no object, and a store. *)
Definition generator : model :=
  [("conv.weight"%string, 0%nat); ("conv.bias"%string, 1%nat);
   ("fc.weight"%string, 2%nat)].

Definition generator_ema : model :=
  [("conv.weight"%string, 3%nat); ("conv.bias"%string, 4%nat);
   ("fc.weight"%string, 5%nat)].

(** A model that lacks the parameter [conv.bias]. *)
Definition without_bias : model :=
  [("conv.weight"%string, 3%nat); ("fc.weight"%string, 5%nat)].

Definition sample_store : store := fun q =>
  match q with
  | 0%nat => [1; 2]
  | 1%nat => [3]
  | 2%nat => [4; 5; 6]
  | 3%nat => [0; 0]
  | 4%nat => [1]
  | 5%nat => [6; 5; 4]
  | _ => []
  end.

End Accumulate.

(** ** Drawing batches: [next(loader)] *)

Module Sampling.
Import Train.

(** [j] calls of [next(loader)] in a row, from the position [pos] of the
    generator of [sample_data]. *)
Fixpoint draws (fuel : nat) (per_pass : N) (j : nat) (pos : N) : option N :=
  match j with
  | O => Some pos
  | S j' =>
      match sample_data fuel per_pass pos with
      | Some p => draws fuel per_pass j' p
      | None => None
      end
  end.

End Sampling.

(** ** The shapes of the network: [LogCoshVAE.__init__], [encode],
    [decode], [forward], [Flatten] and [UnFlatten]

    The modules of torch are read by what they do to the shape of a
    contiguous tensor; the entries are not part of this model. *)

Module Network.
Local Open Scope nat_scope.

Definition shape := list nat.

(** What a call gives: a value, an exception of torch or Python, or an
    input that the model does not cover. *)
Inductive result (A : Type) :=
| Has (a : A)
| Raises
| Unmodelled.
Arguments Has {A} a.
Arguments Raises {A}.
Arguments Unmodelled {A}.

Definition and_then {A B : Type} (r : result A) (f : A -> result B)
  : result B :=
  match r with
  | Has a => f a
  | Raises => Raises
  | Unmodelled => Unmodelled
  end.

(** [x.numel()]. *)
Definition numel (sh : shape) : nat := fold_right Nat.mul 1%nat sh.

(** A tensor without entries; such tensors are not covered. *)
Definition empty (sh : shape) : bool := existsb (Nat.eqb 0) sh.

(** The modules that [__init__] builds.  [FusedLeakyReLU] is the leaky
    activation with a learned bias per channel of the package [op]. *)
Inductive layer :=
| Conv2d (in_channels out_channels kernel_size stride padding : nat)
| BatchNorm2d (num_features : nat)
| FusedLeakyReLU (channel : nat)
| Upsample (scale_factor : nat)
| Linear (in_features out_features : nat)
| Tanh.

(** The output size of a convolution along one axis. *)
Definition conv_size (h kernel stride padding : nat) : nat :=
  (h + 2 * padding - kernel) / stride + 1.

(** The shape that a module returns.  A convolution and a normalisation
    raise on a wrong number of channels, a convolution on an input smaller
    than its kernel, a normalisation in training mode on a single value per
    channel, a linear map on a wrong last dimension. *)
Definition layer_forward (training : bool) (ly : layer) (sh : shape)
  : result shape :=
  if empty sh then Unmodelled
  else
    match ly, sh with
    | Conv2d cin cout k s p, [b; c; h; w] =>
        if (c =? cin) && (k <=? h + 2 * p) && (k <=? w + 2 * p)
        then Has [b; cout; conv_size h k s p; conv_size w k s p]
        else Raises
    | BatchNorm2d f, [b; c; h; w] =>
        if (c =? f) && (negb training || (1 <? b * h * w))
        then Has sh else Raises
    | FusedLeakyReLU ch, [b; c; h; w] =>
        if c =? ch then Has sh else Unmodelled
    | Upsample k, [b; c; h; w] => Has [b; c; k * h; k * w]
    | Linear fin fout, _ :: _ =>
        if last sh 0 =? fin then Has (removelast sh ++ [fout]) else Raises
    | Tanh, _ => Has sh
    | _, _ => Unmodelled
    end.

(** [th.nn.Sequential] of the modules, applied one after the other. *)
Fixpoint sequential (training : bool) (modules : list layer) (sh : shape)
  : result shape :=
  match modules with
  | [] => Has sh
  | ly :: rest =>
      and_then (layer_forward training ly sh) (sequential training rest)
  end.

(** The fields of a [LogCoshVAE] that [encode] and [decode] use. *)
Record vae := {
  latent_dim : nat;
  encoder : list layer;
  fc_mu : layer;
  fc_var : layer;
  decoder_input : layer;
  decoder : list layer;
  final_layer : list layer
}.

(** The loop of lines 94-102, [in_channels] being updated in each pass. *)
Fixpoint encoder_modules (in_channels : nat) (dims : list nat) : list layer :=
  match dims with
  | [] => []
  | h_dim :: rest =>
      [Conv2d in_channels h_dim 3 2 1; BatchNorm2d h_dim;
       FusedLeakyReLU h_dim] ++ encoder_modules h_dim rest
  end.

(** The loop of lines 115-123 over the reversed dimensions: one block for
    each pair of neighbours. *)
Fixpoint decoder_modules (dims : list nat) : list layer :=
  match dims with
  | a :: rest =>
      match rest with
      | b :: _ =>
          [Upsample 2; Conv2d a b 3 1 1; BatchNorm2d b; FusedLeakyReLU b]
          ++ decoder_modules rest
      | [] => []
      end
  | [] => []
  end.

(** [my_hidden_dims] after lines 80 and 88-89. *)
Definition my_hidden_dims (hidden_dims : option (list nat)) : list nat :=
  match hidden_dims with
  | Some dims => dims
  | None => [32; 64; 128; 256; 512]
  end.

(** The modules that lines 91-132 build from a list of dimensions that is
    not empty: [width] is [my_hidden_dims[-1]] before the list is reversed
    (line 113), [out] after. *)
Definition modules_of (in_channels latent : nat) (dims : list nat) : vae :=
  let width := last dims 0 in
  let reversed := rev dims in
  let out := last reversed 0 in
  {| latent_dim := latent;
     encoder := encoder_modules in_channels dims;
     fc_mu := Linear (width * 4) latent;
     fc_var := Linear (width * 4) latent;
     decoder_input := Linear latent (width * 4);
     decoder := decoder_modules reversed;
     final_layer :=
       [Upsample 2; Conv2d out out 3 1 1; BatchNorm2d out;
        FusedLeakyReLU out; Conv2d out 3 3 1 1; Tanh] |}.

(** [LogCoshVAE(in_channels, latent_dim, hidden_dims)]: with an empty list
    [my_hidden_dims[-1]] raises [IndexError]. *)
Definition init (in_channels latent : nat) (hidden_dims : option (list nat))
  : result vae :=
  match my_hidden_dims hidden_dims with
  | [] => Raises
  | dims => Has (modules_of in_channels latent dims)
  end.

(** [th.flatten(result, start_dim=1)]. *)
Definition flatten1 (sh : shape) : result shape :=
  if empty sh then Unmodelled
  else
    match sh with
    | b :: d :: rest => Has [b; numel (d :: rest)]
    | _ => Raises
    end.

(** [result.view(-1, latent_dim, 2, 2)]. *)
Definition view4 (latent : nat) (sh : shape) : result shape :=
  if empty sh then Unmodelled
  else if latent * 2 * 2 =? 0 then Raises
  else if numel sh mod (latent * 2 * 2) =? 0
       then Has [numel sh / (latent * 2 * 2); latent; 2; 2]
       else Raises.

Definition encode (training : bool) (net : vae) (input : shape)
  : result (shape * shape) :=
  and_then (sequential training (encoder net) input) (fun result =>
  and_then (flatten1 result) (fun result =>
  and_then (layer_forward training (fc_mu net) result) (fun mu =>
  and_then (layer_forward training (fc_var net) result) (fun log_var =>
  Has (mu, log_var))))).

Definition decode (training : bool) (net : vae) (z : shape) : result shape :=
  and_then (layer_forward training (decoder_input net) z) (fun result =>
  and_then (view4 (latent_dim net) result) (fun result =>
  and_then (sequential training (decoder net) result) (fun result =>
  sequential training (final_layer net) result))).

(** The shape of [eps * std + mu]; shapes that differ are broadcast or
    rejected by torch, which the model does not cover. *)
Definition reparameterize_shape (mu logvar : shape) : result shape :=
  if list_eq_dec Nat.eq_dec mu logvar then Has mu else Unmodelled.

(** [forward]: the shapes of [self.decode(z)], [mu] and [log_var]. *)
Definition forward (training : bool) (net : vae) (input : shape)
  : result (shape * shape * shape) :=
  and_then (encode training net input) (fun '(mu, log_var) =>
  and_then (reparameterize_shape mu log_var) (fun z =>
  and_then (decode training net z) (fun out =>
  Has (out, mu, log_var)))).

(** Line 217 of [train]:
    [[min(int(number_filters) * 2 ** i, latent_dim) for i in range(5)]
     + [latent_dim]]. *)
Definition hidden_dims (number_filters latent : nat) : list nat :=
  map (fun i => Nat.min (number_filters * 2 ^ i) latent) (seq 0 5)
  ++ [latent].

(** [Flatten.forward]: [x.view(x.size(0), -1)]; [x.size(0)] raises
    [IndexError] on a tensor without dimensions. *)
Definition Flatten (sh : shape) : result shape :=
  match sh with
  | [] => Raises
  | b :: rest => if empty sh then Unmodelled else Has [b; numel rest]
  end.

(** [UnFlatten(channels, size).forward]:
    [x.view(x.size(0), self.channels, self.size, self.size)]. *)
Definition UnFlatten (channels size : nat) (sh : shape) : result shape :=
  match sh with
  | [] => Raises
  | b :: rest =>
      if empty sh then Unmodelled
      else if numel sh =? b * channels * size * size
           then Has [b; channels; size; size]
           else Raises
  end.

End Network.

(** ** Facts on the objective *)

Section LossFacts.
Import LogCoshVAE.
Local Open Scope R_scope.

(** Over the real numbers the entry is an even function of [t], and the
    reconstruction term does not change when [real] and [fake] are swapped;
    what the float32 code does is in [Float32]. *)
Lemma logcosh_entry_even (a t : R) : logcosh_entry a (- t) = logcosh_entry a t.
Proof.
  unfold logcosh_entry.
  set (x := a * t).
  replace (-2 * a * - t) with (2 * x) by (unfold x; ring).
  replace (-2 * a * t) with (- (2 * x)) by (unfold x; ring).
  replace (a * - t) with (- x) by (unfold x; ring).
  assert (Hpos : 0 < 1 + exp (- (2 * x))).
  { pose proof (exp_pos (- (2 * x))). lra. }
  assert (Hfac : 1 + exp (2 * x) = exp (2 * x) * (1 + exp (- (2 * x)))).
  { rewrite Rmult_plus_distr_l, <- exp_plus.
    replace (2 * x + - (2 * x)) with 0 by ring.
    rewrite exp_0. ring. }
  rewrite Hfac, ln_mult by (auto using exp_pos).
  rewrite ln_exp. ring.
Qed.

Lemma zip_with_minus_swap (a b : tensor) :
  zip_with Rminus a b = option_map (map Ropp) (zip_with Rminus b a).
Proof.
  revert b. induction a as [|x a IH]; intros [|y b]; simpl; try reflexivity.
  rewrite IH. destruct (zip_with Rminus b a); simpl; [|reflexivity].
  f_equal. f_equal. ring.
Qed.

Lemma recons_loss_swap (h : hyper) (real fake : tensor) :
  recons_loss h fake real = recons_loss h real fake.
Proof.
  unfold recons_loss. rewrite (zip_with_minus_swap real fake).
  destruct (zip_with Rminus fake real) as [t|]; simpl; [|reflexivity].
  rewrite map_map.
  rewrite (map_ext _ (logcosh_entry (alpha h))); [reflexivity|].
  intro t0. apply logcosh_entry_even.
Qed.

Lemma tsum_from (x : tensor) (acc : R) : fold_left Rplus x acc = acc + tsum x.
Proof.
  unfold tsum. revert acc.
  induction x as [|v x IH]; intro acc; simpl; [ring|].
  rewrite IH, (IH (0 + v)). ring.
Qed.

Lemma tsum_cons (v : R) (x : tensor) : tsum (v :: x) = v + tsum x.
Proof. unfold tsum at 1. simpl. rewrite tsum_from. ring. Qed.

Lemma tsum_repeat_0 (n : nat) : tsum (repeat 0 n) = 0.
Proof.
  induction n as [|n IH]; [reflexivity|].
  simpl repeat. rewrite tsum_cons, IH. ring.
Qed.

Lemma zip_kld_zero (d : nat) :
  zip_with kld_entry (repeat 0 d) (repeat 0 d) = Some (repeat 0 d).
Proof.
  induction d as [|d IH]; [reflexivity|].
  simpl. rewrite IH. f_equal. f_equal.
  unfold kld_entry. rewrite exp_0. ring.
Qed.

Lemma kld_rows_zero (b d : nat) :
  kld_rows (zeros b d) (zeros b d) = Some (repeat 0 b).
Proof.
  unfold zeros. induction b as [|b IH]; [reflexivity|].
  simpl. rewrite zip_kld_zero, IH, tsum_repeat_0. reflexivity.
Qed.

Lemma map_half_zero (b : nat) :
  map (fun s => -0.5 * s) (repeat 0 b) = repeat 0 b.
Proof.
  induction b as [|b IH]; [reflexivity|].
  simpl. rewrite IH. f_equal. ring.
Qed.

Lemma kld_loss_zero (b d : nat) :
  (0 < b)%nat -> kld_loss (zeros b d) (zeros b d) = Some 0.
Proof.
  intro Hb. unfold kld_loss. rewrite kld_rows_zero, map_half_zero.
  destruct b as [|b]; [lia|].
  unfold tmean. simpl repeat. cbv iota beta.
  change (0 :: repeat 0 b) with (repeat 0 (S b)).
  rewrite tsum_repeat_0. f_equal. unfold Rdiv. ring.
Qed.


(** C8: for every batch, the KL term
    [mean over the batch of -0.5 * sum over the latent dimensions of
    (1 + log_var - mu^2 - exp(log_var))] is exactly 0 when [mu = 0] and
    [log_var = 0] in all latent dimensions; so is the entry of the
    dictionary, and the total is the reconstruction term alone. *)
Theorem kld_zero_at_prior
    (h : hyper) (real fake : tensor) (batch latent : nat) (r : R) :
  (0 < batch)%nat ->
  recons_loss h real fake = Some r ->
  kld_loss (zeros batch latent) (zeros batch latent) = Some 0
  /\ exists d, loss h real fake (zeros batch latent) (zeros batch latent) = Some d
               /\ KLD d = 0 /\ Total d = Reconstruction d.
Proof.
  intros Hb Hr. split; [apply kld_loss_zero, Hb|].
  unfold loss. rewrite Hr, (kld_loss_zero _ _ Hb).
  eexists. split; [reflexivity|]. simpl. split; ring.
Qed.

Lemma kld_zero_at_prior_witness :
  let h := {| alpha := 1; beta := 1; kld_weight := 1 |} in
  (0 < 2)%nat
  /\ (exists r, recons_loss h [0; 0] [1; 1] = Some r)
  /\ kld_loss (zeros 2 3) (zeros 2 3) = Some 0
  /\ exists d, loss h [0; 0] [1; 1] (zeros 2 3) (zeros 2 3) = Some d
               /\ KLD d = 0 /\ Total d = Reconstruction d.
Proof.
  cbv zeta. split; [lia|]. split; [eexists; reflexivity|].
  eapply (kld_zero_at_prior
            {| alpha := 1; beta := 1; kld_weight := 1 |} [0; 0] [1; 1] 2 3).
  - lia.
  - reflexivity.
Defined.

End LossFacts.

(** ** Facts on the training routine *)

Section TrainFacts.
Import Train.

(** *** The generator *)

Lemma sample_data_yields (fuel : nat) (per_pass pos : N) :
  (1 <= per_pass)%N -> (2 <= fuel)%nat ->
  exists p, sample_data fuel per_pass pos = Some p.
Proof.
  intros Hp Hf.
  destruct fuel as [|[|fuel]]; try lia.
  simpl. destruct (pos <? per_pass)%N; [eauto|].
  destruct (0 <? per_pass)%N eqn:H0; [eauto|].
  apply N.ltb_ge in H0. lia.
Qed.

Lemma sample_data_empty (fuel : nat) (pos : N) :
  sample_data fuel 0%N pos = None.
Proof.
  revert pos. induction fuel as [|fuel IH]; intro pos; [reflexivity|].
  simpl. destruct (pos <? 0)%N eqn:H0; [|apply IH].
  apply N.ltb_lt in H0. lia.
Qed.

Lemma next_batch_ok (fuel : nat) (len : N) (l : locals) (p : N) :
  sample_data fuel (batches_per_pass len (py_int (batch_size l))) (loader l)
    = Some p ->
  next_batch fuel len l = ([], set_loader p l, Ok tt).
Proof.
  intro H. unfold next_batch, bind, get. cbn. rewrite H. reflexivity.
Qed.

(** *** One step *)

Lemma step_no_raise (fuel : nat) (len : N) (se : step_env) (idx : N)
    (l : locals) (p : N) :
  raises se idx = None ->
  sample_data fuel (batches_per_pass len (py_int (batch_size l))) (loader l)
    = Some p ->
  step fuel len se idx l =
    (step_actions (py_int (batch_size l)) se idx
       ++ (if loss_nan se then nan_actions else []),
     set_scores (scores l ++ sample_of se idx) (set_loader p l),
     if loss_nan se then Return NanExit else Ok tt).
Proof.
  intros Hr Hs.
  unfold step, bind at 1. cbn [emit].
  unfold bind at 1. rewrite (next_batch_ok _ _ _ _ Hs).
  unfold raises, reached in Hr.
  unfold step_actions, quant_actions, qual_actions, sample_of, nan_actions.
  unfold may_raise.
  destruct (fault se) as [[[] e]|];
    destruct (qual_due idx), (quant_due idx); try discriminate;
    destruct (recorded idx), (loss_nan se); cbn.
  all: try reflexivity.
  all: rewrite app_nil_r; reflexivity.
Qed.

Lemma step_raise (fuel : nat) (len : N) (se : step_env) (idx : N)
    (l : locals) (p : N) (ph : phase) (e : exn) :
  fault se = Some (ph, e) ->
  reached idx ph = true ->
  sample_data fuel (batches_per_pass len (py_int (batch_size l))) (loader l)
    = Some p ->
  step fuel len se idx l = (raise_actions idx ph, set_loader p l, Raise e).
Proof.
  intros Hf Hr Hs.
  unfold step, bind at 1. cbn [emit].
  unfold bind at 1. rewrite (next_batch_ok _ _ _ _ Hs).
  unfold may_raise, raise_actions, qual_actions. rewrite Hf.
  destruct ph; cbn in Hr |- *; try reflexivity.
  - rewrite Hr. reflexivity.
  - rewrite Hr. destruct (qual_due idx); reflexivity.
Qed.

Lemma step_hang (fuel : nat) (len : N) (se : step_env) (idx : N) (l : locals) :
  sample_data fuel (batches_per_pass len (py_int (batch_size l))) (loader l)
    = None ->
  step fuel len se idx l = ([SetTrain], l, Hang).
Proof.
  intro Hs. unfold step, bind at 1. cbn [emit].
  unfold bind at 1. unfold next_batch, bind, get. cbn. rewrite Hs. reflexivity.
Qed.

(** Every step falls under one of the three lemmas above. *)
Lemma raises_cases (se : step_env) (idx : N) :
  raises se idx = None
  \/ exists ph e, fault se = Some (ph, e) /\ reached idx ph = true
                  /\ raises se idx = Some e.
Proof.
  unfold raises. destruct (fault se) as [[ph e]|]; [|left; reflexivity].
  destruct (reached idx ph) eqn:Hr; [|left; reflexivity].
  right. exists ph, e. auto.
Qed.

(** *** Sequencing *)

Ltac mstep :=
  unfold bind at 1; cbn [get emit ret modify raise return_ hang].


Lemma bind_ok {A B : Type} (m : M A) (f : A -> M B) (l l1 : locals)
    (t1 : list action) (a : A) :
  m l = (t1, l1, Ok a) -> bind m f l = prepend t1 (f a l1).
Proof. intro H. unfold bind, prepend. rewrite H. reflexivity. Qed.

Lemma bind_return {A B : Type} (m : M A) (f : A -> M B) (l l1 : locals)
    (t1 : list action) (o : outcome) :
  m l = (t1, l1, Return o) -> bind m f l = (t1, l1, Return o).
Proof. intro H. unfold bind. rewrite H. reflexivity. Qed.

Lemma bind_raise {A B : Type} (m : M A) (f : A -> M B) (l l1 : locals)
    (t1 : list action) (e : exn) :
  m l = (t1, l1, Raise e) -> bind m f l = (t1, l1, Raise e).
Proof. intro H. unfold bind. rewrite H. reflexivity. Qed.

Lemma bind_hang {A B : Type} (m : M A) (f : A -> M B) (l l1 : locals)
    (t1 : list action) :
  m l = (t1, l1, Hang) -> bind m f l = (t1, l1, Hang).
Proof. intro H. unfold bind. rewrite H. reflexivity. Qed.

Lemma prepend_nil {A : Type} (x : list action * locals * res A) :
  prepend [] x = x.
Proof. destruct x as [[t l] r]. reflexivity. Qed.

Lemma prepend_app {A : Type} (t0 t1 : list action)
    (x : list action * locals * res A) :
  prepend t0 (prepend t1 x) = prepend (t0 ++ t1) x.
Proof. destruct x as [[t l] r]. simpl. rewrite app_assoc. reflexivity. Qed.

Lemma after_steps_id (l : locals) :
  after_steps l (i l) [] (loader l) = l.
Proof. destruct l. unfold after_steps. simpl. rewrite app_nil_r. reflexivity. Qed.

(** *** The [for] loop over clean steps *)

Section ForRange.
Variables (fuel : nat) (len : N) (sf : N -> step_env).
Let body := fun idx => step fuel len (sf idx) idx.

Lemma for_range_clean (m r : nat) : forall (idx : N) (l : locals),
  (forall j, (idx <= j < idx + N.of_nat m)%N -> clean (sf j) j) ->
  (1 <= batches_per_pass len (py_int (batch_size l)))%N ->
  (2 <= fuel)%nat ->
  exists p,
    for_range (m + r) idx body l =
      prepend (clean_actions (py_int (batch_size l)) sf m idx)
        (for_range r (idx + N.of_nat m)%N body
           (after_steps l (last_iter l m idx) (clean_samples sf m idx) p)).
Proof.
  induction m as [|m IH]; intros idx l Hclean Hpp Hfuel.
  - exists (loader l). simpl. rewrite N.add_0_r, prepend_nil, after_steps_id.
    reflexivity.
  - destruct (sample_data_yields fuel _ (loader (set_i idx l)) Hpp Hfuel)
      as [p Hp].
    assert (Hsucc : N.of_nat (S m) = (N.of_nat m + 1)%N)
      by (rewrite Nat2N.inj_succ; lia).
    destruct (Hclean idx ltac:(lia)) as [Hr Hnan].
    pose proof (step_no_raise fuel len (sf idx) idx (set_i idx l) p Hr Hp) as Hs.
    rewrite Hnan, app_nil_r in Hs.
    set (l1 := set_scores (scores (set_i idx l) ++ sample_of (sf idx) idx)
                 (set_loader p (set_i idx l))) in *.
    destruct (IH (idx + 1)%N l1) as [p' Hrest]; [|exact Hpp|exact Hfuel|].
    { intros j Hj. apply Hclean. lia. }
    exists p'.
    change (for_range (S m + r) idx body l)
      with (bind (modify (set_i idx))
              (fun _ => bind (emit (Iter idx))
                 (fun _ => bind (body idx)
                    (fun _ => for_range (m + r) (idx + 1)%N body))) l).
    rewrite (bind_ok _ _ l (set_i idx l) [] tt eq_refl), prepend_nil.
    rewrite (bind_ok _ _ (set_i idx l) (set_i idx l) [Iter idx] tt eq_refl).
    unfold body at 1. rewrite (bind_ok _ _ _ _ _ _ Hs).
    rewrite Hrest, !prepend_app.
    replace (idx + 1 + N.of_nat m)%N with (idx + N.of_nat (S m))%N by lia.
    f_equal.
    assert (Hi : last_iter l1 m (idx + 1)%N = Some (idx + N.of_nat m)%N).
    { destruct m as [|m']; unfold last_iter.
      - simpl. f_equal. lia.
      - f_equal. rewrite Nat2N.inj_succ. lia. }
    unfold after_steps. rewrite Hi. unfold l1, last_iter. simpl.
    rewrite <- app_assoc. reflexivity.
Qed.

End ForRange.

(** *** The [try] body *)

Lemma try_body_setup (fuel : nat) (len : N) (ae : attempt_env) (l : locals)
    (p : N) :
  setup_fault ae = None ->
  sample_data fuel (batches_per_pass len (py_int (batch_size l))) 0%N
    = Some p ->
  try_body fuel len ae l =
    prepend (setup_actions (batch_size l))
      ((for_range (N.to_nat num_iters) 0%N
          (fun idx => step fuel len (steps ae idx) idx) ;;
        l' <- get ;;
        emit (LogScore (weighted_scores (scores l'))) ;;
        return_ Success) (after_setup l p)).
Proof.
  intros Hsf Hp. unfold try_body, setup_raise. rewrite Hsf.
  remember (for_range (N.to_nat num_iters) 0%N
              (fun idx => step fuel len (steps ae idx) idx)) as loop.
  remember (fun l' : locals =>
              emit (LogScore (weighted_scores (scores l'))) ;;
              return_ Success) as fin.
  do 6 mstep.
  rewrite (next_batch_ok fuel len (set_loader 0%N l) p Hp).
  do 11 mstep.
  change (set_scores [] _) with (after_setup l p).
  destruct ((loop ;; x <- get ;; fin x) (after_setup l p)) as [[t l2] r].
  reflexivity.
Qed.

(** *** The [for] loop in any environment *)

Section ForRangeCases.
Variables (fuel : nat) (len : N) (sf : N -> step_env).
Let body := fun idx => step fuel len (sf idx) idx.

(** The loop runs clean steps until it is through, or up to the first step
    with a NaN loss or an exception. *)
Lemma for_range_cases (n : nat) : forall (idx : N) (l : locals),
  (1 <= batches_per_pass len (py_int (batch_size l)))%N ->
  (2 <= fuel)%nat ->
  let b := py_int (batch_size l) in
  (exists p,
      (forall j, (idx <= j < idx + N.of_nat n)%N -> clean (sf j) j)
      /\ for_range n idx body l =
           (clean_actions b sf n idx,
            after_steps l (last_iter l n idx) (clean_samples sf n idx) p,
            Ok tt))
  \/ (exists m p, let j := (idx + N.of_nat m)%N in
      (m < n)%nat
      /\ (forall j', (idx <= j' < j)%N -> clean (sf j') j')
      /\ raises (sf j) j = None /\ loss_nan (sf j) = true
      /\ for_range n idx body l =
           (clean_actions b sf m idx
              ++ Iter j :: step_actions b (sf j) j ++ nan_actions,
            after_steps l (Some j)
              (clean_samples sf m idx ++ sample_of (sf j) j) p,
            Return NanExit))
  \/ (exists m p ph e, let j := (idx + N.of_nat m)%N in
      (m < n)%nat
      /\ (forall j', (idx <= j' < j)%N -> clean (sf j') j')
      /\ fault (sf j) = Some (ph, e) /\ reached j ph = true
      /\ for_range n idx body l =
           (clean_actions b sf m idx ++ Iter j :: raise_actions j ph,
            after_steps l (Some j) (clean_samples sf m idx) p,
            Raise e)).
Proof.
  induction n as [|n IH]; intros idx l Hpp Hfuel b.
  - left. exists (loader l). split; [intros j Hj; simpl in Hj; lia|].
    simpl. rewrite after_steps_id. reflexivity.
  - assert (Hsucc : N.of_nat (S n) = (N.of_nat n + 1)%N)
      by (rewrite Nat2N.inj_succ; lia).
    destruct (sample_data_yields fuel _ (loader (set_i idx l)) Hpp Hfuel)
      as [p Hp].
    assert (Hunf : for_range (S n) idx body l =
                   prepend [Iter idx]
                     (bind (step fuel len (sf idx) idx)
                        (fun _ => for_range n (idx + 1)%N body) (set_i idx l))).
    { change (for_range (S n) idx body l)
        with (bind (modify (set_i idx))
                (fun _ => bind (emit (Iter idx))
                   (fun _ => bind (body idx)
                      (fun _ => for_range n (idx + 1)%N body))) l).
      rewrite (bind_ok _ _ l (set_i idx l) [] tt eq_refl), prepend_nil.
      rewrite (bind_ok _ _ (set_i idx l) (set_i idx l) [Iter idx] tt eq_refl).
      reflexivity. }
    rewrite Hunf. clear Hunf.
    destruct (raises_cases (sf idx) idx) as [Hr | (ph & e & Hf & Hre & Hr)].
    + pose proof (step_no_raise fuel len (sf idx) idx (set_i idx l) p Hr Hp)
        as Hs.
      destruct (loss_nan (sf idx)) eqn:Hnan.
      * (* the NaN exit at the first step *)
        right; left. exists 0%nat, p. cbv zeta.
        rewrite N.add_0_r.
        split; [lia|]. split; [intros j' Hj'; lia|].
        split; [exact Hr|]. split; [exact Hnan|].
        rewrite (bind_return _ _ _ _ _ _ Hs). reflexivity.
      * (* a clean first step *)
        rewrite app_nil_r in Hs. rewrite (bind_ok _ _ _ _ _ _ Hs).
        set (l1 := set_scores (scores (set_i idx l) ++ sample_of (sf idx) idx)
                     (set_loader p (set_i idx l))) in *.
        assert (Hi : forall m, last_iter l1 m (idx + 1)%N
                               = Some (idx + N.of_nat m)%N).
        { intros [|m']; unfold last_iter.
          - simpl. f_equal. lia.
          - f_equal. rewrite Nat2N.inj_succ. lia. }
        assert (Hc0 : clean (sf idx) idx) by (split; assumption).
        assert (Hext : forall m,
                   (forall j', (idx + 1 <= j' < idx + 1 + N.of_nat m)%N ->
                               clean (sf j') j') ->
                   forall j', (idx <= j' < idx + N.of_nat (S m))%N ->
                              clean (sf j') j').
        { intros m Hcl j Hj.
          destruct (N.eq_dec j idx) as [->|Hne]; [exact Hc0|].
          apply Hcl. rewrite Nat2N.inj_succ in Hj. lia. }
        assert (Hsm : forall m, (idx + 1 + N.of_nat m = idx + N.of_nat (S m))%N)
          by (intro m; rewrite Nat2N.inj_succ; lia).
        change (py_int (batch_size (set_i idx l))) with b.
        change (py_int (batch_size l1)) with b in IH.
        destruct (IH (idx + 1)%N l1 Hpp Hfuel)
          as [(p' & Hcl & Hrun)
             | [(m & p' & Hm & Hcl & Hr' & Hnan' & Hrun)
               | (m & p' & ph & e & Hm & Hcl & Hf & Hre & Hrun)]];
          rewrite Hrun; clear Hrun.
        -- left. exists p'. split; [apply Hext, Hcl|].
           unfold prepend. f_equal. f_equal.
           unfold after_steps. rewrite Hi. unfold l1. simpl.
           rewrite <- app_assoc. reflexivity.
        -- right; left. exists (S m), p'. cbv zeta in *.
           rewrite Hsm in *.
           split; [lia|]. split.
           { intros j Hj. apply (Hext m); [|lia].
             intros j' Hj'. apply Hcl. rewrite <- Hsm. lia. }
           split; [exact Hr'|]. split; [exact Hnan'|].
           unfold prepend. f_equal. f_equal.
           ++ cbn [clean_actions app]. rewrite <- app_assoc. reflexivity.
           ++ unfold after_steps, l1. cbn [scores set_scores set_loader set_i
                batch_size vae vae_optim i loader clean_samples].
              rewrite <- !app_assoc. reflexivity.
        -- right; right. exists (S m), p', ph, e. cbv zeta in *.
           rewrite Hsm in *.
           split; [lia|]. split.
           { intros j Hj. apply (Hext m); [|lia].
             intros j' Hj'. apply Hcl. rewrite <- Hsm. lia. }
           split; [exact Hf|]. split; [exact Hre|].
           unfold prepend. f_equal. f_equal.
           ++ cbn [clean_actions app]. rewrite <- app_assoc. reflexivity.
           ++ unfold after_steps, l1. cbn [scores set_scores set_loader set_i
                batch_size vae vae_optim i loader clean_samples].
              rewrite <- !app_assoc. reflexivity.
    + (* an exception at the first step *)
      pose proof (step_raise fuel len (sf idx) idx (set_i idx l) p ph e
                    Hf Hre Hp) as Hs.
      right; right. exists 0%nat, p, ph, e. cbv zeta.
      rewrite N.add_0_r.
      split; [lia|]. split; [intros j' Hj'; lia|].
      split; [exact Hf|]. split; [exact Hre|].
      rewrite (bind_raise _ _ _ _ _ _ Hs). unfold prepend, after_steps. simpl.
      rewrite app_nil_r. reflexivity.
Qed.

End ForRangeCases.

(** *** Pieces of traces *)

Lemma attempt_sizes_app (t1 t2 : list action) :
  attempt_sizes (t1 ++ t2) = attempt_sizes t1 ++ attempt_sizes t2.
Proof.
  induction t1 as [|a t1 IH]; [reflexivity|].
  destruct a; simpl; rewrite IH; reflexivity.
Qed.

Lemma iters_app (t1 t2 : list action) :
  iters (t1 ++ t2) = iters t1 ++ iters t2.
Proof.
  induction t1 as [|a t1 IH]; [reflexivity|].
  destruct a; simpl; rewrite IH; reflexivity.
Qed.

Lemma appended_app (t1 t2 : list action) :
  appended (t1 ++ t2) = appended t1 ++ appended t2.
Proof.
  induction t1 as [|a t1 IH]; [reflexivity|].
  destruct a; simpl; rewrite IH; reflexivity.
Qed.

Lemma replay_app (fm : mode -> mode) (s : model_state) (t1 t2 : list action) :
  replay fm s (t1 ++ t2) = replay fm (replay fm s t1) t2.
Proof. unfold replay. apply fold_left_app. Qed.

Lemma safe_app (fm : mode -> mode) (t1 t2 : list action) : forall s,
  safe fm s (t1 ++ t2) <-> safe fm s t1 /\ safe fm (replay fm s t1) t2.
Proof.
  induction t1 as [|a t1 IH]; intro s; simpl.
  - tauto.
  - rewrite IH. unfold replay. simpl. tauto.
Qed.

Lemma tidy_app (n1 n2 : nat) (t1 t2 : list action) :
  tidy n1 t1 -> tidy n2 t2 -> tidy (n1 + n2) (t1 ++ t2).
Proof.
  intros (Ha1 & Hi1 & Hs1) (Ha2 & Hi2 & Hs2). repeat split.
  - rewrite attempt_sizes_app, Ha1, Ha2. reflexivity.
  - rewrite iters_app, length_app. lia.
  - rewrite safe_app. destruct (Hs1 fid_mode s H) as [H1 H1'].
    split; [exact H1|]. apply Hs2, H1'.
  - rewrite replay_app. destruct (Hs1 fid_mode s H) as [H1 H1'].
    apply (proj2 (Hs2 fid_mode _ H1')).
  - rewrite replay_app. destruct (Hs1 fid_mode s H) as [H1 H1'].
    apply (proj2 (Hs2 fid_mode _ H1')).
Qed.

Lemma tidy_le (n m : nat) (t : list action) :
  (n <= m)%nat -> tidy n t -> tidy m t.
Proof. intros Hle (Ha & Hi & Hs). repeat split; try apply Hs; auto; lia. Qed.

Lemma tidy_nil : tidy 0 [].
Proof. repeat split; simpl; auto; apply H. Qed.

Lemma tidy_step_actions (b : Z) (se : step_env) (idx : N) :
  tidy 0 (step_actions b se idx).
Proof.
  unfold step_actions, qual_actions, quant_actions.
  destruct (qual_due idx), (quant_due idx), (recorded idx);
    split; [reflexivity| |reflexivity| |reflexivity| |reflexivity|
            |reflexivity| |reflexivity| |reflexivity| |reflexivity| ];
    (split; [simpl; lia|]); intros fm [c g sv] [Hg Hsv]; simpl in *; subst;
    simpl; intuition (try discriminate; try reflexivity).
  all: split; reflexivity.
Qed.

Lemma tidy_raise_actions (idx : N) (ph : phase) : tidy 0 (raise_actions idx ph).
Proof.
  unfold raise_actions, qual_actions.
  destruct ph; [| | | |destruct (qual_due idx)];
    (split; [reflexivity|]); (split; [simpl; lia|]);
    intros fm [c g sv] [Hg Hsv]; simpl in *; subst;
    simpl; intuition (try discriminate; try reflexivity).
  all: split; reflexivity.
Qed.

Lemma tidy_quiet (t : list action) : forallb quiet t = true -> tidy 0 t.
Proof.
  induction t as [|a t IH]; intro Hq; [apply tidy_nil|].
  simpl in Hq. apply andb_prop in Hq as [Ha Ht].
  destruct (IH Ht) as (Hat & Hit & Hst).
  split; [destruct a; try discriminate Ha; exact Hat|].
  split; [destruct a; try discriminate Ha; exact Hit|].
  intros fm s Hs.
  assert (Hs' : outside (act fm s a)).
  { destruct a; try discriminate Ha; exact Hs. }
  destruct (Hst fm _ Hs') as [H1 H2].
  split; [|exact H2].
  simpl. split; [destruct a; try discriminate Ha; exact I|exact H1].
Qed.

Lemma tidy_iter (idx : N) : tidy 1 [Iter idx].
Proof.
  split; [reflexivity|]. split; [simpl; lia|].
  intros fm s Hs. simpl. split; [|exact Hs].
  split; exact I.
Qed.

(** *** The [try] body in any environment *)

Lemma for_range_S (n : nat) (idx : N) (body : N -> M unit) (l : locals) :
  for_range (S n) idx body l =
    prepend [Iter idx]
      (bind (body idx) (fun _ => for_range n (idx + 1)%N body) (set_i idx l)).
Proof.
  change (for_range (S n) idx body l)
    with (bind (modify (set_i idx))
            (fun _ => bind (emit (Iter idx))
               (fun _ => bind (body idx)
                  (fun _ => for_range n (idx + 1)%N body))) l).
  rewrite (bind_ok _ _ l (set_i idx l) [] tt eq_refl), prepend_nil.
  rewrite (bind_ok _ _ (set_i idx l) (set_i idx l) [Iter idx] tt eq_refl).
  reflexivity.
Qed.

Lemma for_range_tidy (fuel : nat) (len : N) (sf : N -> step_env) (n : nat) :
  forall (idx : N) (l l' : locals) (t : list action) (r : res unit),
  for_range n idx (fun j => step fuel len (sf j) j) l = (t, l', r) ->
  tidy n t
  /\ batch_size l' = batch_size l
  /\ ((1 <= batches_per_pass len (py_int (batch_size l)))%N ->
      (2 <= fuel)%nat -> r <> Hang).
Proof.
  induction n as [|n IH]; intros idx l l' t r Hrun.
  - simpl in Hrun. injection Hrun as <- <- <-.
    split; [apply tidy_nil|]. split; [reflexivity|]. discriminate.
  - rewrite for_range_S in Hrun.
    destruct (sample_data fuel
                (batches_per_pass len (py_int (batch_size (set_i idx l))))
                (loader (set_i idx l))) as [p|] eqn:Hp.
    + destruct (raises_cases (sf idx) idx) as [Hr | (ph & e & Hf & Hre & Hr)].
      * pose proof (step_no_raise fuel len (sf idx) idx (set_i idx l) p Hr Hp)
          as Hs.
        destruct (loss_nan (sf idx)).
        -- rewrite (bind_return _ _ _ _ _ _ Hs) in Hrun.
           injection Hrun as <- <- <-.
           split; [|split; [reflexivity|discriminate]].
           apply (tidy_le 1); [lia|].
           apply (tidy_app 1 0 [Iter idx]
                    (step_actions (py_int (batch_size l)) (sf idx) idx
                       ++ nan_actions)); [apply tidy_iter|].
           apply (tidy_app 0 0); [apply tidy_step_actions|].
           apply tidy_quiet. reflexivity.
        -- rewrite (bind_ok _ _ _ _ _ _ Hs) in Hrun.
           destruct (for_range n (idx + 1)%N _ _) as [[t1 l1] r1] eqn:Hrest.
           apply IH in Hrest as (Ht1 & Hb1 & Hh1).
           simpl in Hrun. injection Hrun as <- <- <-.
           split; [|split; [exact Hb1|exact Hh1]].
           apply (tidy_app 1 n [Iter idx]
                    ((step_actions (py_int (batch_size l)) (sf idx) idx ++ [])
                       ++ t1)); [apply tidy_iter|].
           rewrite app_nil_r.
           apply (tidy_app 0 n); [apply tidy_step_actions|exact Ht1].
      * pose proof (step_raise fuel len (sf idx) idx (set_i idx l) p ph e
                      Hf Hre Hp) as Hs.
        rewrite (bind_raise _ _ _ _ _ _ Hs) in Hrun.
        injection Hrun as <- <- <-.
        split; [|split; [reflexivity|discriminate]].
        apply (tidy_le 1); [lia|].
        apply (tidy_app 1 0 [Iter idx] (raise_actions idx ph));
          [apply tidy_iter|].
        apply tidy_raise_actions.
    + pose proof (step_hang fuel len (sf idx) idx (set_i idx l) Hp) as Hs.
      rewrite (bind_hang _ _ _ _ _ Hs) in Hrun.
      injection Hrun as <- <- <-.
      split; [|split; [reflexivity|]].
      * apply (tidy_le 1); [lia|].
        apply (tidy_app 1 0 [Iter idx] [SetTrain]); [apply tidy_iter|].
        apply tidy_quiet. reflexivity.
      * intros Hpp Hfuel _.
        destruct (sample_data_yields fuel _ (loader (set_i idx l)) Hpp Hfuel)
          as [p' Hp'].
        discriminate (eq_trans (eq_sym Hp) Hp').
Qed.

Lemma try_body_pipeline_fault (fuel : nat) (len : N) (ae : attempt_env)
    (l : locals) (e : exn) :
  setup_fault ae = Some (SPipeline, e) ->
  try_body fuel len ae l = ([Attempt (batch_size l)], l, Raise e).
Proof.
  intro Hsf. unfold try_body, setup_raise. rewrite Hsf.
  do 3 mstep. reflexivity.
Qed.

Lemma try_body_hang (fuel : nat) (len : N) (ae : attempt_env) (l : locals) :
  (forall e, setup_fault ae <> Some (SPipeline, e)) ->
  sample_data fuel (batches_per_pass len (py_int (batch_size l))) 0%N = None ->
  try_body fuel len ae l =
    ([Attempt (batch_size l); BuildLoader (py_int (batch_size l))],
     set_loader 0%N l, Hang).
Proof.
  intros Hsf Hp. unfold try_body, setup_raise.
  remember (for_range (N.to_nat num_iters) 0%N
              (fun idx => step fuel len (steps ae idx) idx)) as loop.
  assert (Hn : next_batch fuel len (set_loader 0%N l)
               = ([], set_loader 0%N l, Hang)).
  { unfold next_batch, bind, get. cbn. rewrite Hp. reflexivity. }
  destruct (setup_fault ae) as [[[] e]|]; try (exfalso; eapply Hsf; reflexivity);
    cbn [setup_point_eqb]; do 6 mstep; rewrite Hn; reflexivity.
Qed.

Lemma try_body_fault (fuel : nat) (len : N) (ae : attempt_env) (l : locals)
    (p : N) (sp : setup_point) (e : exn) :
  setup_fault ae = Some (sp, e) ->
  sp <> SPipeline ->
  sample_data fuel (batches_per_pass len (py_int (batch_size l))) 0%N
    = Some p ->
  try_body fuel len ae l =
    (setup_prefix (batch_size l) sp, setup_locals l p sp, Raise e).
Proof.
  intros Hsf Hsp Hp. unfold try_body, setup_raise. rewrite Hsf.
  remember (for_range (N.to_nat num_iters) 0%N
              (fun idx => step fuel len (steps ae idx) idx)) as loop.
  destruct sp; [congruence| | | |];
    cbn [setup_point_eqb]; do 6 mstep;
    rewrite (next_batch_ok fuel len (set_loader 0%N l) p Hp);
    repeat mstep; reflexivity.
Qed.

Lemma try_body_tidy (fuel : nat) (len : N) (ae : attempt_env)
    (l l' : locals) (t : list action) (r : res unit) :
  try_body fuel len ae l = (t, l', r) ->
  (exists t', t = Attempt (batch_size l) :: t'
              /\ tidy (N.to_nat num_iters) t')
  /\ batch_size l' = batch_size l
  /\ r <> Ok tt
  /\ ((1 <= batches_per_pass len (py_int (batch_size l)))%N ->
      (2 <= fuel)%nat -> r <> Hang).
Proof.
  intro Hrun.
  destruct (setup_fault ae) as [[sp e]|] eqn:Hsf.
  - destruct sp.
    1: { rewrite (try_body_pipeline_fault _ _ _ _ _ Hsf) in Hrun.
         injection Hrun as <- <- <-.
         split; [exists []; split; [reflexivity|]|].
         - apply (tidy_le 0); [lia|apply tidy_nil].
         - repeat split; discriminate. }
    all: destruct (sample_data fuel
                     (batches_per_pass len (py_int (batch_size l))) 0%N)
           as [p|] eqn:Hp;
      [ rewrite (try_body_fault _ _ _ _ p _ _ Hsf ltac:(discriminate) Hp) in Hrun
      | rewrite (try_body_hang _ _ _ _
                   ltac:(intros e' He'; rewrite Hsf in He'; discriminate) Hp)
          in Hrun ];
      injection Hrun as <- <- <-;
      (split; [eexists; split; [reflexivity|]|]);
      try (apply (tidy_le 0); [lia|apply tidy_quiet; reflexivity]);
      (split; [reflexivity|]); (split; [discriminate|]);
      try discriminate;
      intros Hpp Hfuel _;
      destruct (sample_data_yields fuel _ 0%N Hpp Hfuel) as [p' Hp'];
      congruence.
  - destruct (sample_data fuel
                (batches_per_pass len (py_int (batch_size l))) 0%N)
      as [p|] eqn:Hp.
    + rewrite (try_body_setup _ _ _ _ p Hsf Hp) in Hrun.
      remember (N.to_nat num_iters) as n eqn:Hn. clear Hn.
      destruct (for_range n 0%N
                  (fun idx => step fuel len (steps ae idx) idx)
                  (after_setup l p)) as [[t1 l1] r1] eqn:Hloop.
      pose proof (for_range_tidy _ _ _ _ _ _ _ _ _ Hloop) as (Ht1 & Hb1 & Hh1).
      assert (Hsetup : tidy 0 [BuildLoader (py_int (batch_size l));
                               LogRealImages; SetTrain])
        by (apply tidy_quiet; reflexivity).
      destruct r1 as [[]|o|e|].
      * rewrite (bind_ok _ _ _ _ _ _ Hloop) in Hrun.
        unfold prepend in Hrun. cbn in Hrun. injection Hrun as <- <- <-.
        split; [eexists; split; [reflexivity|]|].
        -- apply (tidy_app 0 n _ _ Hsetup).
           apply (tidy_le (n + 0)); [lia|].
           apply (tidy_app n 0 _ _ Ht1). apply tidy_quiet. reflexivity.
        -- split; [exact Hb1|]. split; discriminate.
      * rewrite (bind_return _ _ _ _ _ _ Hloop) in Hrun.
        unfold prepend in Hrun. cbn in Hrun. injection Hrun as <- <- <-.
        split; [eexists; split; [reflexivity|]|].
        -- apply (tidy_app 0 n _ _ Hsetup). exact Ht1.
        -- split; [exact Hb1|]. split; discriminate.
      * rewrite (bind_raise _ _ _ _ _ _ Hloop) in Hrun.
        unfold prepend in Hrun. cbn in Hrun. injection Hrun as <- <- <-.
        split; [eexists; split; [reflexivity|]|].
        -- apply (tidy_app 0 n _ _ Hsetup). exact Ht1.
        -- split; [exact Hb1|]. split; discriminate.
      * rewrite (bind_hang _ _ _ _ _ Hloop) in Hrun.
        unfold prepend in Hrun. cbn in Hrun. injection Hrun as <- <- <-.
        split; [eexists; split; [reflexivity|]|].
        -- apply (tidy_app 0 n _ _ Hsetup). exact Ht1.
        -- split; [exact Hb1|]. split; [discriminate|]. exact Hh1.
    + rewrite (try_body_hang _ _ _ _
                 ltac:(intros e' He'; rewrite Hsf in He'; discriminate) Hp)
        in Hrun.
      injection Hrun as <- <- <-.
      split; [eexists; split; [reflexivity|]|].
      * apply (tidy_le 0); [lia|apply tidy_quiet; reflexivity].
      * split; [reflexivity|]. split; [discriminate|].
        intros Hpp Hfuel _.
        destruct (sample_data_yields fuel _ 0%N Hpp Hfuel) as [p' Hp'].
        congruence.
Qed.

(** *** The handler *)

Lemma handler_cutoff (msg : string) (l : locals) :
  past_cutoff l = true -> handler msg l = ([], l, Return CutoffExit).
Proof.
  unfold past_cutoff, handler. intro Hc.
  mstep. destruct (i l) as [idx|]; [|discriminate]. rewrite Hc.
  mstep. reflexivity.
Qed.

Lemma handler_other (msg : string) (l : locals) :
  past_cutoff l = false -> contains oom_text msg = false ->
  handler msg l = ([Print (Shown (RuntimeError msg))], l, Return OtherExit).
Proof.
  unfold past_cutoff, handler. intros Hc Hm. rewrite Hm.
  mstep. destruct (i l) as [idx|]; [rewrite Hc|]; repeat mstep; reflexivity.
Qed.

Lemma handler_memory_exit (msg : string) (l : locals) :
  past_cutoff l = false -> contains oom_text msg = true ->
  Qlt_bool (batch_size l / 2) 1 = true ->
  handler msg l =
    ([Print DoesNotFit; LogScore penalty],
     set_batch_size (batch_size l / 2) l, Return MemoryExit).
Proof.
  unfold past_cutoff, handler. intros Hc Hm Hb. rewrite Hm.
  mstep.
  destruct (i l) as [idx|]; [rewrite Hc|]; do 4 mstep;
    cbn [batch_size set_batch_size]; rewrite Hb; repeat mstep; reflexivity.
Qed.

Lemma handler_retry (msg : string) (l : locals) :
  past_cutoff l = false -> contains oom_text msg = true ->
  Qlt_bool (batch_size l / 2) 1 = false ->
  handler msg l =
    match vae l, vae_optim l with
    | Unbound, _ =>
        ([Print (Halving (batch_size l / 2))],
         set_batch_size (batch_size l / 2) l,
         Raise (UnboundLocalError "vae"))
    | _, Unbound =>
        ([Print (Halving (batch_size l / 2))],
         set_vae (released (vae l)) (set_batch_size (batch_size l / 2) l),
         Raise (UnboundLocalError "vae_optim"))
    | _, _ =>
        ([Print (Halving (batch_size l / 2)); CollectGarbage],
         after_retry l, Ok tt)
    end.
Proof.
  unfold past_cutoff, handler. intros Hc Hm Hb. rewrite Hm.
  mstep.
  destruct (i l) as [idx|] eqn:Hi; [rewrite Hc|]; do 4 mstep;
    cbn [batch_size set_batch_size]; rewrite Hb; do 2 mstep;
    unfold release; mstep; cbn [vae vae_optim set_batch_size];
    destruct (vae l) eqn:Hv; repeat mstep;
    cbn [vae vae_optim set_batch_size set_vae];
    destruct (vae_optim l) eqn:Hvo; repeat mstep;
    unfold after_retry, set_vae, set_vae_optim, set_batch_size, released;
    cbn [batch_size i vae vae_optim scores loader];
    rewrite ?Hi, ?Hv, ?Hvo; try reflexivity.
Qed.

(** *** One pass of the [while] loop in any environment *)

Lemma attempt_general (fuel : nat) (e : env) (k : nat)
    (l l' : locals) (t : list action) (r : res unit) :
  attempt fuel e k l = (t, l', r) ->
  (exists t', t = Attempt (batch_size l) :: t'
              /\ tidy (N.to_nat num_iters) t')
  /\ ((1 <= batches_per_pass (dataset_len e) (py_int (batch_size l)))%N ->
      (2 <= fuel)%nat -> r <> Hang)
  /\ (r = Ok tt ->
      batch_size l' = batch_size l / 2
      /\ Qlt_bool (batch_size l / 2) 1 = false).
Proof.
  unfold attempt, try_except. intro Hrun.
  destruct (try_body fuel (dataset_len e) (attempts e k) l)
    as [[t1 l1] r1] eqn:Hbody.
  apply try_body_tidy in Hbody as ((t' & -> & Ht') & Hb & Hok & Hh).
  remember (N.to_nat num_iters) as n eqn:Hn. clear Hn.
  assert (Hsame : forall x : list action * locals * res unit,
             x = (t, l', r) -> x = (Attempt (batch_size l) :: t', l1, r1) ->
             (exists t'0, t = Attempt (batch_size l) :: t'0 /\ tidy n t'0)
             /\ ((1 <= batches_per_pass (dataset_len e)
                         (py_int (batch_size l)))%N ->
                 (2 <= fuel)%nat -> r <> Hang)
             /\ (r = Ok tt ->
                 batch_size l' = batch_size l / 2
                 /\ Qlt_bool (batch_size l / 2) 1 = false)).
  { intros x Hx Hx'. rewrite Hx in Hx'. injection Hx' as -> -> ->.
    split; [exists t'; auto|]. split; [exact Hh|]. intro; contradiction. }
  destruct r1 as [a|o|ex|]; try (eapply Hsame; [exact Hrun|reflexivity]).
  destruct ex as [msg| |]; try (eapply Hsame; [exact Hrun|reflexivity]).
  clear Hsame.
  assert (Hwrap : forall t2 l2 r2,
             handler msg l1 = (t2, l2, r2) -> tidy 0 t2 ->
             r2 <> Hang ->
             (r2 = Ok tt -> batch_size l2 = batch_size l / 2
                            /\ Qlt_bool (batch_size l / 2) 1 = false) ->
             (exists t'0, t = Attempt (batch_size l) :: t'0 /\ tidy n t'0)
             /\ ((1 <= batches_per_pass (dataset_len e)
                         (py_int (batch_size l)))%N ->
                 (2 <= fuel)%nat -> r <> Hang)
             /\ (r = Ok tt ->
                 batch_size l' = batch_size l / 2
                 /\ Qlt_bool (batch_size l / 2) 1 = false)).
  { intros t2 l2 r2 Hh2 Ht2 Hnh Hret. rewrite Hh2 in Hrun.
    injection Hrun as <- <- <-.
    split; [exists (t' ++ t2); split; [reflexivity|]|].
    - apply (tidy_le (n + 0)); [lia|]. apply tidy_app; assumption.
    - split; [intros _ _; exact Hnh|exact Hret]. }
  destruct (past_cutoff l1) eqn:Hc.
  { eapply Hwrap; [apply handler_cutoff, Hc|apply tidy_nil| |]; discriminate. }
  destruct (contains oom_text msg) eqn:Hm.
  2: { eapply Hwrap; [apply handler_other; assumption| | |]; try discriminate.
       apply tidy_quiet. reflexivity. }
  destruct (Qlt_bool (batch_size l1 / 2) 1) eqn:Hq.
  { eapply Hwrap; [apply handler_memory_exit; assumption| | |];
      try discriminate.
    apply tidy_quiet. reflexivity. }
  pose proof (handler_retry msg l1 Hc Hm Hq) as Hh2.
  destruct (vae l1), (vae_optim l1);
    (eapply Hwrap; [exact Hh2| | |]); try discriminate;
    try (apply tidy_quiet; reflexivity).
  all: intros _; rewrite <- Hb; split; [reflexivity|exact Hq].
Qed.

(** *** Halving the batch size *)

Lemma halved_0 : halved 0 == 512.
Proof. reflexivity. Qed.

Lemma halved_S (k : nat) : halved (S k) == halved k / 2.
Proof.
  unfold halved. rewrite Nat2Z.inj_succ, <- Z.add_1_r.
  rewrite Qpower_plus by discriminate.
  assert (H : ~ 2 ^ Z.of_nat k == 0) by (apply Qpower_not_0; discriminate).
  change (2 ^ 1) with 2. field. exact H.
Qed.

Lemma halved_pos (k : nat) : 0 < halved k.
Proof.
  induction k as [|k IH]; [reflexivity|].
  rewrite halved_S. apply Qlt_shift_div_l; [reflexivity|].
  rewrite Qmult_0_l. exact IH.
Qed.

Lemma halved_le (k : nat) : halved (S k) <= halved k.
Proof.
  rewrite halved_S. pose proof (halved_pos k) as H.
  apply Qle_shift_div_r; [reflexivity|]. lra.
Qed.

Lemma halved_small (j : nat) : halved (10 + j) <= 1 # 2.
Proof.
  induction j as [|j IH]; [discriminate|].
  rewrite Nat.add_succ_r. eapply Qle_trans; [apply halved_le|exact IH].
Qed.

Lemma halved_ge_1 (k : nat) : 1 <= halved k <-> (k <= 9)%nat.
Proof.
  split.
  - intro H. destruct (Nat.le_gt_cases k 9) as [Hk|Hk]; [exact Hk|].
    replace k with (10 + (k - 10))%nat in H by lia.
    pose proof (halved_small (k - 10)) as Hs. lra.
  - intro Hk.
    do 10 (destruct k as [|k]; [discriminate|]). lia.
Qed.

Lemma halved_le_initial (k : nat) : halved k <= 512.
Proof.
  induction k as [|k IH]; [discriminate|].
  eapply Qle_trans; [apply halved_le|exact IH].
Qed.

Lemma py_int_bounds (q : Q) :
  1 <= q -> q <= 512 -> (1 <= py_int q <= 512)%Z.
Proof.
  destruct q as [a b]. unfold Qle, py_int. simpl. intros H1 H2.
  rewrite Z.quot_div_nonneg by lia.
  split.
  - apply Z.div_le_lower_bound; lia.
  - apply Z.div_le_upper_bound; lia.
Qed.

Lemma generator_yields (len : N) (q : Q) :
  1 <= q -> q <= 512 -> (512 <= len)%N ->
  (1 <= batches_per_pass len (py_int q))%N.
Proof.
  intros H1 H2 Hlen. pose proof (py_int_bounds q H1 H2) as Hb.
  unfold batches_per_pass.
  apply N.div_le_lower_bound; lia.
Qed.

(** *** The [while] loop *)

Lemma while_S (n fuel : nat) (e : env) (k : nat) (l : locals) :
  while_loop (S n) fuel e k l =
    if Qle_bool 1 (batch_size l) then
      bind (attempt fuel e k) (fun _ => while_loop n fuel e (S k)) l
    else ([], l, Return LoopEnd).
Proof.
  cbn [while_loop]. mstep.
  destruct (Qle_bool 1 (batch_size l)).
  - destruct (bind _ _ l) as [[t l'] r]. reflexivity.
  - reflexivity.
Qed.

Lemma reach_invariant (fuel : nat) (e : env) (k : nat) :
  forall t l, reach fuel e k = Some (t, l) ->
  batch_size l == halved k /\ 1 <= batch_size l.
Proof.
  induction k as [|k IH]; intros t l Hreach.
  - injection Hreach as <- <-. split; [reflexivity|discriminate].
  - simpl in Hreach.
    destruct (reach fuel e k) as [[t0 l0]|]; [|discriminate].
    destruct (IH t0 l0 eq_refl) as [Hb0 _].
    destruct (Qle_bool 1 (batch_size l0)); [|discriminate].
    destruct (attempt fuel e k l0) as [[t1 l1] r1] eqn:Hatt.
    destruct r1 as [[]| | |]; try discriminate.
    injection Hreach as <- <-.
    apply attempt_general in Hatt as (_ & _ & Hok).
    destruct (Hok eq_refl) as [Hb1 Hq].
    rewrite Hb1. split.
    + rewrite halved_S, Hb0. reflexivity.
    + unfold Qlt_bool in Hq. apply negb_false_iff, Qle_bool_iff in Hq.
      exact Hq.
Qed.

Lemma reach_bound (fuel : nat) (e : env) (k : nat) (t : list action)
    (l : locals) :
  reach fuel e k = Some (t, l) -> (k <= 9)%nat.
Proof.
  intro H. apply reach_invariant in H as [Hb H1].
  rewrite Hb in H1. apply halved_ge_1, H1.
Qed.

Lemma reach_generator (fuel : nat) (e : env) (k : nat) (t : list action)
    (l : locals) :
  reach fuel e k = Some (t, l) -> (512 <= dataset_len e)%N ->
  (1 <= batches_per_pass (dataset_len e) (py_int (batch_size l)))%N.
Proof.
  intros H Hlen. apply reach_invariant in H as [Hb H1].
  apply generator_yields; [exact H1| |exact Hlen].
  rewrite Hb. apply halved_le_initial.
Qed.

Lemma while_reach (fuel : nat) (e : env) (k : nat) :
  forall t l n, reach fuel e k = Some (t, l) ->
  while_loop (k + n) fuel e 0 initial_locals
    = prepend t (while_loop n fuel e k l).
Proof.
  induction k as [|k IH]; intros t l n Hreach.
  - injection Hreach as <- <-. rewrite prepend_nil. reflexivity.
  - simpl in Hreach.
    destruct (reach fuel e k) as [[t0 l0]|]; [|discriminate].
    destruct (Qle_bool 1 (batch_size l0)) eqn:Hc; [|discriminate].
    destruct (attempt fuel e k l0) as [[t1 l1] r1] eqn:Hatt.
    destruct r1 as [[]| | |]; try discriminate.
    injection Hreach as <- <-.
    replace (S k + n)%nat with (k + S n)%nat by lia.
    rewrite (IH t0 l0 (S n) eq_refl), while_S, Hc.
    rewrite (bind_ok _ _ _ _ _ _ Hatt), prepend_app. reflexivity.
Qed.

(** The pass in which [train] ends. *)
Lemma train_ends (fuel : nat) (e : env) (k : nat) (t tk : list action)
    (l l' : locals) (r : res unit) :
  reach fuel e k = Some (t, l) ->
  (k < fuel)%nat ->
  attempt fuel e k l = (tk, l', r) ->
  r <> Ok tt ->
  train fuel e = (t ++ tk, ending_of r).
Proof.
  intros Hreach Hk Hatt Hr. unfold train.
  replace fuel with (k + S (fuel - S k))%nat at 1 by lia.
  rewrite (while_reach fuel e k t l _ Hreach), while_S.
  destruct (reach_invariant _ _ _ _ _ Hreach) as [_ H1].
  apply Qle_bool_iff in H1. rewrite H1.
  destruct r as [[]|o|ex|]; [contradiction| | |].
  - rewrite (bind_return _ _ _ _ _ _ Hatt). reflexivity.
  - rewrite (bind_raise _ _ _ _ _ _ Hatt). reflexivity.
  - rewrite (bind_hang _ _ _ _ _ Hatt). reflexivity.
Qed.

(** *** Three ways through the [try] body *)

Section Scenarios.
Variables (fuel : nat) (len : N) (ae : attempt_env) (l : locals).
Hypothesis Hsetup : setup_fault ae = None.
Hypothesis Hgen :
  (1 <= batches_per_pass len (py_int (batch_size l)))%N.
Hypothesis Hfuel : (2 <= fuel)%nat.

Let b := py_int (batch_size l).

(** All steps are clean: the pass returns with the weighted score. *)
Lemma try_body_success :
  (forall j, (j < num_iters)%N -> clean (steps ae j) j) ->
  exists l',
    try_body fuel len ae l =
      (setup_actions (batch_size l)
         ++ clean_actions b (steps ae) (N.to_nat num_iters) 0%N
         ++ [LogScore (weighted_scores
                         (clean_samples (steps ae) (N.to_nat num_iters) 0%N))],
       l', Return Success)
    /\ scores l' = clean_samples (steps ae) (N.to_nat num_iters) 0%N.
Proof.
  intro Hclean.
  destruct (sample_data_yields fuel _ 0%N Hgen Hfuel) as [p0 Hp0].
  rewrite (try_body_setup _ _ _ _ p0 Hsetup Hp0).
  remember (N.to_nat num_iters) as n eqn:Hn.
  destruct (for_range_clean fuel len (steps ae) n 0 0%N (after_setup l p0))
    as [p Hloop]; [|exact Hgen|exact Hfuel|].
  { intros j Hj. apply Hclean. unfold num_iters in *. lia. }
  rewrite Nat.add_0_r in Hloop.
  eexists. split.
  - match goal with |- prepend _ (bind ?m ?f ?x) = _ =>
      assert (Hm : m x = (clean_actions b (steps ae) n 0%N,
                          after_steps (after_setup l p0)
                            (last_iter (after_setup l p0) n 0%N)
                            (clean_samples (steps ae) n 0%N) p, Ok tt))
    end.
    { rewrite Hloop. cbn [for_range]. unfold prepend, ret.
      rewrite app_nil_r. reflexivity. }
    rewrite (bind_ok _ _ _ _ _ _ Hm). unfold prepend.
    do 2 mstep. cbn [scores after_steps after_setup app]. reflexivity.
  - reflexivity.
Qed.

(** Steps below [n] are clean, step [n] raises nothing and its loss is NaN. *)
Lemma try_body_nan (n : N) :
  (n < num_iters)%N ->
  (forall j, (j < n)%N -> clean (steps ae j) j) ->
  raises (steps ae n) n = None ->
  loss_nan (steps ae n) = true ->
  exists l',
    try_body fuel len ae l =
      (setup_actions (batch_size l)
         ++ clean_actions b (steps ae) (N.to_nat n) 0%N
         ++ Iter n :: step_actions b (steps ae n) n ++ nan_actions,
       l', Return NanExit)
    /\ scores l' = clean_samples (steps ae) (N.to_nat n) 0%N
                     ++ sample_of (steps ae n) n.
Proof.
  intros Hn Hclean Hr Hnan.
  destruct (sample_data_yields fuel _ 0%N Hgen Hfuel) as [p0 Hp0].
  rewrite (try_body_setup _ _ _ _ p0 Hsetup Hp0).
  assert (Hsplit : N.to_nat num_iters
                   = (N.to_nat n + S (N.to_nat num_iters - S (N.to_nat n)))%nat)
    by (unfold num_iters in *; lia).
  rewrite Hsplit. clear Hsplit.
  remember (N.to_nat num_iters - S (N.to_nat n))%nat as r eqn:Hr'. clear Hr'.
  destruct (for_range_clean fuel len (steps ae) (N.to_nat n) (S r) 0%N
              (after_setup l p0)) as [p Hloop]; [|exact Hgen|exact Hfuel|].
  { intros j Hj. apply Hclean. lia. }
  rewrite N.add_0_l, N2Nat.id, for_range_S in Hloop.
  set (l1 := after_steps (after_setup l p0)
               (last_iter (after_setup l p0) (N.to_nat n) 0%N)
               (clean_samples (steps ae) (N.to_nat n) 0%N) p) in *.
  destruct (sample_data_yields fuel _ (loader (set_i n l1)) Hgen Hfuel)
    as [p1 Hp1].
  pose proof (step_no_raise fuel len (steps ae n) n (set_i n l1) p1 Hr Hp1)
    as Hs.
  rewrite Hnan in Hs.
  rewrite (bind_return _ _ _ _ _ _ Hs) in Hloop.
  eexists. split.
  - rewrite (bind_return _ _ _ _ _ _ Hloop). unfold prepend.
    reflexivity.
  - reflexivity.
Qed.

(** Steps below [n] are clean and step [n] raises [e] at the place [ph]. *)
Lemma try_body_raise (n : N) (ph : phase) (e : exn) :
  (n < num_iters)%N ->
  (forall j, (j < n)%N -> clean (steps ae j) j) ->
  fault (steps ae n) = Some (ph, e) ->
  reached n ph = true ->
  exists l',
    try_body fuel len ae l =
      (setup_actions (batch_size l)
         ++ clean_actions b (steps ae) (N.to_nat n) 0%N
         ++ Iter n :: raise_actions n ph,
       l', Raise e)
    /\ batch_size l' = batch_size l /\ i l' = Some n
    /\ vae l' = BoundObj /\ vae_optim l' = BoundObj.
Proof.
  intros Hn Hclean Hf Hre.
  destruct (sample_data_yields fuel _ 0%N Hgen Hfuel) as [p0 Hp0].
  rewrite (try_body_setup _ _ _ _ p0 Hsetup Hp0).
  assert (Hsplit : N.to_nat num_iters
                   = (N.to_nat n + S (N.to_nat num_iters - S (N.to_nat n)))%nat)
    by (unfold num_iters in *; lia).
  rewrite Hsplit. clear Hsplit.
  remember (N.to_nat num_iters - S (N.to_nat n))%nat as r eqn:Hr'. clear Hr'.
  destruct (for_range_clean fuel len (steps ae) (N.to_nat n) (S r) 0%N
              (after_setup l p0)) as [p Hloop]; [|exact Hgen|exact Hfuel|].
  { intros j Hj. apply Hclean. lia. }
  rewrite N.add_0_l, N2Nat.id, for_range_S in Hloop.
  set (l1 := after_steps (after_setup l p0)
               (last_iter (after_setup l p0) (N.to_nat n) 0%N)
               (clean_samples (steps ae) (N.to_nat n) 0%N) p) in *.
  destruct (sample_data_yields fuel _ (loader (set_i n l1)) Hgen Hfuel)
    as [p1 Hp1].
  pose proof (step_raise fuel len (steps ae n) n (set_i n l1) p1 ph e
                Hf Hre Hp1) as Hs.
  rewrite (bind_raise _ _ _ _ _ _ Hs) in Hloop.
  eexists. split.
  - rewrite (bind_raise _ _ _ _ _ _ Hloop). unfold prepend.
    reflexivity.
  - repeat split; reflexivity.
Qed.

End Scenarios.

(** The two [return] statements of the [try] body are reached in these ways
    only. *)
Lemma try_body_return_inv (fuel : nat) (len : N) (ae : attempt_env)
    (l l' : locals) (t : list action) (o : outcome) :
  (1 <= batches_per_pass len (py_int (batch_size l)))%N ->
  (2 <= fuel)%nat ->
  try_body fuel len ae l = (t, l', Return o) ->
  setup_fault ae = None
  /\ ((o = Success
       /\ forall j, (j < num_iters)%N -> clean (steps ae j) j)
      \/ (o = NanExit
          /\ exists n, (n < num_iters)%N
               /\ (forall j, (j < n)%N -> clean (steps ae j) j)
               /\ raises (steps ae n) n = None
               /\ loss_nan (steps ae n) = true)).
Proof.
  intros Hgen Hfuel Hrun.
  destruct (sample_data_yields fuel _ 0%N Hgen Hfuel) as [p Hp].
  destruct (setup_fault ae) as [[sp e]|] eqn:Hsf.
  { exfalso. destruct sp.
    1: rewrite (try_body_pipeline_fault _ _ _ _ _ Hsf) in Hrun; discriminate.
    all: rewrite (try_body_fault _ _ _ _ p _ _ Hsf ltac:(discriminate) Hp)
           in Hrun; discriminate. }
  split; [reflexivity|].
  rewrite (try_body_setup _ _ _ _ p Hsf Hp) in Hrun.
  assert (Hid : N.of_nat (N.to_nat num_iters) = num_iters) by apply N2Nat.id.
  remember (N.to_nat num_iters) as m eqn:Hm. clear Hm.
  destruct (for_range_cases fuel len (steps ae) m 0%N (after_setup l p)
              Hgen Hfuel)
    as [(p' & Hcl & Hloop)
       | [(m' & p' & Hm' & Hcl & Hr & Hnan & Hloop)
         | (m' & p' & ph & e & Hm' & Hcl & Hf & Hre & Hloop)]].
  - rewrite (bind_ok _ _ _ _ _ _ Hloop) in Hrun.
    match type of Hrun with prepend _ (prepend _ (?f ?x)) = _ =>
      assert (Hfin : exists t1 l1, f x = (t1, l1, Return Success))
        by (do 2 mstep; eauto)
    end.
    destruct Hfin as (t1 & l1 & Hfin). rewrite Hfin in Hrun.
    unfold prepend in Hrun. injection Hrun as _ _ <-.
    left. split; [reflexivity|]. intros j Hj. apply Hcl. lia.
  - rewrite (bind_return _ _ _ _ _ _ Hloop) in Hrun.
    unfold prepend in Hrun. injection Hrun as <- <- <-.
    right. split; [reflexivity|]. cbv zeta in *.
    exists (0 + N.of_nat m')%N.
    split; [lia|]. split; [intros j Hj; apply Hcl; lia|]. auto.
  - rewrite (bind_raise _ _ _ _ _ _ Hloop) in Hrun.
    unfold prepend in Hrun. discriminate.
Qed.

(** *** The samples of a clean run *)

Lemma sample_of_sampled (se : step_env) (idx : N) :
  sample_of se idx = if sampled idx then [score se] else [].
Proof. reflexivity. Qed.

Lemma appended_step_actions (b : Z) (se : step_env) (idx : N) :
  appended (step_actions b se idx)
    = if sampled idx then [(idx, score se)] else [].
Proof.
  unfold step_actions, quant_actions, qual_actions, sampled.
  destruct (qual_due idx), (quant_due idx), (recorded idx); reflexivity.
Qed.

Lemma iters_step_actions (b : Z) (se : step_env) (idx : N) :
  iters (step_actions b se idx) = [].
Proof.
  unfold step_actions, quant_actions, qual_actions.
  destruct (qual_due idx), (quant_due idx), (recorded idx); reflexivity.
Qed.

Lemma appended_clean_actions (b : Z) (sf : N -> step_env) (m : nat) :
  forall idx,
  appended (clean_actions b sf m idx)
    = map (fun j => (j, score (sf j))) (filter sampled (range idx m)).
Proof.
  induction m as [|m IH]; intro idx; [reflexivity|].
  cbn [clean_actions range filter appended].
  rewrite appended_app, appended_step_actions, IH.
  destruct (sampled idx); reflexivity.
Qed.

Lemma clean_samples_filter (sf : N -> step_env) (m : nat) : forall idx,
  clean_samples sf m idx
    = map (fun j => score (sf j)) (filter sampled (range idx m)).
Proof.
  induction m as [|m IH]; intro idx; [reflexivity|].
  cbn [clean_samples range filter].
  rewrite sample_of_sampled, IH.
  destruct (sampled idx); reflexivity.
Qed.

Lemma iters_clean_actions (b : Z) (sf : N -> step_env) (m : nat) :
  forall idx, iters (clean_actions b sf m idx) = range idx m.
Proof.
  induction m as [|m IH]; intro idx; [reflexivity|].
  cbn [clean_actions range iters].
  rewrite iters_app, iters_step_actions, IH. reflexivity.
Qed.

Lemma sampled_steps_of_a_pass :
  filter sampled (range 0%N (N.to_nat num_iters)) = sample_steps.
Proof. vm_compute. reflexivity. Qed.

Lemma terminal_score_last (t : list action) (v : R) :
  terminal_score (t ++ [LogScore v]) = Some v.
Proof.
  unfold terminal_score. rewrite map_app. cbn [map].
  rewrite last_last. reflexivity.
Qed.

(** *** The weights of the final score *)

Section Weights.
Local Open Scope R_scope.

Lemma py_sum_from (x : list R) (acc : R) :
  fold_left Rplus x acc = acc + py_sum x.
Proof.
  unfold py_sum. revert acc.
  induction x as [|v x IH]; intro acc; simpl; [ring|].
  rewrite IH, (IH (0 + v)). ring.
Qed.

Lemma py_sum_cons (v : R) (x : list R) : py_sum (v :: x) = v + py_sum x.
Proof. unfold py_sum at 1. simpl. rewrite py_sum_from. ring. Qed.

Lemma py_sum_nonneg (x : list R) : Forall (fun v => 0 <= v) x -> 0 <= py_sum x.
Proof.
  induction 1 as [|v x Hv _ IH]; [unfold py_sum; simpl; lra|].
  rewrite py_sum_cons. lra.
Qed.

Lemma py_sum_scaled (x : list R) (s : R) :
  py_sum (map (fun v => v / s) x) = py_sum x / s.
Proof.
  induction x as [|v x IH]; [unfold py_sum; simpl; unfold Rdiv; ring|].
  cbn [map]. rewrite !py_sum_cons, IH. unfold Rdiv. ring.
Qed.

Lemma roots_nonneg (start n : nat) :
  Forall (fun v => 0 <= v) (map (fun k => sqrt (INR k)) (seq start n)).
Proof.
  apply Forall_forall. intros v Hv.
  apply in_map_iff in Hv as (k & <- & _). apply sqrt_pos.
Qed.

Lemma root_sum_pos (n : nat) : (0 < n)%nat -> 0 < root_sum n.
Proof.
  intro Hn. destruct n as [|n]; [lia|].
  unfold root_sum. cbn [seq map]. rewrite py_sum_cons.
  pose proof (py_sum_nonneg _ (roots_nonneg 2 n)) as H.
  change (INR 1) with 1. rewrite sqrt_1. lra.
Qed.

Lemma weights_length (n : nat) : List.length (weights n) = n.
Proof. unfold weights. rewrite !length_map, length_seq. reflexivity. Qed.

Lemma weights_nth (n k : nat) :
  (k < n)%nat ->
  nth_error (weights n) k = Some (sqrt (INR (S k)) / root_sum n).
Proof.
  intro Hk. unfold weights. fold (root_sum n).
  rewrite !nth_error_map.
  rewrite (nth_error_nth' _ 0%nat) by (rewrite length_seq; exact Hk).
  rewrite seq_nth by exact Hk. reflexivity.
Qed.

Lemma weights_sum (n : nat) : (0 < n)%nat -> py_sum (weights n) = 1.
Proof.
  intro Hn. unfold weights. rewrite py_sum_scaled. fold (root_sum n).
  pose proof (root_sum_pos n Hn). field. lra.
Qed.

Lemma weights_nonneg (n : nat) : Forall (fun w => 0 <= w) (weights n).
Proof.
  destruct (Nat.eq_dec n 0) as [->|Hn]; [constructor|].
  pose proof (root_sum_pos n ltac:(lia)) as Hs.
  unfold weights. fold (root_sum n).
  apply Forall_forall. intros w Hw.
  apply in_map_iff in Hw as (v & <- & Hv).
  apply in_map_iff in Hv as (k & <- & _).
  apply Rmult_le_pos; [apply sqrt_pos|].
  left. apply Rinv_0_lt_compat, Hs.
Qed.

Lemma weights_monotone (n k : nat) (a c : R) :
  nth_error (weights n) k = Some a ->
  nth_error (weights n) (S k) = Some c ->
  a <= c.
Proof.
  intros Ha Hc.
  assert (Hk : (S k < n)%nat).
  { rewrite <- (weights_length n). apply nth_error_Some. congruence. }
  rewrite weights_nth in Ha, Hc by lia.
  injection Ha as <-. injection Hc as <-.
  pose proof (root_sum_pos n ltac:(lia)) as Hs.
  apply Rmult_le_compat_r; [left; apply Rinv_0_lt_compat, Hs|].
  apply (sqrt_le_1_alt (INR (S k)) (INR (S (S k)))).
  apply (le_INR (S k) (S (S k))). lia.
Qed.

End Weights.

(** *** The whole run in any environment *)

Lemma while_safe (fuel : nat) (e : env) (n : nat) :
  forall k l t l' r, while_loop n fuel e k l = (t, l', r) ->
  forall fm s, outside s -> safe fm s t /\ outside (replay fm s t).
Proof.
  induction n as [|n IH]; intros k l t l' r Hrun fm s Hs.
  - injection Hrun as <- <- <-. split; [exact I|exact Hs].
  - rewrite while_S in Hrun.
    destruct (Qle_bool 1 (batch_size l)).
    2: { injection Hrun as <- <- <-. split; [exact I|exact Hs]. }
    destruct (attempt fuel e k l) as [[t1 l1] r1] eqn:Hatt.
    pose proof (attempt_general _ _ _ _ _ _ _ Hatt)
      as ((t1' & -> & (_ & _ & Hsafe)) & _ & _).
    destruct (Hsafe fm s Hs) as [H1 H2].
    assert (Hfirst : safe fm s (Attempt (batch_size l) :: t1')
                     /\ outside (replay fm s (Attempt (batch_size l) :: t1'))).
    { split; [split; [exact I|exact H1]|exact H2]. }
    destruct r1 as [[]|o|ex|].
    + rewrite (bind_ok _ _ _ _ _ _ Hatt) in Hrun.
      destruct (while_loop n fuel e (S k) l1) as [[t2 l2] r2] eqn:Hrest.
      injection Hrun as <- <- <-.
      destruct (IH _ _ _ _ _ Hrest fm _ (proj2 Hfirst)) as [H3 H4].
      split.
      * apply (proj2 (safe_app fm (Attempt (batch_size l) :: t1') t2 s)).
        split; [exact (proj1 Hfirst)|exact H3].
      * change (outside (replay fm s ((Attempt (batch_size l) :: t1') ++ t2))).
        rewrite replay_app. exact H4.
    + rewrite (bind_return _ _ _ _ _ _ Hatt) in Hrun.
      injection Hrun as <- <- <-. exact Hfirst.
    + rewrite (bind_raise _ _ _ _ _ _ Hatt) in Hrun.
      injection Hrun as <- <- <-. exact Hfirst.
    + rewrite (bind_hang _ _ _ _ _ Hatt) in Hrun.
      injection Hrun as <- <- <-. exact Hfirst.
Qed.

Lemma iters_until_attempt_app (t1 t2 : list action) :
  attempt_sizes t1 = [] ->
  iters_until_attempt (t1 ++ t2) = iters t1 ++ iters_until_attempt t2.
Proof.
  induction t1 as [|a t1 IH]; intro H; [reflexivity|].
  destruct a; simpl in *; try discriminate; rewrite (IH H); reflexivity.
Qed.

Lemma steps_per_attempt_app (t1 t2 : list action) :
  attempt_sizes t1 = [] ->
  steps_per_attempt (t1 ++ t2) = steps_per_attempt t2.
Proof.
  induction t1 as [|a t1 IH]; intro H; [reflexivity|].
  destruct a; simpl in *; try discriminate; exact (IH H).
Qed.

Lemma while_bounded (fuel : nat) (e : env) (n : nat) :
  (512 <= dataset_len e)%N -> (2 <= fuel)%nat ->
  forall k l t l' r,
  batch_size l == halved k -> 1 <= batch_size l -> (10 <= k + n)%nat ->
  while_loop n fuel e k l = (t, l', r) ->
  r <> Hang
  /\ (List.length (attempt_sizes t) + k <= 10)%nat
  /\ List.length (steps_per_attempt t) = List.length (attempt_sizes t)
  /\ Forall (fun c => (c <= N.to_nat num_iters)%nat) (steps_per_attempt t)
  /\ starts_pass t.
Proof.
  intros Hlen Hfuel.
  induction n as [|n IH]; intros k l t l' r Hb H1 Hkn Hrun.
  - exfalso. assert (Hk : (k <= 9)%nat) by (apply halved_ge_1; rewrite <- Hb; exact H1).
    lia.
  - assert (Hk : (k <= 9)%nat) by (apply halved_ge_1; rewrite <- Hb; exact H1).
    rewrite while_S in Hrun.
    assert (Hc : Qle_bool 1 (batch_size l) = true) by (apply Qle_bool_iff, H1).
    rewrite Hc in Hrun.
    assert (Hgen : (1 <= batches_per_pass (dataset_len e)
                          (py_int (batch_size l)))%N).
    { apply generator_yields; [exact H1| |exact Hlen].
      rewrite Hb. apply halved_le_initial. }
    destruct (attempt fuel e k l) as [[t1 l1] r1] eqn:Hatt.
    pose proof (attempt_general _ _ _ _ _ _ _ Hatt)
      as ((t1' & -> & (Hsz & Hit & _)) & Hnh & Hok).
    specialize (Hnh Hgen Hfuel).
    remember (N.to_nat num_iters) as m eqn:Hm. clear Hm.
    assert (Hone : r1 <> Hang
              /\ (List.length (attempt_sizes (Attempt (batch_size l) :: t1'))
                  + k <= 10)%nat
              /\ List.length (steps_per_attempt (Attempt (batch_size l) :: t1'))
                 = List.length (attempt_sizes (Attempt (batch_size l) :: t1'))
              /\ Forall (fun c => (c <= m)%nat)
                   (steps_per_attempt (Attempt (batch_size l) :: t1'))
              /\ starts_pass (Attempt (batch_size l) :: t1')).
    { split; [exact Hnh|]. cbn [attempt_sizes steps_per_attempt].
      rewrite <- (app_nil_r t1').
      rewrite iters_until_attempt_app, steps_per_attempt_app by exact Hsz.
      rewrite app_nil_r, Hsz. cbn [iters_until_attempt steps_per_attempt].
      rewrite app_nil_r. split; [simpl; lia|]. split; [reflexivity|].
      split; [repeat constructor; exact Hit|].
      right. eauto. }
    destruct r1 as [[]|o|ex|].
    + rewrite (bind_ok _ _ _ _ _ _ Hatt) in Hrun.
      destruct (while_loop n fuel e (S k) l1) as [[t2 l2] r2] eqn:Hrest.
      injection Hrun as <- <- <-.
      destruct (Hok eq_refl) as [Hb1 Hq].
      unfold Qlt_bool in Hq. apply negb_false_iff, Qle_bool_iff in Hq.
      destruct (IH (S k) l1 t2 l2 r2) as (Hr2 & Hn2 & Hl2 & Hf2 & Hs2);
        [rewrite Hb1, halved_S, Hb; reflexivity
        |rewrite Hb1; exact Hq|lia|exact Hrest|].
      split; [exact Hr2|].
      assert (Hu : iters_until_attempt t2 = []).
      { destruct Hs2 as [->|(b2 & t2' & ->)]; reflexivity. }
      change ((Attempt (batch_size l) :: t1') ++ t2)
        with (Attempt (batch_size l) :: (t1' ++ t2)).
      cbn [attempt_sizes steps_per_attempt].
      rewrite attempt_sizes_app, Hsz.
      rewrite iters_until_attempt_app, steps_per_attempt_app by exact Hsz.
      rewrite Hu, app_nil_r. cbn [app List.length].
      split; [lia|]. split; [lia|].
      split; [constructor; [exact Hit|exact Hf2]|].
      right. eauto.
    + rewrite (bind_return _ _ _ _ _ _ Hatt) in Hrun.
      injection Hrun as <- <- <-.
      destruct Hone as (_ & Hn1 & Hl1 & Hf1 & Hs1).
      split; [discriminate|]. auto.
    + rewrite (bind_raise _ _ _ _ _ _ Hatt) in Hrun.
      injection Hrun as <- <- <-.
      destruct Hone as (_ & Hn1 & Hl1 & Hf1 & Hs1).
      split; [discriminate|]. auto.
    + contradiction.
Qed.

(** *** The properties of [train] *)

Lemma attempt_return (fuel : nat) (e : env) (k : nat) (l l' : locals)
    (t : list action) (o : outcome) :
  try_body fuel (dataset_len e) (attempts e k) l = (t, l', Return o) ->
  attempt fuel e k l = (t, l', Return o).
Proof. intro H. unfold attempt, try_except. rewrite H. reflexivity. Qed.

Lemma attempt_handled (fuel : nat) (e : env) (k : nat) (l l' : locals)
    (t : list action) (msg : string) :
  try_body fuel (dataset_len e) (attempts e k) l
    = (t, l', Raise (RuntimeError msg)) ->
  attempt fuel e k l = prepend t (handler msg l').
Proof. intro H. unfold attempt, try_except. rewrite H. reflexivity. Qed.

(** A pass without exception and without NaN loss, as part of [train]. *)
Lemma clean_pass (fuel : nat) (e : env) (k : nat) (pre : list action)
    (l : locals) :
  reach fuel e k = Some (pre, l) ->
  (10 <= fuel)%nat ->
  (512 <= dataset_len e)%N ->
  setup_fault (attempts e k) = None ->
  (forall j, (j < num_iters)%N -> clean (steps (attempts e k) j) j) ->
  let sf := steps (attempts e k) in
  let t := setup_actions (batch_size l)
           ++ clean_actions (py_int (batch_size l)) sf (N.to_nat num_iters) 0%N
           ++ [LogScore (weighted_scores
                           (map (fun j => score (sf j)) sample_steps))] in
  train fuel e = (pre ++ t, Finished Success)
  /\ iters t = range 0%N (N.to_nat num_iters)
  /\ appended t = map (fun j => (j, score (sf j))) sample_steps.
Proof.
  intros Hreach Hfuel Hlen Hsetup Hclean sf t.
  pose proof (reach_bound _ _ _ _ _ Hreach) as Hk.
  pose proof (reach_generator _ _ _ _ _ Hreach Hlen) as Hgen.
  destruct (try_body_success fuel (dataset_len e) (attempts e k) l
              Hsetup Hgen ltac:(lia) Hclean) as (l' & Hbody & _).
  rewrite clean_samples_filter, sampled_steps_of_a_pass in Hbody.
  apply attempt_return with (k := k) in Hbody.
  split; [|split].
  - apply (train_ends fuel e k pre _ l l' _ Hreach ltac:(lia) Hbody).
    discriminate.
  - unfold t, setup_actions. rewrite !iters_app, iters_clean_actions.
    cbn [iters app]. rewrite app_nil_r. reflexivity.
  - unfold t, setup_actions. rewrite !appended_app, appended_clean_actions.
    rewrite sampled_steps_of_a_pass. cbn [appended app].
    rewrite app_nil_r. reflexivity.
Qed.

(** C9: in a pass that completes all 20000 steps without an exception and
    without a NaN loss, exactly six score samples are collected, at the steps
    10000, 12000, 14000, 16000, 18000 and 19999, in that order. *)
Theorem six_score_samples (fuel : nat) (e : env) (k : nat)
    (pre : list action) (l : locals) :
  reach fuel e k = Some (pre, l) ->
  (10 <= fuel)%nat ->
  (512 <= dataset_len e)%N ->
  setup_fault (attempts e k) = None ->
  (forall j, (j < num_iters)%N -> clean (steps (attempts e k) j) j) ->
  exists t,
    train fuel e = (pre ++ t, Finished Success)
    /\ iters t = range 0%N (N.to_nat num_iters)
    /\ appended t =
         map (fun j => (j, score (steps (attempts e k) j)))
           [10000; 12000; 14000; 16000; 18000; 19999]%N
    /\ List.length (appended t) = 6%nat
    /\ (forall j, In j (iters t) ->
          (In j (map fst (appended t)) <->
           quant_due j = true /\ (num_iters / 2 <= j)%N)).
Proof.
  intros Hreach Hfuel Hlen Hsetup Hclean.
  destruct (clean_pass fuel e k pre l Hreach Hfuel Hlen Hsetup Hclean)
    as (Htrain & Hit & Happ).
  eexists. split; [exact Htrain|]. split; [exact Hit|].
  split; [exact Happ|]. split; [rewrite Happ; reflexivity|].
  intros j Hj. rewrite Happ, map_map. cbn [fst]. rewrite map_id.
  change [10000; 12000; 14000; 16000; 18000; 19999]%N with sample_steps.
  rewrite <- sampled_steps_of_a_pass, filter_In, <- Hit.
  unfold sampled, recorded. rewrite andb_true_iff, N.leb_le. tauto.
Qed.

Lemma six_score_samples_witness :
  reach 10 plain_env 0 = Some ([], initial_locals)
  /\ (10 <= 10)%nat
  /\ (512 <= dataset_len plain_env)%N
  /\ setup_fault (attempts plain_env 0) = None
  /\ (forall j, (j < num_iters)%N -> clean (steps (attempts plain_env 0) j) j)
  /\ exists t,
       train 10 plain_env = ([] ++ t, Finished Success)
       /\ iters t = range 0%N (N.to_nat num_iters)
       /\ appended t =
            map (fun j => (j, score (steps (attempts plain_env 0) j)))
              [10000; 12000; 14000; 16000; 18000; 19999]%N
       /\ List.length (appended t) = 6%nat
       /\ (forall j, In j (iters t) ->
             (In j (map fst (appended t)) <->
              quant_due j = true /\ (num_iters / 2 <= j)%N)).
Proof.
  assert (H1 : reach 10 plain_env 0 = Some ([], initial_locals))
    by reflexivity.
  assert (H2 : (10 <= 10)%nat) by lia.
  assert (H3 : (512 <= dataset_len plain_env)%N) by (simpl; lia).
  assert (H4 : setup_fault (attempts plain_env 0) = None) by reflexivity.
  assert (H5 : forall j, (j < num_iters)%N ->
                         clean (steps (attempts plain_env 0) j) j)
    by (intros j _; split; reflexivity).
  repeat (split; [assumption|]).
  exact (six_score_samples 10 plain_env 0 [] initial_locals H1 H2 H3 H4 H5).
Defined.

(** C4: when all [num_iters] steps complete, the score that [train] reports
    is [sum(w_k * score_k)] with [w_k = sqrt(k)] for [k = 1..len(scores)]
    normalised to sum 1; the weights are non-negative, non-decreasing in [k]
    and sum to 1; the [score_k] are exactly the samples recorded at the steps
    [i >= num_iters/2], in recording order. *)
Theorem final_score_convex_combination (fuel : nat) (e : env) (k : nat)
    (pre : list action) (l : locals) :
  reach fuel e k = Some (pre, l) ->
  (10 <= fuel)%nat ->
  (512 <= dataset_len e)%N ->
  setup_fault (attempts e k) = None ->
  (forall j, (j < num_iters)%N -> clean (steps (attempts e k) j) j) ->
  exists t samples,
    train fuel e = (pre ++ t, Finished Success)
    /\ map snd (appended t) = samples
    /\ (forall j, In j (iters t) ->
          (In j (map fst (appended t)) <->
           quant_due j = true /\ (num_iters / 2 <= j)%N))
    /\ terminal_score (pre ++ t) = Some (weighted_scores samples)
    /\ let n := List.length samples in
       let ws := weights n in
       weighted_scores samples
         = py_sum (map (fun wv => (fst wv * snd wv)%R) (combine ws samples))
       /\ (forall j, (j < n)%nat ->
             nth_error ws j = Some (sqrt (INR (S j)) / root_sum n)%R)
       /\ py_sum ws = 1%R
       /\ Forall (fun w => (0 <= w)%R) ws
       /\ (forall j a c, nth_error ws j = Some a ->
             nth_error ws (S j) = Some c -> (a <= c)%R).
Proof.
  intros Hreach Hfuel Hlen Hsetup Hclean.
  destruct (clean_pass fuel e k pre l Hreach Hfuel Hlen Hsetup Hclean)
    as (Htrain & Hit & Happ).
  set (sf := steps (attempts e k)) in *.
  eexists. exists (map (fun j => score (sf j)) sample_steps).
  split; [exact Htrain|].
  split; [rewrite Happ, map_map; reflexivity|].
  split.
  { intros j Hj. rewrite Happ, map_map. cbn [fst]. rewrite map_id.
    rewrite <- sampled_steps_of_a_pass, filter_In, <- Hit.
    unfold sampled, recorded. rewrite andb_true_iff, N.leb_le. tauto. }
  split.
  { rewrite !app_assoc. apply terminal_score_last. }
  cbv zeta. split; [reflexivity|].
  split; [intros j Hj; apply weights_nth, Hj|].
  split; [apply weights_sum; simpl; lia|].
  split; [apply weights_nonneg|].
  intros j a c. apply weights_monotone.
Qed.

Lemma final_score_convex_combination_witness :
  reach 10 plain_env 0 = Some ([], initial_locals)
  /\ (10 <= 10)%nat
  /\ (512 <= dataset_len plain_env)%N
  /\ setup_fault (attempts plain_env 0) = None
  /\ (forall j, (j < num_iters)%N -> clean (steps (attempts plain_env 0) j) j)
  /\ exists t samples,
       train 10 plain_env = ([] ++ t, Finished Success)
       /\ map snd (appended t) = samples
       /\ (forall j, In j (iters t) ->
             (In j (map fst (appended t)) <->
              quant_due j = true /\ (num_iters / 2 <= j)%N))
       /\ terminal_score ([] ++ t) = Some (weighted_scores samples)
       /\ let n := List.length samples in
          let ws := weights n in
          weighted_scores samples
            = py_sum (map (fun wv => (fst wv * snd wv)%R) (combine ws samples))
          /\ (forall j, (j < n)%nat ->
                nth_error ws j = Some (sqrt (INR (S j)) / root_sum n)%R)
          /\ py_sum ws = 1%R
          /\ Forall (fun w => (0 <= w)%R) ws
          /\ (forall j a c, nth_error ws j = Some a ->
                nth_error ws (S j) = Some c -> (a <= c)%R).
Proof.
  assert (H1 : reach 10 plain_env 0 = Some ([], initial_locals))
    by reflexivity.
  assert (H2 : (10 <= 10)%nat) by lia.
  assert (H3 : (512 <= dataset_len plain_env)%N) by (simpl; lia).
  assert (H4 : setup_fault (attempts plain_env 0) = None) by reflexivity.
  assert (H5 : forall j, (j < num_iters)%N ->
                         clean (steps (attempts plain_env 0) j) j)
    by (intros j _; split; reflexivity).
  repeat (split; [assumption|]).
  exact (final_score_convex_combination 10 plain_env 0 [] initial_locals
           H1 H2 H3 H4 H5).
Defined.

Lemma attempt_sizes_step_actions (b : Z) (se : step_env) (idx : N) :
  attempt_sizes (step_actions b se idx) = [].
Proof. apply tidy_step_actions. Qed.

Lemma attempt_sizes_clean_actions (b : Z) (sf : N -> step_env) (m : nat) :
  forall idx, attempt_sizes (clean_actions b sf m idx) = [].
Proof.
  induction m as [|m IH]; intro idx; [reflexivity|].
  cbn [clean_actions attempt_sizes].
  rewrite attempt_sizes_app, attempt_sizes_step_actions, IH. reflexivity.
Qed.

Lemma terminal_score_nan (t : list action) :
  terminal_score (t ++ nan_actions) = Some penalty.
Proof.
  unfold nan_actions.
  change [Print NanLosses; LogScore penalty]
    with ([Print NanLosses] ++ [LogScore penalty]).
  rewrite app_assoc. apply terminal_score_last.
Qed.

(** A pass that ends in the NaN exit at step [n], as part of [train]. *)
Lemma nan_pass (fuel : nat) (e : env) (k : nat) (pre : list action)
    (l : locals) (n : N) :
  reach fuel e k = Some (pre, l) ->
  (10 <= fuel)%nat ->
  (512 <= dataset_len e)%N ->
  setup_fault (attempts e k) = None ->
  (n < num_iters)%N ->
  (forall j, (j < n)%N -> clean (steps (attempts e k) j) j) ->
  raises (steps (attempts e k) n) n = None ->
  loss_nan (steps (attempts e k) n) = true ->
  let sf := steps (attempts e k) in
  let b := py_int (batch_size l) in
  train fuel e =
    (pre ++ setup_actions (batch_size l)
         ++ clean_actions b sf (N.to_nat n) 0%N
         ++ Iter n :: step_actions b (sf n) n ++ nan_actions,
     Finished NanExit).
Proof.
  intros Hreach Hfuel Hlen Hsetup Hn Hclean Hr Hnan sf b.
  pose proof (reach_bound _ _ _ _ _ Hreach) as Hk.
  pose proof (reach_generator _ _ _ _ _ Hreach Hlen) as Hgen.
  destruct (try_body_nan fuel (dataset_len e) (attempts e k) l
              Hsetup Hgen ltac:(lia) n Hn Hclean Hr Hnan) as (l' & Hbody & _).
  apply attempt_return with (k := k) in Hbody.
  apply (train_ends fuel e k pre _ l l' _ Hreach ltac:(lia) Hbody).
  discriminate.
Qed.

(** C10: the NaN check is the last action of a step.  On the step whose loss
    is NaN, the optimizer update, the telemetry log and the probes due at
    that step, with the append of the score sample when [i >= num_iters/2],
    all happen before the run leaves with the penalty score. *)
Theorem nan_check_is_last (fuel : nat) (e : env) (k : nat)
    (pre : list action) (l : locals) (n : N) :
  reach fuel e k = Some (pre, l) ->
  (10 <= fuel)%nat ->
  (512 <= dataset_len e)%N ->
  setup_fault (attempts e k) = None ->
  (n < num_iters)%N ->
  (forall j, (j < n)%N -> clean (steps (attempts e k) j) j) ->
  raises (steps (attempts e k) n) n = None ->
  loss_nan (steps (attempts e k) n) = true ->
  let sf := steps (attempts e k) in
  let b := py_int (batch_size l) in
  let v := score (sf n) in
  train fuel e =
    (pre ++ setup_actions (batch_size l)
       ++ clean_actions b sf (N.to_nat n) 0%N
       ++ [Iter n; SetTrain; Forward n; Update n; LogLoss n]
       ++ (if qual_due n
           then [NoGradEnter; SetEval; Reconstruct n; Generate n; NoGradExit]
           else [])
       ++ (if quant_due n
           then [NoGradEnter; Fid n b; LogFid n; LogScore v; NoGradExit]
                ++ (if (num_iters / 2 <=? n)%N then [Append n v] else [])
           else [])
       ++ [Print NanLosses; LogScore penalty],
     Finished NanExit).
Proof.
  intros Hreach Hfuel Hlen Hsetup Hn Hclean Hr Hnan sf b v.
  rewrite (nan_pass fuel e k pre l n Hreach Hfuel Hlen Hsetup Hn Hclean
             Hr Hnan).
  unfold step_actions, quant_actions, qual_actions, nan_actions, recorded.
  fold sf. fold b. fold v.
  f_equal. f_equal. f_equal. f_equal.
  cbn [app]. rewrite <- !app_assoc. reflexivity.
Qed.

Lemma nan_check_is_last_witness :
  reach 10 nan_at_12000 0 = Some ([], initial_locals)
  /\ (10 <= 10)%nat
  /\ (512 <= dataset_len nan_at_12000)%N
  /\ setup_fault (attempts nan_at_12000 0) = None
  /\ (12000 < num_iters)%N
  /\ (forall j, (j < 12000)%N -> clean (steps (attempts nan_at_12000 0) j) j)
  /\ raises (steps (attempts nan_at_12000 0) 12000%N) 12000%N = None
  /\ loss_nan (steps (attempts nan_at_12000 0) 12000%N) = true
  /\ let sf := steps (attempts nan_at_12000 0) in
     let b := py_int (batch_size initial_locals) in
     let v := score (sf 12000%N) in
     train 10 nan_at_12000 =
       ([] ++ setup_actions (batch_size initial_locals)
          ++ clean_actions b sf (N.to_nat 12000) 0%N
          ++ [Iter 12000; SetTrain; Forward 12000; Update 12000; LogLoss 12000]
          ++ (if qual_due 12000
              then [NoGradEnter; SetEval; Reconstruct 12000; Generate 12000;
                    NoGradExit]
              else [])
          ++ (if quant_due 12000
              then [NoGradEnter; Fid 12000 b; LogFid 12000; LogScore v;
                    NoGradExit]
                   ++ (if (num_iters / 2 <=? 12000)%N
                       then [Append 12000 v] else [])
              else [])
          ++ [Print NanLosses; LogScore penalty],
        Finished NanExit).
Proof.
  assert (H1 : reach 10 nan_at_12000 0 = Some ([], initial_locals))
    by reflexivity.
  assert (H2 : (10 <= 10)%nat) by lia.
  assert (H3 : (512 <= dataset_len nan_at_12000)%N) by (simpl; lia).
  assert (H4 : setup_fault (attempts nan_at_12000 0) = None) by reflexivity.
  assert (H5 : (12000 < num_iters)%N) by reflexivity.
  assert (H6 : forall j, (j < 12000)%N ->
                         clean (steps (attempts nan_at_12000 0) j) j).
  { intros j Hj. simpl. destruct (N.eqb_spec j 12000); [lia|].
    split; reflexivity. }
  assert (H7 : raises (steps (attempts nan_at_12000 0) 12000%N) 12000%N = None)
    by reflexivity.
  assert (H8 : loss_nan (steps (attempts nan_at_12000 0) 12000%N) = true)
    by reflexivity.
  repeat (split; [assumption|]).
  exact (nan_check_is_last 10 nan_at_12000 0 [] initial_locals 12000%N
           H1 H2 H3 H4 H5 H6 H7 H8).
Defined.

(** C3, amended: if the loss of a step is NaN and nothing raises in the rest
    of that step, the run reports exactly the penalty score 27000 as its
    terminal score, and no step and no pass of the [while] loop begins after
    that step. *)
Theorem nan_loss_ends_run (fuel : nat) (e : env) (k : nat)
    (pre : list action) (l : locals) (n : N) :
  reach fuel e k = Some (pre, l) ->
  (10 <= fuel)%nat ->
  (512 <= dataset_len e)%N ->
  setup_fault (attempts e k) = None ->
  (n < num_iters)%N ->
  (forall j, (j < n)%N -> clean (steps (attempts e k) j) j) ->
  raises (steps (attempts e k) n) n = None ->
  loss_nan (steps (attempts e k) n) = true ->
  exists t,
    train fuel e = (pre ++ t, Finished NanExit)
    /\ terminal_score (pre ++ t) = Some penalty
    /\ iters t = range 0%N (N.to_nat n) ++ [n]
    /\ attempt_sizes t = [batch_size l].
Proof.
  intros Hreach Hfuel Hlen Hsetup Hn Hclean Hr Hnan.
  eexists. split.
  - exact (nan_pass fuel e k pre l n Hreach Hfuel Hlen Hsetup Hn Hclean
             Hr Hnan).
  - split; [|split].
    + rewrite app_comm_cons, !app_assoc. apply terminal_score_nan.
    + unfold setup_actions.
      rewrite !iters_app, iters_clean_actions. cbn [iters app].
      rewrite iters_app, iters_step_actions. reflexivity.
    + unfold setup_actions.
      rewrite !attempt_sizes_app, attempt_sizes_clean_actions.
      cbn [attempt_sizes app].
      rewrite attempt_sizes_app, attempt_sizes_step_actions. reflexivity.
Qed.

Lemma nan_loss_ends_run_witness :
  reach 10 nan_at_12000 0 = Some ([], initial_locals)
  /\ (10 <= 10)%nat
  /\ (512 <= dataset_len nan_at_12000)%N
  /\ setup_fault (attempts nan_at_12000 0) = None
  /\ (12000 < num_iters)%N
  /\ (forall j, (j < 12000)%N -> clean (steps (attempts nan_at_12000 0) j) j)
  /\ raises (steps (attempts nan_at_12000 0) 12000%N) 12000%N = None
  /\ loss_nan (steps (attempts nan_at_12000 0) 12000%N) = true
  /\ exists t,
       train 10 nan_at_12000 = ([] ++ t, Finished NanExit)
       /\ terminal_score ([] ++ t) = Some penalty
       /\ iters t = range 0%N (N.to_nat 12000) ++ [12000%N]
       /\ attempt_sizes t = [batch_size initial_locals].
Proof.
  assert (H1 : reach 10 nan_at_12000 0 = Some ([], initial_locals))
    by reflexivity.
  assert (H2 : (10 <= 10)%nat) by lia.
  assert (H3 : (512 <= dataset_len nan_at_12000)%N) by (simpl; lia).
  assert (H4 : setup_fault (attempts nan_at_12000 0) = None) by reflexivity.
  assert (H5 : (12000 < num_iters)%N) by reflexivity.
  assert (H6 : forall j, (j < 12000)%N ->
                         clean (steps (attempts nan_at_12000 0) j) j).
  { intros j Hj. simpl. destruct (N.eqb_spec j 12000); [lia|].
    split; reflexivity. }
  assert (H7 : raises (steps (attempts nan_at_12000 0) 12000%N) 12000%N = None)
    by reflexivity.
  assert (H8 : loss_nan (steps (attempts nan_at_12000 0) 12000%N) = true)
    by reflexivity.
  repeat (split; [assumption|]).
  exact (nan_loss_ends_run 10 nan_at_12000 0 [] initial_locals 12000%N
           H1 H2 H3 H4 H5 H6 H7 H8).
Defined.

(** C3 as stated fails: the loss of step 0 is NaN, [vae_fid] raises a CUDA
    out-of-memory error in the same step, before the NaN check; the handler
    halves the batch size and a second pass trains again.  No penalty is
    reported. *)
Lemma nan_step_can_be_retried :
  loss_nan (steps (attempts nan_then_oom 0) 0%N) = true
  /\ snd (train 10 nan_then_oom) = Finished OtherExit
  /\ terminal_score (fst (train 10 nan_then_oom)) = None
  /\ logged_scores (fst (train 10 nan_then_oom)) = [score plain_step]
  /\ iters (fst (train 10 nan_then_oom)) = [0; 0; 1]%N
  /\ attempt_sizes (fst (train 10 nan_then_oom)) = [512; 512 / 2].
Proof. vm_compute. repeat split; reflexivity. Qed.

Lemma terminal_score_raise (t : list action) (n : N) (ph : phase) :
  terminal_score (t ++ Iter n :: raise_actions n ph) = None.
Proof.
  assert (H : exists t0 a, Iter n :: raise_actions n ph = t0 ++ [a]
                           /\ forall v, a <> LogScore v).
  { unfold raise_actions, qual_actions. destruct ph.
    - exists [Iter n], SetTrain. split; [reflexivity|discriminate].
    - exists [Iter n; SetTrain], (Forward n).
      split; [reflexivity|discriminate].
    - exists [Iter n; SetTrain; Forward n], (Update n).
      split; [reflexivity|discriminate].
    - eexists _, NoGradExit. split; [|discriminate].
      change (Iter n :: ?a :: ?b :: ?c :: ?d :: ?f :: ?g :: [NoGradExit])
        with ([Iter n; a; b; c; d; f; g] ++ [NoGradExit]).
      reflexivity.
    - eexists _, NoGradExit. split; [|discriminate].
      rewrite !app_comm_cons.
      change [NoGradEnter; NoGradExit] with ([NoGradEnter] ++ [NoGradExit]).
      rewrite !app_assoc. reflexivity. }
  destruct H as (t0 & a & -> & Ha).
  unfold terminal_score. rewrite app_assoc, map_app. cbn [map].
  rewrite last_last. destruct a; try reflexivity. destruct (Ha v eq_refl).
Qed.

(** A pass in which a [RuntimeError] is raised at a step above the cutoff,
    as part of [train]. *)
Lemma cutoff_pass (fuel : nat) (e : env) (k : nat) (pre : list action)
    (l : locals) (n : N) (ph : phase) (msg : string) :
  reach fuel e k = Some (pre, l) ->
  (10 <= fuel)%nat ->
  (512 <= dataset_len e)%N ->
  setup_fault (attempts e k) = None ->
  (n < num_iters)%N ->
  (retry_cutoff < n)%N ->
  (forall j, (j < n)%N -> clean (steps (attempts e k) j) j) ->
  fault (steps (attempts e k) n) = Some (ph, RuntimeError msg) ->
  reached n ph = true ->
  let t := setup_actions (batch_size l)
           ++ clean_actions (py_int (batch_size l)) (steps (attempts e k))
                (N.to_nat n) 0%N
           ++ Iter n :: raise_actions n ph in
  train fuel e = (pre ++ t, Finished CutoffExit)
  /\ terminal_score (pre ++ t) = None
  /\ attempt_sizes t = [batch_size l].
Proof.
  intros Hreach Hfuel Hlen Hsetup Hn Hcut Hclean Hf Hre t.
  pose proof (reach_bound _ _ _ _ _ Hreach) as Hk.
  pose proof (reach_generator _ _ _ _ _ Hreach Hlen) as Hgen.
  destruct (try_body_raise fuel (dataset_len e) (attempts e k) l
              Hsetup Hgen ltac:(lia) n ph _ Hn Hclean Hf Hre)
    as (l' & Hbody & Hb & Hi & _).
  apply attempt_handled with (k := k) in Hbody.
  rewrite handler_cutoff in Hbody
    by (unfold past_cutoff; rewrite Hi; apply N.ltb_lt, Hcut).
  unfold prepend in Hbody. rewrite app_nil_r in Hbody.
  split; [|split].
  - apply (train_ends fuel e k pre _ l l' _ Hreach ltac:(lia) Hbody).
    discriminate.
  - unfold t. rewrite !app_assoc. apply terminal_score_raise.
  - unfold t, setup_actions.
    rewrite !attempt_sizes_app, attempt_sizes_clean_actions.
    cbn [attempt_sizes app].
    pose proof (tidy_raise_actions n ph) as (Hsz & _). rewrite Hsz.
    reflexivity.
Qed.

(** C1, amended: if a [RuntimeError], a CUDA out-of-memory error included,
    is raised at a step whose index exceeds the 10000-step cutoff, [train]
    performs no retry and returns at once without reporting a score: the
    trace ends with the actions of the step up to the exception, and its
    last record is not a score. *)
Theorem cutoff_exit_reports_nothing (fuel : nat) (e : env) (k : nat)
    (pre : list action) (l : locals) (n : N) (ph : phase) (msg : string) :
  reach fuel e k = Some (pre, l) ->
  (10 <= fuel)%nat ->
  (512 <= dataset_len e)%N ->
  setup_fault (attempts e k) = None ->
  (n < num_iters)%N ->
  (retry_cutoff < n)%N ->
  (forall j, (j < n)%N -> clean (steps (attempts e k) j) j) ->
  fault (steps (attempts e k) n) = Some (ph, RuntimeError msg) ->
  reached n ph = true ->
  let t := setup_actions (batch_size l)
           ++ clean_actions (py_int (batch_size l)) (steps (attempts e k))
                (N.to_nat n) 0%N
           ++ Iter n :: raise_actions n ph in
  train fuel e = (pre ++ t, Finished CutoffExit)
  /\ terminal_score (pre ++ t) = None
  /\ attempt_sizes t = [batch_size l].
Proof. exact (cutoff_pass fuel e k pre l n ph msg). Qed.

Lemma cutoff_exit_reports_nothing_witness :
  let e := oom_at_15000 in
  let msg := "CUDA out of memory"%string in
  reach 10 e 0 = Some ([], initial_locals)
  /\ (10 <= 10)%nat
  /\ (512 <= dataset_len e)%N
  /\ setup_fault (attempts e 0) = None
  /\ (15000 < num_iters)%N
  /\ (retry_cutoff < 15000)%N
  /\ (forall j, (j < 15000)%N -> clean (steps (attempts e 0) j) j)
  /\ fault (steps (attempts e 0) 15000%N) = Some (PForward, RuntimeError msg)
  /\ reached 15000 PForward = true
  /\ let t := setup_actions (batch_size initial_locals)
              ++ clean_actions (py_int (batch_size initial_locals))
                   (steps (attempts e 0)) (N.to_nat 15000) 0%N
              ++ Iter 15000 :: raise_actions 15000 PForward in
     train 10 e = ([] ++ t, Finished CutoffExit)
     /\ terminal_score ([] ++ t) = None
     /\ attempt_sizes t = [batch_size initial_locals].
Proof.
  intros e msg.
  assert (H1 : reach 10 e 0 = Some ([], initial_locals)) by reflexivity.
  assert (H2 : (10 <= 10)%nat) by lia.
  assert (H3 : (512 <= dataset_len e)%N) by (simpl; lia).
  assert (H4 : setup_fault (attempts e 0) = None) by reflexivity.
  assert (H5 : (15000 < num_iters)%N) by reflexivity.
  assert (H6 : (retry_cutoff < 15000)%N) by reflexivity.
  assert (H7 : forall j, (j < 15000)%N -> clean (steps (attempts e 0) j) j).
  { intros j Hj. simpl. destruct (N.eqb_spec j 15000); [lia|].
    split; reflexivity. }
  assert (H8 : fault (steps (attempts e 0) 15000%N)
               = Some (PForward, RuntimeError msg)) by reflexivity.
  assert (H9 : reached 15000 PForward = true) by reflexivity.
  repeat (split; [assumption|]).
  exact (cutoff_exit_reports_nothing 10 e 0 [] initial_locals 15000%N
           PForward msg H1 H2 H3 H4 H5 H6 H7 H8 H9).
Defined.

(** C1 as stated fails: a CUDA out-of-memory error at step 15000 ends the
    run with the bare [return] of line 300; the last record of the trace is
    not a score, so the penalty 27000 is not the terminal score. *)
Lemma cutoff_exit_without_penalty :
  contains oom_text "CUDA out of memory" = true
  /\ fault (steps (attempts oom_at_15000 0) 15000%N)
     = Some (PForward, RuntimeError "CUDA out of memory")
  /\ snd (train 10 oom_at_15000) = Finished CutoffExit
  /\ terminal_score (fst (train 10 oom_at_15000)) = None
  /\ terminal_score (fst (train 10 oom_at_15000)) <> Some penalty.
Proof.
  assert (H7 : forall j, (j < 15000)%N ->
                         clean (steps (attempts oom_at_15000 0) j) j).
  { intros j Hj. simpl. destruct (N.eqb_spec j 15000); [lia|].
    split; reflexivity. }
  destruct (cutoff_pass 10 oom_at_15000 0 [] initial_locals 15000%N PForward
              "CUDA out of memory" eq_refl (le_n 10) ltac:(simpl; lia)
              eq_refl eq_refl eq_refl H7 eq_refl eq_refl)
    as (Htrain & Hterm & _).
  split; [reflexivity|]. split; [reflexivity|].
  rewrite Htrain. cbn [fst snd].
  split; [reflexivity|]. split; [exact Hterm|].
  rewrite Hterm. discriminate.
Qed.

(** C2: after [k] consecutive memory-exhaustion retries the batch size is
    [initial_batch_size / 2^k], with the initial value 512; a further
    memory-exhaustion halves it again, and as soon as the halved value is
    below 1 the run ends with the penalty score 27000 as its last record and
    no further pass; otherwise the next pass starts. *)
Theorem batch_size_halves (fuel : nat) (e : env) (k : nat)
    (pre : list action) (l : locals) :
  reach fuel e k = Some (pre, l) ->
  initial_batch_size == 512
  /\ batch_size l == initial_batch_size / 2 ^ Z.of_nat k
  /\ 1 <= batch_size l
  /\ forall t l' msg,
       (k < fuel)%nat ->
       try_body fuel (dataset_len e) (attempts e k) l
         = (t, l', Raise (RuntimeError msg)) ->
       contains oom_text msg = true ->
       past_cutoff l' = false ->
       batch_size l' / 2 == initial_batch_size / 2 ^ Z.of_nat (S k)
       /\ (batch_size l' / 2 < 1 ->
           train fuel e
             = (pre ++ t ++ [Print DoesNotFit; LogScore penalty],
                Finished MemoryExit)
           /\ terminal_score (pre ++ t ++ [Print DoesNotFit; LogScore penalty])
              = Some penalty)
       /\ (1 <= batch_size l' / 2 ->
           vae l' <> Unbound -> vae_optim l' <> Unbound ->
           exists l'',
             reach fuel e (S k)
               = Some (pre ++ t ++ [Print (Halving (batch_size l' / 2));
                                    CollectGarbage], l'')
             /\ batch_size l'' = batch_size l' / 2).
Proof.
  intro Hreach.
  destruct (reach_invariant _ _ _ _ _ Hreach) as [Hb H1].
  split; [reflexivity|]. split; [exact Hb|]. split; [exact H1|].
  intros t l' msg Hk Hbody Hm Hc.
  pose proof (try_body_tidy _ _ _ _ _ _ _ Hbody) as (_ & Hb' & _).
  pose proof (attempt_handled fuel e k l l' t msg Hbody) as Hatt.
  split; [|split].
  - rewrite Hb', Hb. symmetry. apply halved_S.
  - intro Hlt.
    assert (Hq : Qlt_bool (batch_size l' / 2) 1 = true).
    { unfold Qlt_bool. apply negb_true_iff.
      destruct (Qle_bool 1 (batch_size l' / 2)) eqn:Hle; [|reflexivity].
      apply Qle_bool_iff in Hle. exfalso. exact (Qlt_not_le _ _ Hlt Hle). }
    rewrite (handler_memory_exit msg l' Hc Hm Hq) in Hatt.
    unfold prepend in Hatt.
    split.
    + apply (train_ends fuel e k pre _ l _ _ Hreach Hk Hatt). discriminate.
    + change [Print DoesNotFit; LogScore penalty]
        with ([Print DoesNotFit] ++ [LogScore penalty]).
      rewrite !app_assoc. apply terminal_score_last.
  - intros Hge Hv Hvo.
    assert (Hq : Qlt_bool (batch_size l' / 2) 1 = false).
    { unfold Qlt_bool. apply negb_false_iff, Qle_bool_iff, Hge. }
    rewrite (handler_retry msg l' Hc Hm Hq) in Hatt.
    exists (after_retry l'). split; [|reflexivity].
    simpl. rewrite Hreach.
    apply Qle_bool_iff in H1. rewrite H1, Hatt.
    destruct (vae l'), (vae_optim l'); try contradiction; reflexivity.
Qed.

Lemma batch_size_halves_witness :
  exists pre l t l' msg,
    reach 10 always_oom 9 = Some (pre, l)
    /\ batch_size l == initial_batch_size / 2 ^ 9
    /\ try_body 10 (dataset_len always_oom) (attempts always_oom 9) l
       = (t, l', Raise (RuntimeError msg))
    /\ contains oom_text msg = true
    /\ past_cutoff l' = false
    /\ batch_size l' / 2 < 1
    /\ train 10 always_oom
       = (pre ++ t ++ [Print DoesNotFit; LogScore penalty],
          Finished MemoryExit)
    /\ terminal_score (pre ++ t ++ [Print DoesNotFit; LogScore penalty])
       = Some penalty.
Proof.
  do 5 eexists.
  match goal with |- ?A /\ _ =>
    assert (Hreach : A) by (vm_compute; reflexivity) end.
  split; [exact Hreach|].
  destruct (batch_size_halves 10 always_oom 9 _ _ Hreach)
    as (_ & Hb & _ & Hnext).
  split; [exact Hb|].
  match goal with |- ?A /\ _ =>
    assert (Hbody : A) by (vm_compute; reflexivity) end.
  split; [exact Hbody|].
  match goal with |- ?A /\ _ =>
    assert (Hm : A) by (vm_compute; reflexivity) end.
  split; [exact Hm|].
  match goal with |- ?A /\ _ =>
    assert (Hc : A) by (vm_compute; reflexivity) end.
  split; [exact Hc|].
  match goal with |- ?A /\ _ =>
    assert (Hlt : A) by (vm_compute; reflexivity) end.
  split; [exact Hlt|].
  destruct (Hnext _ _ _ ltac:(lia) Hbody Hm Hc) as (_ & Hexit & _).
  exact (Hexit Hlt).
Defined.

(** *** Fuel *)

Lemma sample_data_fuel (fuel : nat) (per_pass pos : N) :
  (1 <= per_pass)%N -> (2 <= fuel)%nat ->
  sample_data fuel per_pass pos = sample_data 2 per_pass pos.
Proof.
  intros Hp Hf. destruct fuel as [|[|fuel]]; try lia.
  simpl. destruct (pos <? per_pass)%N; [reflexivity|].
  destruct (0 <? per_pass)%N eqn:H0; [reflexivity|].
  apply N.ltb_ge in H0. lia.
Qed.

Lemma step_batch_size (fuel : nat) (len : N) (se : step_env) (idx : N)
    (l l' : locals) (t : list action) (r : res unit) :
  step fuel len se idx l = (t, l', r) -> batch_size l' = batch_size l.
Proof.
  intro Hrun.
  destruct (sample_data fuel
              (batches_per_pass len (py_int (batch_size l))) (loader l))
    as [p|] eqn:Hp.
  - destruct (raises_cases se idx) as [Hr | (ph & e & Hf & Hre & Hr)].
    + rewrite (step_no_raise _ _ _ _ _ _ Hr Hp) in Hrun.
      injection Hrun as <- <- <-. reflexivity.
    + rewrite (step_raise _ _ _ _ _ _ _ _ Hf Hre Hp) in Hrun.
      injection Hrun as <- <- <-. reflexivity.
  - rewrite (step_hang _ _ _ _ _ Hp) in Hrun.
    injection Hrun as <- <- <-. reflexivity.
Qed.

Lemma step_fuel (fuel : nat) (len : N) (se : step_env) (idx : N) (l : locals) :
  (1 <= batches_per_pass len (py_int (batch_size l)))%N -> (2 <= fuel)%nat ->
  step fuel len se idx l = step 2 len se idx l.
Proof.
  intros Hpp Hf.
  destruct (sample_data_yields 2 _ (loader l) Hpp (le_n 2)) as [p Hp2].
  assert (Hp : sample_data fuel
                 (batches_per_pass len (py_int (batch_size l))) (loader l)
               = Some p)
    by (rewrite sample_data_fuel; assumption).
  destruct (raises_cases se idx) as [Hr | (ph & e & Hfa & Hre & Hr)].
  - rewrite (step_no_raise _ _ _ _ _ _ Hr Hp),
            (step_no_raise _ _ _ _ _ _ Hr Hp2). reflexivity.
  - rewrite (step_raise _ _ _ _ _ _ _ _ Hfa Hre Hp),
            (step_raise _ _ _ _ _ _ _ _ Hfa Hre Hp2). reflexivity.
Qed.

Lemma for_range_fuel (fuel : nat) (len : N) (sf : N -> step_env) (n : nat) :
  forall idx l,
  (1 <= batches_per_pass len (py_int (batch_size l)))%N -> (2 <= fuel)%nat ->
  for_range n idx (fun j => step fuel len (sf j) j) l
    = for_range n idx (fun j => step 2 len (sf j) j) l.
Proof.
  induction n as [|n IH]; intros idx l Hpp Hf; [reflexivity|].
  rewrite !for_range_S. f_equal.
  pose proof (step_fuel fuel len (sf idx) idx (set_i idx l) Hpp Hf) as Hs.
  destruct (step 2 len (sf idx) idx (set_i idx l)) as [[t1 l1] r1] eqn:H2.
  pose proof (step_batch_size _ _ _ _ _ _ _ _ H2) as Hb.
  destruct r1 as [[]|o|ex|].
  - rewrite (bind_ok _ _ _ _ _ _ Hs), (bind_ok _ _ _ _ _ _ H2).
    f_equal. apply IH; [|exact Hf]. rewrite Hb. exact Hpp.
  - rewrite (bind_return _ _ _ _ _ _ Hs), (bind_return _ _ _ _ _ _ H2).
    reflexivity.
  - rewrite (bind_raise _ _ _ _ _ _ Hs), (bind_raise _ _ _ _ _ _ H2).
    reflexivity.
  - rewrite (bind_hang _ _ _ _ _ Hs), (bind_hang _ _ _ _ _ H2).
    reflexivity.
Qed.

Lemma try_body_fuel (fuel : nat) (len : N) (ae : attempt_env) (l : locals) :
  (1 <= batches_per_pass len (py_int (batch_size l)))%N -> (2 <= fuel)%nat ->
  try_body fuel len ae l = try_body 2 len ae l.
Proof.
  intros Hpp Hf.
  destruct (sample_data_yields 2 _ 0%N Hpp (le_n 2)) as [p Hp2].
  assert (Hp : sample_data fuel
                 (batches_per_pass len (py_int (batch_size l))) 0%N = Some p)
    by (rewrite sample_data_fuel; assumption).
  destruct (setup_fault ae) as [[sp e]|] eqn:Hsf.
  - destruct sp.
    1: rewrite !(try_body_pipeline_fault _ _ _ _ _ Hsf); reflexivity.
    all: rewrite (try_body_fault _ _ _ _ p _ _ Hsf ltac:(discriminate) Hp),
           (try_body_fault _ _ _ _ p _ _ Hsf ltac:(discriminate) Hp2);
      reflexivity.
  - rewrite (try_body_setup _ _ _ _ p Hsf Hp),
            (try_body_setup _ _ _ _ p Hsf Hp2).
    f_equal. unfold bind at 1 3.
    rewrite (for_range_fuel fuel len (steps ae) _ 0%N (after_setup l p) Hpp Hf).
    reflexivity.
Qed.

Section WhileFuel.
Variables (fuel : nat) (e : env).
Hypothesis Hlen : (512 <= dataset_len e)%N.
Hypothesis Hfuel : (2 <= fuel)%nat.

Lemma attempt_fuel (k : nat) (l : locals) :
  batch_size l <= 512 -> 1 <= batch_size l ->
  attempt fuel e k l = attempt 2 e k l.
Proof.
  intros Hle H1. unfold attempt, try_except.
  rewrite (try_body_fuel fuel); [reflexivity| |exact Hfuel].
  apply generator_yields; assumption.
Qed.

Lemma while_fuel (n : nat) : forall k l,
  batch_size l == halved k -> 1 <= batch_size l ->
  while_loop n fuel e k l = while_loop n 2 e k l.
Proof.
  induction n as [|n IH]; intros k l Hb H1; [reflexivity|].
  rewrite !while_S.
  destruct (Qle_bool 1 (batch_size l)); [|reflexivity].
  assert (Hle : batch_size l <= 512)
    by (rewrite Hb; apply halved_le_initial).
  pose proof (attempt_fuel k l Hle H1) as Ha.
  destruct (attempt 2 e k l) as [[t1 l1] r1] eqn:H2.
  destruct r1 as [[]|o|ex|].
  - rewrite (bind_ok _ _ _ _ _ _ Ha), (bind_ok _ _ _ _ _ _ H2).
    f_equal.
    apply attempt_general in H2 as (_ & _ & Hok).
    destruct (Hok eq_refl) as [Hb1 Hq].
    unfold Qlt_bool in Hq. apply negb_false_iff, Qle_bool_iff in Hq.
    apply IH; [rewrite Hb1, halved_S, Hb; reflexivity|].
    rewrite Hb1. exact Hq.
  - rewrite (bind_return _ _ _ _ _ _ Ha), (bind_return _ _ _ _ _ _ H2).
    reflexivity.
  - rewrite (bind_raise _ _ _ _ _ _ Ha), (bind_raise _ _ _ _ _ _ H2).
    reflexivity.
  - rewrite (bind_hang _ _ _ _ _ Ha), (bind_hang _ _ _ _ _ H2).
    reflexivity.
Qed.

Lemma while_more (n : nat) : forall k l t l' r,
  while_loop n fuel e k l = (t, l', r) -> r <> Hang ->
  forall m, (n <= m)%nat -> while_loop m fuel e k l = (t, l', r).
Proof.
  clear Hlen Hfuel.
  induction n as [|n IH]; intros k l t l' r Hrun Hr m Hm.
  - injection Hrun as <- <- <-. contradiction.
  - destruct m as [|m]; [lia|].
    rewrite while_S in Hrun |- *.
    destruct (Qle_bool 1 (batch_size l)); [|exact Hrun].
    destruct (attempt fuel e k l) as [[t1 l1] r1] eqn:Hatt.
    destruct r1 as [[]|o|ex|].
    + rewrite (bind_ok _ _ _ _ _ _ Hatt) in Hrun.
      rewrite (bind_ok _ _ _ _ _ _ Hatt).
      destruct (while_loop n fuel e (S k) l1) as [[t2 l2] r2] eqn:Hrest.
      injection Hrun as <- <- <-.
      rewrite (IH _ _ _ _ _ Hrest Hr m ltac:(lia)). reflexivity.
    + rewrite (bind_return _ _ _ _ _ _ Hatt) in Hrun.
      rewrite (bind_return _ _ _ _ _ _ Hatt). exact Hrun.
    + rewrite (bind_raise _ _ _ _ _ _ Hatt) in Hrun.
      rewrite (bind_raise _ _ _ _ _ _ Hatt). exact Hrun.
    + rewrite (bind_hang _ _ _ _ _ Hatt) in Hrun.
      rewrite (bind_hang _ _ _ _ _ Hatt). exact Hrun.
Qed.

End WhileFuel.

(** With a dataset of at least 512 samples, ten units of fuel give the
    result of [train], and more fuel gives the same. *)
Lemma train_fuel (fuel : nat) (e : env) :
  (512 <= dataset_len e)%N -> (10 <= fuel)%nat ->
  train fuel e = train 10 e.
Proof.
  intros Hlen Hfuel. unfold train.
  rewrite (while_fuel fuel e Hlen ltac:(lia) fuel 0%nat initial_locals);
    [|reflexivity|discriminate].
  rewrite (while_fuel 10 e Hlen ltac:(lia) 10 0%nat initial_locals);
    [|reflexivity|discriminate].
  destruct (while_loop 10 2 e 0 initial_locals) as [[t l'] r] eqn:Hrun.
  destruct (while_bounded 2 e 10 Hlen (le_n 2) 0%nat initial_locals t l' r)
    as (Hr & _); [reflexivity|discriminate|lia|exact Hrun|].
  rewrite (while_more 2 e 10 _ _ _ _ _ Hrun Hr fuel Hfuel). reflexivity.
Qed.

(** C5, amended: when the dataset holds at least 512 samples, so that
    [next(loader)] returns, [train] terminates (ten units of fuel give its
    result, more fuel gives the same); each pass of the [while] loop
    runs at most [num_iters = 20000] steps, and the number of passes is at
    most [log2(512) + 1 = 10], one for each batch size 512, 256, ..., 1. *)
Theorem train_terminates (fuel : nat) (e : env) :
  (512 <= dataset_len e)%N ->
  (10 <= fuel)%nat ->
  let t := fst (train fuel e) in
  train fuel e = train 10 e
  /\ snd (train fuel e) <> OutOfFuel
  /\ (List.length (attempt_sizes t)
      <= Z.to_nat (Z.log2 (py_int initial_batch_size)) + 1)%nat
  /\ List.length (steps_per_attempt t) = List.length (attempt_sizes t)
  /\ Forall (fun c => (c <= N.to_nat num_iters)%nat) (steps_per_attempt t).
Proof.
  intros Hlen Hfuel. split; [apply train_fuel; assumption|]. unfold train.
  destruct (while_loop fuel fuel e 0 initial_locals) as [[t l'] r] eqn:Hrun.
  cbn [fst snd]. cbv zeta.
  destruct (while_bounded fuel e fuel Hlen ltac:(lia) 0%nat initial_locals
              t l' r) as (Hr & Hn & Hl & Hf & _);
    [reflexivity|discriminate|lia|exact Hrun|].
  split; [destruct r; try discriminate; contradiction|].
  split; [|split; assumption].
  change (Z.to_nat (Z.log2 (py_int initial_batch_size))) with 9%nat. lia.
Qed.

Lemma train_terminates_witness :
  (512 <= dataset_len always_oom)%N
  /\ (10 <= 10)%nat
  /\ let t := fst (train 10 always_oom) in
     train 10 always_oom = train 10 always_oom
     /\ snd (train 10 always_oom) <> OutOfFuel
     /\ (List.length (attempt_sizes t)
         <= Z.to_nat (Z.log2 (py_int initial_batch_size)) + 1)%nat
     /\ List.length (steps_per_attempt t) = List.length (attempt_sizes t)
     /\ Forall (fun c => (c <= N.to_nat num_iters)%nat) (steps_per_attempt t).
Proof.
  assert (H1 : (512 <= dataset_len always_oom)%N) by (simpl; lia).
  assert (H2 : (10 <= 10)%nat) by lia.
  split; [exact H1|]. split; [exact H2|].
  exact (train_terminates 10 always_oom H1 H2).
Defined.

(** C5 as stated fails: when every pass runs out of memory, the [while] loop
    makes ten passes, with the batch sizes 512, 256, ..., 1, and
    [log2(512) = 9]. *)
Lemma ten_passes :
  Z.log2 (py_int initial_batch_size) = 9%Z
  /\ List.length (attempt_sizes (fst (train 10 always_oom))) = 10%nat
  /\ map py_int (attempt_sizes (fst (train 10 always_oom)))
     = [512; 256; 128; 64; 32; 16; 8; 4; 2; 1]%Z
  /\ snd (train 10 always_oom) = Finished MemoryExit.
Proof. vm_compute. repeat split; reflexivity. Qed.

(** With fewer samples than the first batch size the generator of
    [sample_data] never yields: no amount of fuel lets [train] return. *)
Lemma small_dataset_never_returns (fuel : nat) :
  snd (train fuel small_dataset) = OutOfFuel.
Proof.
  unfold train. destruct fuel as [|fuel]; [reflexivity|].
  rewrite while_S.
  change (Qle_bool 1 (batch_size initial_locals)) with true. cbv iota.
  assert (Hatt : attempt (S fuel) small_dataset 0 initial_locals
                 = ([Attempt 512; BuildLoader 512],
                    set_loader 0%N initial_locals, Hang)).
  { unfold attempt, try_except.
    rewrite try_body_hang; [reflexivity|discriminate|].
    apply sample_data_empty. }
  rewrite (bind_hang _ _ _ _ _ Hatt). reflexivity.
Qed.

Lemma safe_at (fm : mode -> mode) (pre post : list action) (a : action)
    (s : model_state) :
  safe fm s (pre ++ a :: post) -> permitted (replay fm s pre) a.
Proof. intro H. apply safe_app in H as [_ [H _]]. exact H. Qed.

(** C6, amended: each of the two probes runs with gradients off, and the end
    of its [no_grad] block turns them on again.  The qualitative probe puts
    the model in evaluation mode and leaves it there: training mode is set
    again by [vae.train()] at the start of the next step, so that every
    forward pass and update of a training step runs in training mode with
    gradients on. *)
Theorem probes_without_gradients (fid_mode : mode -> mode) (fuel : nat)
    (e : env) (pre post : list action) (a : action) :
  fst (train fuel e) = pre ++ a :: post ->
  let s := replay fid_mode fresh pre in
  match a with
  | Reconstruct _ | Generate _ => grad s = false /\ current s = Evaluation
  | Fid _ _ => grad s = false
  | NoGradExit => grad (act fid_mode s a) = true
  | Forward _ | Update _ => grad s = true /\ current s = Training
  | _ => True
  end.
Proof.
  unfold train. intro Hsplit.
  destruct (while_loop fuel fuel e 0 initial_locals) as [[t l'] r] eqn:Hrun.
  cbn [fst] in Hsplit. subst t.
  destruct (while_safe fuel e fuel _ _ _ _ _ Hrun fid_mode fresh)
    as [Hsafe _]; [split; reflexivity|].
  apply safe_at in Hsafe. cbv zeta.
  destruct a; try exact I; simpl in Hsafe |- *; try tauto.
  rewrite Hsafe. reflexivity.
Qed.

Lemma probes_without_gradients_witness :
  exists post,
    let pre := [Attempt 512; BuildLoader 512; LogRealImages; SetTrain;
                Iter 0; SetTrain; Forward 0; Update 0; LogLoss 0;
                NoGradEnter; SetEval; Reconstruct 0; Generate 0; NoGradExit;
                NoGradEnter] in
    fst (train 10 stops_at_step_1) = pre ++ Fid 0 512 :: post
    /\ forall fid_mode, grad (replay fid_mode fresh pre) = false.
Proof.
  eexists. cbv zeta.
  match goal with |- ?A /\ _ =>
    assert (Hsplit : A) by (vm_compute; reflexivity) end.
  split; [exact Hsplit|].
  intro fid_mode.
  exact (probes_without_gradients fid_mode 10 stops_at_step_1 _ _ _ Hsplit).
Defined.

(** C6 as stated fails: when the qualitative probe of step 0 is over, the
    model is in evaluation mode, whatever [vae_fid] does to the mode, and the
    run goes on into the quantitative probe in that mode. *)
Lemma qualitative_probe_leaves_evaluation_mode :
  let pre := [Attempt 512; BuildLoader 512; LogRealImages; SetTrain;
              Iter 0; SetTrain; Forward 0; Update 0; LogLoss 0;
              NoGradEnter; SetEval; Reconstruct 0; Generate 0; NoGradExit] in
  exists post,
    fst (train 10 stops_at_step_1) = pre ++ NoGradEnter :: Fid 0 512 :: post
    /\ (forall fid_mode, current (replay fid_mode fresh pre) = Evaluation)
    /\ (forall fid_mode,
         current (replay fid_mode fresh (pre ++ [NoGradEnter])) <> Training).
Proof.
  cbv zeta. eexists. split; [vm_compute; reflexivity|].
  split; intro fid_mode; [reflexivity|discriminate].
Qed.

End TrainFacts.

(** ** The reconstruction term in float32 *)

Section Float32Facts.
Import Float32 SpecFloat.

Lemma plus_inf_not_finite (x : float) : finite (add32 x pinf) = false.
Proof. destruct x as [[]|[]| |[] m e]; reflexivity. Qed.

Lemma sub32_not_finite (x c : float) :
  finite x = false -> finite (sub32 x c) = false.
Proof.
  destruct x as [[]|[]| |[] m e]; try discriminate; intros _;
    destruct c as [[]|[]| |[] m' e']; reflexivity.
Qed.

Lemma mul32_not_finite (a x : float) :
  finite x = false -> finite (mul32 a x) = false.
Proof.
  destruct x as [[]|[]| |[] m e]; try discriminate; intros _;
    destruct a as [[]|[]| |[] m' e']; reflexivity.
Qed.

(** Rounding to nearest even does not look at the sign: multiplication
    and subtraction commute with negation, bit for bit. *)
Lemma round_aux_opp (s : bool) (m e : Z) (l : location) :
  SFopp (binary_round_aux 24 128 s m e l)
  = binary_round_aux 24 128 (negb s) m e l.
Proof.
  unfold binary_round_aux.
  destruct (shr_fexp 24 128 m e l) as [mrs e'].
  destruct (shr_fexp 24 128 _ e' loc_Exact) as [mrs' e''].
  destruct (shr_m mrs') as [|p|p]; [reflexivity| |reflexivity].
  destruct (Z.leb e'' (128 - 24)); reflexivity.
Qed.

Lemma round_opp (s : bool) (m : positive) (e : Z) :
  SFopp (binary_round 24 128 s m e) = binary_round 24 128 (negb s) m e.
Proof.
  unfold binary_round.
  destruct (shl_align m e _) as [mz ez]. apply round_aux_opp.
Qed.

Lemma normalize_opp (m e : Z) :
  m <> 0%Z ->
  binary_normalize 24 128 (- m) e false
  = SFopp (binary_normalize 24 128 m e false).
Proof.
  destruct m as [|p|p]; [contradiction| |]; intros _;
    cbn [Z.opp binary_normalize]; rewrite round_opp; reflexivity.
Qed.

Lemma mul32_opp (a t : float) : mul32 a (SFopp t) = SFopp (mul32 a t).
Proof.
  destruct a as [sa|sa| |sa ma ea], t as [st|st| |st mt et];
    try (destruct sa, st; reflexivity); try reflexivity.
  unfold mul32, SFmul. cbn [SFopp]. rewrite round_aux_opp.
  destruct sa, st; reflexivity.
Qed.

(** [y - x] is the negation of [x - y], unless both are [+0]. *)
Lemma sub32_swap (x y : float) :
  sub32 y x = SFopp (sub32 x y)
  \/ (sub32 x y = pzero /\ sub32 y x = pzero).
Proof.
  destruct x as [sx|sx| |sx mx ex], y as [sy|sy| |sy my ey];
    try (destruct sx, sy; (left; reflexivity) || (right; split; reflexivity));
    try (left; reflexivity).
  unfold sub32, SFsub. rewrite (Z.min_comm ey ex).
  set (ez := Z.min ex ey).
  set (a := cond_Zopp sx (Zpos (fst (shl_align mx ex ez)))).
  set (b := cond_Zopp sy (Zpos (fst (shl_align my ey ez)))).
  destruct (Z.eq_dec (a - b) 0) as [H0|Hne].
  - right. replace (b - a)%Z with 0%Z by lia. rewrite H0. split; reflexivity.
  - left. replace (b - a)%Z with (- (a - b))%Z by lia.
    apply normalize_opp, Hne.
Qed.

Lemma zip_sub32_swap (fake : list float) :
  forall real ts,
  zip_with32 sub32 fake real = Some ts ->
  exists ts',
    zip_with32 sub32 real fake = Some ts'
    /\ Forall2 (fun t t' => t' = SFopp t \/ (t = pzero /\ t' = pzero))
         ts ts'.
Proof.
  induction fake as [|x fake IH]; intros [|y real] ts H; cbn in H;
    try discriminate.
  - injection H as <-. exists []. split; [reflexivity|constructor].
  - destruct (zip_with32 sub32 fake real) as [r|] eqn:Hr; [|discriminate].
    injection H as <-. destruct (IH real r Hr) as (r' & Hr' & Hall).
    exists (sub32 y x :: r'). split.
    + cbn [zip_with32]. rewrite Hr'. reflexivity.
    + constructor; [apply sub32_swap|exact Hall].
Qed.

(** An entry on which [th.exp] overflows is an infinity or NaN. *)
Lemma entry_overflow (k : kernels) (alpha t : float) :
  sane k -> overflows alpha t = true ->
  finite (logcosh_entry32 k alpha t) = false.
Proof.
  intros Hk Ho. unfold logcosh_entry32.
  rewrite (exp_overflows k Hk _ Ho).
  change (add32 (of_Z32 1) pinf) with pinf.
  rewrite (log_of_inf k Hk).
  apply sub32_not_finite, plus_inf_not_finite.
Qed.

Lemma add32_pzero (x : float) : x <> S754_zero true -> add32 x pzero = x.
Proof.
  destruct x as [[]|[]| |[] m e]; intro H; try reflexivity.
  exfalso. apply H. reflexivity.
Qed.

(** An argument of -150 or less becomes, negated, one of 89 or more. *)
Lemma leb_opp (x : float) :
  leb x (of_Z32 (-150)) = true -> leb (of_Z32 89) (SFopp x) = true.
Proof.
  change (of_Z32 (-150)) with (S754_finite true 9830400 (-16)).
  change (of_Z32 89) with (S754_finite false 11665408 (-17)).
  destruct x as [[]|[]| |[] m e]; try discriminate; try reflexivity.
  unfold leb, SFleb, SFcompare. cbn [SFopp negb].
  destruct (Z.compare_spec e (-16)) as [->|Hlt|Hgt].
  - intros _. reflexivity.
  - discriminate.
  - intros _. destruct (Z.compare_spec (-17) e) as [He|He|He];
      [lia|reflexivity|lia].
Qed.

(** Where [th.exp] underflows, the entry is [alpha*t - log 2]. *)
Lemma entry_saturated (k : kernels) (alpha t : float) :
  sane k ->
  leb (exp_argument alpha t) (of_Z32 (-150)) = true ->
  mul32 (to32 alpha) t <> S754_zero true ->
  logcosh_entry32 k alpha t
    = sub32 (mul32 (to32 alpha) t) (log32 k (of_Z32 2)).
Proof.
  intros Hk Hu Hp. unfold logcosh_entry32.
  rewrite (exp_underflows k Hk _ Hu).
  change (add32 (of_Z32 1) pzero) with (of_Z32 1).
  rewrite (log_of_one k Hk), (add32_pzero _ Hp). reflexivity.
Qed.

Lemma swapped_overflows (alpha t : float) :
  leb (exp_argument alpha t) (of_Z32 (-150)) = true ->
  overflows alpha (SFopp t) = true.
Proof.
  intro Hu. unfold overflows, exp_argument. rewrite mul32_opp.
  apply leb_opp, Hu.
Qed.

Lemma recons_overflow (k : kernels) (alpha : float)
    (real fake ts : list float) :
  sane k ->
  zip_with32 sub32 fake real = Some ts ->
  existsb (overflows alpha) ts = true ->
  exists r, recons_loss32 k alpha real fake = Some r /\ finite r = false.
Proof.
  intros Hk Hts Ho. unfold recons_loss32. rewrite Hts.
  eexists. split; [reflexivity|].
  apply mul32_not_finite, (mean_not_finite k Hk).
  apply existsb_exists in Ho as (t & Hin & Ht).
  apply existsb_exists. exists (logcosh_entry32 k alpha t).
  split; [apply in_map, Hin|].
  rewrite (entry_overflow k alpha t Hk Ht). reflexivity.
Qed.

Lemma coarse_sane : sane coarse_kernels.
Proof.
  constructor; cbn [exp32 log32 mean32 coarse_kernels].
  - intros x Hx. rewrite Hx. reflexivity.
  - intros x Hx. rewrite Hx.
    destruct x as [[]|[]| |[] m e]; try reflexivity; discriminate.
  - reflexivity.
  - reflexivity.
  - reflexivity.
  - reflexivity.
  - intros xs Hxs. rewrite Hxs.
    destruct xs as [|x [|y xs]]; [discriminate| |reflexivity].
    cbn [existsb] in Hxs. rewrite orb_false_r in Hxs.
    destruct (finite x); [discriminate|reflexivity].
Qed.

(** The two orders at [alpha = 100], [real = [0]] and [fake = [1]]. *)
Lemma recons_at_plus_one (k : kernels) :
  sane k ->
  recons_loss32 k (of_Z64 100) [of_Z32 0] [of_Z32 1]
    = Some (S754_finite false 16660925 (-24)).
Proof.
  intro Hk. unfold recons_loss32. cbn [zip_with32 map].
  change (sub32 (of_Z32 1) (of_Z32 0)) with (of_Z32 1).
  unfold logcosh_entry32.
  rewrite (exp_underflows k Hk (exp_argument (of_Z64 100) (of_Z32 1)))
    by reflexivity.
  change (add32 (of_Z32 1) pzero) with (of_Z32 1).
  rewrite (log_of_one k Hk), (log_of_two k Hk).
  change (sub32 (add32 (mul32 (to32 (of_Z64 100)) (of_Z32 1)) pzero) ln2)
    with (S754_finite false 13016348 (-17)).
  rewrite (mean_of_one k Hk) by discriminate.
  reflexivity.
Qed.

Lemma recons_at_minus_one (k : kernels) :
  sane k ->
  recons_loss32 k (of_Z64 100) [of_Z32 1] [of_Z32 0] = Some pinf.
Proof.
  intro Hk. unfold recons_loss32. cbn [zip_with32 map].
  change (sub32 (of_Z32 0) (of_Z32 1)) with (of_Z32 (-1)).
  unfold logcosh_entry32.
  rewrite (exp_overflows k Hk (exp_argument (of_Z64 100) (of_Z32 (-1))))
    by reflexivity.
  change (add32 (of_Z32 1) pinf) with pinf.
  rewrite (log_of_inf k Hk), (log_of_two k Hk).
  change (sub32 (add32 (mul32 (to32 (of_Z64 100)) (of_Z32 (-1))) pinf) ln2)
    with pinf.
  rewrite (mean_of_one k Hk) by discriminate.
  reflexivity.
Qed.

(** C7, amended: the float32 code is symmetric under the swap of [real]
    and [fake] in its arguments only, not in its value.  The swap negates
    [t = fake - real], [alpha*t] and the argument [-2*alpha*t] of [th.exp]
    bit for bit (an entry [+0] stays [+0]), so that the two orders evaluate
    the expression of line 163 at [t] and at [-t]; but the two values are
    not equal in general.  On an entry for which the argument of [th.exp] is
    -150 or less, [th.exp] gives 0 and the entry is [alpha*t - log 2], while
    in the other order [th.exp] overflows and the entry is an infinity or
    NaN; and an order in which the argument of [th.exp] is 89 or more on
    some entry has an infinity or NaN as its reconstruction term. *)
Theorem reconstruction_swap_in_float32
    (k : kernels) (alpha : float) (real fake ts : list float) :
  sane k ->
  zip_with32 sub32 fake real = Some ts ->
  (exists ts',
     zip_with32 sub32 real fake = Some ts'
     /\ Forall2 (fun t t' => t' = SFopp t \/ (t = pzero /\ t' = pzero))
          ts ts')
  /\ (forall t,
        mul32 (to32 alpha) (SFopp t) = SFopp (mul32 (to32 alpha) t)
        /\ exp_argument alpha (SFopp t) = SFopp (exp_argument alpha t))
  /\ (forall t,
        leb (exp_argument alpha t) (of_Z32 (-150)) = true ->
        mul32 (to32 alpha) t <> S754_zero true ->
        logcosh_entry32 k alpha t
          = sub32 (mul32 (to32 alpha) t) (log32 k (of_Z32 2))
        /\ finite (logcosh_entry32 k alpha (SFopp t)) = false)
  /\ (existsb (overflows alpha) ts = true ->
      exists r,
        recons_loss32 k alpha real fake = Some r /\ finite r = false).
Proof.
  intros Hk Hts.
  split; [exact (zip_sub32_swap fake real ts Hts)|].
  split; [intro t; split; apply mul32_opp|].
  split.
  - intros t Hu Hp. split; [exact (entry_saturated k alpha t Hk Hu Hp)|].
    apply (entry_overflow k alpha (SFopp t) Hk), swapped_overflows, Hu.
  - exact (recons_overflow k alpha real fake ts Hk Hts).
Qed.

Lemma reconstruction_swap_in_float32_witness :
  let a := of_Z64 100 in
  let ts := [of_Z32 (-1)] in
  sane coarse_kernels
  /\ zip_with32 sub32 [of_Z32 0] [of_Z32 1] = Some ts
  /\ (exists ts',
        zip_with32 sub32 [of_Z32 1] [of_Z32 0] = Some ts'
        /\ Forall2 (fun t t' => t' = SFopp t \/ (t = pzero /\ t' = pzero))
             ts ts')
  /\ (forall t,
        mul32 (to32 a) (SFopp t) = SFopp (mul32 (to32 a) t)
        /\ exp_argument a (SFopp t) = SFopp (exp_argument a t))
  /\ (forall t,
        leb (exp_argument a t) (of_Z32 (-150)) = true ->
        mul32 (to32 a) t <> S754_zero true ->
        logcosh_entry32 coarse_kernels a t
          = sub32 (mul32 (to32 a) t) (log32 coarse_kernels (of_Z32 2))
        /\ finite (logcosh_entry32 coarse_kernels a (SFopp t)) = false)
  /\ (existsb (overflows a) ts = true ->
      exists r,
        recons_loss32 coarse_kernels a [of_Z32 1] [of_Z32 0] = Some r
        /\ finite r = false).
Proof.
  intros a ts.
  assert (H1 : sane coarse_kernels) by exact coarse_sane.
  assert (H2 : zip_with32 sub32 [of_Z32 0] [of_Z32 1] = Some ts)
    by reflexivity.
  split; [exact H1|]. split; [exact H2|].
  exact (reconstruction_swap_in_float32 coarse_kernels a
           [of_Z32 1] [of_Z32 0] ts H1 H2).
Defined.

(** C7 as stated fails: with [alpha = 100], [real = [0]] and [fake = [1]],
    float32 tensors of one entry, [t = 1] and [th.exp(-200)] is 0, so that
    the entry is [100 - log 2] and the reconstruction term 0.9930685; with
    the two swapped, [t = -1] and [th.exp(200)] overflows to [inf], and the
    reconstruction term is [inf].  This holds for all kernels that meet
    [sane], and such kernels exist. *)
Lemma reconstruction_differs_in_float32 :
  sane coarse_kernels
  /\ forall k, sane k ->
       recons_loss32 k (of_Z64 100) [of_Z32 0] [of_Z32 1]
         = Some (S754_finite false 16660925 (-24))
       /\ recons_loss32 k (of_Z64 100) [of_Z32 1] [of_Z32 0] = Some pinf
       /\ recons_loss32 k (of_Z64 100) [of_Z32 0] [of_Z32 1]
          <> recons_loss32 k (of_Z64 100) [of_Z32 1] [of_Z32 0].
Proof.
  split; [exact coarse_sane|]. intros k Hk.
  rewrite (recons_at_plus_one k Hk), (recons_at_minus_one k Hk).
  repeat split. discriminate.
Qed.

End Float32Facts.

(** ** Further facts on the training routine *)

Section TrainMore.
Import Train TrainSpec.

(** *** How a pass can end, in any environment *)

Ltac mrun :=
  unfold bind at 1; cbn [get emit ret modify raise return_ hang].

Lemma terminal_score_quiet_end (pre : list action) (a : action) :
  (forall v, a <> LogScore v) -> terminal_score (pre ++ [a]) = None.
Proof.
  intro Ha. unfold terminal_score. rewrite map_app. cbn [map].
  rewrite last_last. destruct a; try reflexivity. destruct (Ha v eq_refl).
Qed.

Lemma triple_eq {A B C : Type} (a a' : A) (b b' : B) (c c' : C) :
  (a, b, c) = (a', b', c') -> a = a' /\ b = b' /\ c = c'.
Proof. intro H. injection H as -> -> ->. auto. Qed.

Lemma terminal_after_cons (t : list action) (a : action) (v : option R) :
  (forall pre, terminal_score (pre ++ t) = v) ->
  forall pre, terminal_score (pre ++ a :: t) = v.
Proof.
  intros H pre. change (a :: t) with ([a] ++ t). rewrite app_assoc. apply H.
Qed.

Lemma terminal_after_app (t1 t2 : list action) (v : option R) :
  (forall pre, terminal_score (pre ++ t2) = v) ->
  forall pre, terminal_score (pre ++ t1 ++ t2) = v.
Proof. intros H pre. rewrite app_assoc. apply H. Qed.

Lemma for_range_ends (fuel : nat) (len : N) (sf : N -> step_env) (n : nat) :
  forall idx l l' t r,
  for_range n idx (fun j => step fuel len (sf j) j) l = (t, l', r) ->
  ends_well t r.
Proof.
  induction n as [|n IH]; intros idx l l' t r Hrun.
  - simpl in Hrun. injection Hrun as <- <- <-. exact I.
  - rewrite for_range_S in Hrun.
    destruct (sample_data fuel
                (batches_per_pass len (py_int (batch_size (set_i idx l))))
                (loader (set_i idx l))) as [p|] eqn:Hp.
    + destruct (raises_cases (sf idx) idx) as [Hr | (ph & e & Hf & Hre & Hr)].
      * pose proof (step_no_raise fuel len (sf idx) idx (set_i idx l) p Hr Hp)
          as Hs.
        destruct (loss_nan (sf idx)).
        -- rewrite (bind_return _ _ _ _ _ _ Hs) in Hrun.
           unfold prepend in Hrun. apply triple_eq in Hrun as (<- & <- & <-).
           split; [reflexivity|].
           do 2 apply terminal_after_app.
           intro pre. apply terminal_score_nan.
        -- rewrite (bind_ok _ _ _ _ _ _ Hs) in Hrun.
           destruct (for_range n (idx + 1)%N _ _) as [[t1 l1] r1] eqn:Hrest.
           apply IH in Hrest.
           unfold prepend in Hrun. apply triple_eq in Hrun as (<- & <- & <-).
           destruct r1 as [[]|o|ex|]; try exact I.
           ++ destruct Hrest as [Ho Hrest]. split; [exact Ho|].
              do 2 apply terminal_after_app. exact Hrest.
           ++ unfold ends_well. do 2 apply terminal_after_app. exact Hrest.
      * pose proof (step_raise fuel len (sf idx) idx (set_i idx l) p ph e
                      Hf Hre Hp) as Hs.
        rewrite (bind_raise _ _ _ _ _ _ Hs) in Hrun.
        unfold prepend in Hrun. apply triple_eq in Hrun as (<- & <- & <-).
        intro pre. apply (terminal_score_raise pre idx ph).
    + pose proof (step_hang fuel len (sf idx) idx (set_i idx l) Hp) as Hs.
      rewrite (bind_hang _ _ _ _ _ Hs) in Hrun.
      unfold prepend in Hrun. apply triple_eq in Hrun as (<- & <- & <-). exact I.
Qed.

Lemma try_body_ends (fuel : nat) (len : N) (ae : attempt_env)
    (l l' : locals) (t : list action) (r : res unit) :
  try_body fuel len ae l = (t, l', r) ->
  match r with
  | Ok _ => False
  | Hang => True
  | Raise _ => forall pre, terminal_score (pre ++ t) = None
  | Return o =>
      (o = NanExit /\ forall pre, terminal_score (pre ++ t) = Some penalty)
      \/ (o = Success
          /\ exists v, forall pre, terminal_score (pre ++ t) = Some v)
  end.
Proof.
  intro Hrun.
  destruct (sample_data fuel
              (batches_per_pass len (py_int (batch_size l))) 0%N)
    as [p|] eqn:Hp.
  - destruct (setup_fault ae) as [[sp e]|] eqn:Hsf.
    + assert (Hq : forall pre, terminal_score
                     (pre ++ setup_prefix (batch_size l) sp) = None).
      { intro pre. destruct sp; cbn [setup_prefix].
        - apply terminal_score_quiet_end. discriminate.
        - change [?a; ?b] with ([a] ++ [b]). rewrite app_assoc.
          apply terminal_score_quiet_end. discriminate.
        - change [?a; ?b; ?c] with ([a; b] ++ [c]). rewrite app_assoc.
          apply terminal_score_quiet_end. discriminate.
        - change [?a; ?b; ?c; ?d] with ([a; b; c] ++ [d]). rewrite app_assoc.
          apply terminal_score_quiet_end. discriminate.
        - change [?a; ?b; ?c; ?d] with ([a; b; c] ++ [d]). rewrite app_assoc.
          apply terminal_score_quiet_end. discriminate. }
      destruct sp.
      1: { rewrite (try_body_pipeline_fault _ _ _ _ _ Hsf) in Hrun.
           apply triple_eq in Hrun as (<- & <- & <-). exact Hq. }
      all: rewrite (try_body_fault _ _ _ _ p _ _ Hsf ltac:(discriminate) Hp)
             in Hrun;
        apply triple_eq in Hrun as (<- & <- & <-); exact Hq.
    + rewrite (try_body_setup _ _ _ _ p Hsf Hp) in Hrun.
      remember (N.to_nat num_iters) as n eqn:Hn. clear Hn.
      destruct (for_range n 0%N
                  (fun idx => step fuel len (steps ae idx) idx)
                  (after_setup l p)) as [[t1 l1] r1] eqn:Hloop.
      pose proof (for_range_ends _ _ _ _ _ _ _ _ _ Hloop) as Hends.
      destruct r1 as [[]|o|ex|].
      * rewrite (bind_ok _ _ _ _ _ _ Hloop) in Hrun.
        match type of Hrun with prepend _ (prepend _ (?f ?x)) = _ =>
          assert (Hfin : f x = ([LogScore (weighted_scores (scores x))], x,
                                Return Success))
            by (do 2 mrun; reflexivity)
        end.
        rewrite Hfin in Hrun. unfold prepend in Hrun.
        apply triple_eq in Hrun as (<- & <- & <-).
        right. split; [reflexivity|]. eexists. intro pre.
        rewrite !app_assoc. apply terminal_score_last.
      * rewrite (bind_return _ _ _ _ _ _ Hloop) in Hrun.
        unfold prepend in Hrun. apply triple_eq in Hrun as (<- & <- & <-).
        destruct Hends as [-> Hends]. left. split; [reflexivity|].
        apply terminal_after_app, Hends.
      * rewrite (bind_raise _ _ _ _ _ _ Hloop) in Hrun.
        unfold prepend in Hrun. apply triple_eq in Hrun as (<- & <- & <-).
        apply terminal_after_app, Hends.
      * rewrite (bind_hang _ _ _ _ _ Hloop) in Hrun.
        unfold prepend in Hrun. apply triple_eq in Hrun as (<- & <- & <-).
        exact I.
  - destruct (setup_fault ae) as [[[] e]|] eqn:Hsf.
    1: { rewrite (try_body_pipeline_fault _ _ _ _ _ Hsf) in Hrun.
         apply triple_eq in Hrun as (<- & <- & <-).
         intro pre. apply terminal_score_quiet_end. discriminate. }
    all: rewrite (try_body_hang _ _ _ _
                    ltac:(intros e' He'; rewrite Hsf in He'; discriminate) Hp)
           in Hrun;
      apply triple_eq in Hrun as (<- & <- & <-); exact I.
Qed.

Lemma attempt_ends (fuel : nat) (e : env) (k : nat)
    (l l' : locals) (t : list action) (r : res unit) :
  attempt fuel e k l = (t, l', r) -> pass_ends t r.
Proof.
  unfold attempt, try_except. intro Hrun.
  destruct (try_body fuel (dataset_len e) (attempts e k) l)
    as [[t1 l1] r1] eqn:Hbody.
  apply try_body_ends in Hbody.
  destruct r1 as [a|o|ex|].
  - contradiction.
  - apply triple_eq in Hrun as (<- & <- & <-).
    destruct Hbody as [[-> H]|[-> H]]; exact H.
  - destruct ex as [msg|name|msg'];
      try (apply triple_eq in Hrun as (<- & <- & <-); exact Hbody).
    destruct (past_cutoff l1) eqn:Hc.
    { rewrite (handler_cutoff msg l1 Hc) in Hrun.
      apply triple_eq in Hrun as (<- & <- & <-).
      intro pre. rewrite app_nil_r. apply Hbody. }
    destruct (contains oom_text msg) eqn:Hm.
    2: { rewrite (handler_other msg l1 Hc Hm) in Hrun.
         apply triple_eq in Hrun as (<- & <- & <-).
         intro pre. rewrite app_assoc.
         apply terminal_score_quiet_end. discriminate. }
    destruct (Qlt_bool (batch_size l1 / 2) 1) eqn:Hq.
    { rewrite (handler_memory_exit msg l1 Hc Hm Hq) in Hrun.
      apply triple_eq in Hrun as (<- & <- & <-).
      intro pre.
      change [Print DoesNotFit; LogScore penalty]
        with ([Print DoesNotFit] ++ [LogScore penalty]).
      rewrite !app_assoc. apply terminal_score_last. }
    rewrite (handler_retry msg l1 Hc Hm Hq) in Hrun.
    destruct (vae l1), (vae_optim l1);
      apply triple_eq in Hrun as (<- & <- & <-); try exact I;
      intro pre; rewrite app_assoc;
      apply terminal_score_quiet_end; discriminate.
  - apply triple_eq in Hrun as (<- & <- & <-). exact I.
Qed.

Lemma while_ends (fuel : nat) (e : env) (n : nat) :
  forall k l t l' r,
  1 <= batch_size l ->
  while_loop n fuel e k l = (t, l', r) ->
  r <> Ok tt /\ pass_ends t r.
Proof.
  induction n as [|n IH]; intros k l t l' r H1 Hrun.
  - apply triple_eq in Hrun as (<- & <- & <-). split; [discriminate|exact I].
  - rewrite while_S in Hrun.
    apply Qle_bool_iff in H1. rewrite H1 in Hrun.
    destruct (attempt fuel e k l) as [[t1 l1] r1] eqn:Hatt.
    pose proof (attempt_ends _ _ _ _ _ _ _ Hatt) as Hends.
    pose proof (attempt_general _ _ _ _ _ _ _ Hatt) as (_ & _ & Hok).
    destruct r1 as [[]|o|ex|].
    + rewrite (bind_ok _ _ _ _ _ _ Hatt) in Hrun.
      destruct (while_loop n fuel e (S k) l1) as [[t2 l2] r2] eqn:Hrest.
      unfold prepend in Hrun. apply triple_eq in Hrun as (<- & <- & <-).
      destruct (Hok eq_refl) as [Hb1 Hq].
      unfold Qlt_bool in Hq. apply negb_false_iff, Qle_bool_iff in Hq.
      rewrite <- Hb1 in Hq.
      destruct (IH _ _ _ _ _ Hq Hrest) as [Hr2 He2].
      split; [exact Hr2|].
      destruct r2 as [[]|[]|ex|]; cbn [pass_ends] in *; try exact I;
        try contradiction;
        try (destruct He2 as [v He2]; exists v);
        apply terminal_after_app, He2.
    + rewrite (bind_return _ _ _ _ _ _ Hatt) in Hrun.
      apply triple_eq in Hrun as (<- & <- & <-).
      split; [discriminate|exact Hends].
    + rewrite (bind_raise _ _ _ _ _ _ Hatt) in Hrun.
      apply triple_eq in Hrun as (<- & <- & <-).
      split; [discriminate|exact Hends].
    + rewrite (bind_hang _ _ _ _ _ Hatt) in Hrun.
      apply triple_eq in Hrun as (<- & <- & <-).
      split; [discriminate|exact I].
Qed.

(** X5: how a run ends, by its exit, in any environment.  The last action
    of [train] is the logging of a score exactly on the three exits that log
    one: of the weighted score on success (line 294), of the penalty 27000
    on the NaN exit (line 288) and on the memory exit (line 307).  On the
    cutoff exit (line 300), after another [RuntimeError] (line 320) and when
    an exception leaves [train], the last action is not the logging of a
    score.  And [train] never ends by the condition of its [while] loop
    becoming false. *)
Theorem last_action_by_exit (fuel : nat) (e : env) :
  run_ends (fst (train fuel e)) (snd (train fuel e)).
Proof.
  unfold train.
  destruct (while_loop fuel fuel e 0 initial_locals) as [[t l'] r] eqn:Hrun.
  cbn [fst snd].
  destruct (while_ends fuel e fuel 0%nat initial_locals t l' r) as [Hr He];
    [discriminate|exact Hrun|].
  destruct r as [[]|[]|ex|]; cbn [ending_of run_ends pass_ends] in *;
    try exact I; try contradiction;
    try (destruct He as [v He]; exists v);
    apply (He []).
Qed.

(** *** The pass in which a run ends *)

Lemma while_inv (fuel : nat) (e : env) (n : nat) :
  forall k pre l t l' r,
  reach fuel e k = Some (pre, l) ->
  while_loop n fuel e k l = (t, l', r) ->
  r <> Hang ->
  exists k' pre' l0 tk,
    reach fuel e k' = Some (pre', l0)
    /\ attempt fuel e k' l0 = (tk, l', r)
    /\ pre ++ t = pre' ++ tk.
Proof.
  induction n as [|n IH]; intros k pre l t l' r Hreach Hrun Hr.
  - apply triple_eq in Hrun as (_ & _ & <-). contradiction.
  - rewrite while_S in Hrun.
    destruct (reach_invariant _ _ _ _ _ Hreach) as [_ H1].
    apply Qle_bool_iff in H1. rewrite H1 in Hrun.
    destruct (attempt fuel e k l) as [[t1 l1] r1] eqn:Hatt.
    destruct r1 as [[]|o|ex|].
    + rewrite (bind_ok _ _ _ _ _ _ Hatt) in Hrun.
      destruct (while_loop n fuel e (S k) l1) as [[t2 l2] r2] eqn:Hrest.
      unfold prepend in Hrun. apply triple_eq in Hrun as (<- & <- & <-).
      assert (Hnext : reach fuel e (S k) = Some (pre ++ t1, l1)).
      { cbn [reach]. rewrite Hreach, H1, Hatt. reflexivity. }
      destruct (IH _ _ _ _ _ _ Hnext Hrest Hr) as (k' & pre' & l0 & tk & H).
      exists k', pre', l0, tk. rewrite app_assoc. exact H.
    + rewrite (bind_return _ _ _ _ _ _ Hatt) in Hrun.
      apply triple_eq in Hrun as (<- & <- & <-).
      exists k, pre, l, t1. auto.
    + rewrite (bind_raise _ _ _ _ _ _ Hatt) in Hrun.
      apply triple_eq in Hrun as (<- & <- & <-).
      exists k, pre, l, t1. auto.
    + rewrite (bind_hang _ _ _ _ _ Hatt) in Hrun.
      apply triple_eq in Hrun as (<- & <- & <-).
      exists k, pre, l, t1. auto.
Qed.

Lemma train_inv (fuel : nat) (e : env) :
  snd (train fuel e) <> OutOfFuel ->
  exists k pre l tk l' r,
    reach fuel e k = Some (pre, l)
    /\ attempt fuel e k l = (tk, l', r)
    /\ train fuel e = (pre ++ tk, ending_of r)
    /\ r <> Ok tt.
Proof.
  unfold train.
  destruct (while_loop fuel fuel e 0 initial_locals) as [[t l'] r] eqn:Hrun.
  cbn [snd]. intro Hend.
  assert (Hr : r <> Hang) by (intros ->; apply Hend; reflexivity).
  destruct (while_inv fuel e fuel 0%nat [] initial_locals t l' r
              eq_refl Hrun Hr) as (k & pre & l & tk & Hreach & Hatt & Heq).
  destruct (while_ends fuel e fuel 0%nat initial_locals t l' r) as [Hok _];
    [discriminate|exact Hrun|].
  exists k, pre, l, tk, l', r. cbn [app] in Heq. rewrite Heq. auto.
Qed.

Lemma attempt_memory_exit (fuel : nat) (e : env) (k : nat)
    (l l' : locals) (t : list action) :
  attempt fuel e k l = (t, l', Return MemoryExit) ->
  Qlt_bool (batch_size l / 2) 1 = true.
Proof.
  unfold attempt, try_except. intro Hrun.
  destruct (try_body fuel (dataset_len e) (attempts e k) l)
    as [[t1 l1] r1] eqn:Hbody.
  pose proof (try_body_ends _ _ _ _ _ _ _ Hbody) as Hends.
  apply try_body_tidy in Hbody as (_ & Hb & _).
  destruct r1 as [a|o|ex|].
  - contradiction.
  - apply triple_eq in Hrun as (_ & _ & Ho).
    destruct Hends as [[-> _]|[-> _]]; discriminate.
  - destruct ex as [msg|name|msg']; try (apply triple_eq in Hrun as (_ & _ & Ho); discriminate).
    destruct (past_cutoff l1) eqn:Hc.
    { rewrite (handler_cutoff msg l1 Hc) in Hrun.
      apply triple_eq in Hrun as (_ & _ & Ho). discriminate. }
    destruct (contains oom_text msg) eqn:Hm.
    2: { rewrite (handler_other msg l1 Hc Hm) in Hrun.
         apply triple_eq in Hrun as (_ & _ & Ho). discriminate. }
    destruct (Qlt_bool (batch_size l1 / 2) 1) eqn:Hq.
    { rewrite <- Hb. exact Hq. }
    rewrite (handler_retry msg l1 Hc Hm Hq) in Hrun.
    destruct (vae l1), (vae_optim l1);
      apply triple_eq in Hrun as (_ & _ & Ho); discriminate.
  - apply triple_eq in Hrun as (_ & _ & Ho). discriminate.
Qed.

Lemma while_sizes (fuel : nat) (e : env) (n : nat) :
  forall k l t l' r,
  batch_size l == halved k -> 1 <= batch_size l ->
  while_loop n fuel e k l = (t, l', r) ->
  exists m,
    (k + m <= 10)%nat
    /\ Forall2 Qeq (attempt_sizes t) (map halved (seq k m))
    /\ (r = Return MemoryExit -> (k + m = 10)%nat).
Proof.
  induction n as [|n IH]; intros k l t l' r Hb H1 Hrun;
    assert (Hk : (k <= 9)%nat) by (apply halved_ge_1; rewrite <- Hb; exact H1).
  - apply triple_eq in Hrun as (<- & _ & <-).
    exists 0%nat. split; [lia|]. split; [constructor|discriminate].
  - rewrite while_S in Hrun.
    assert (Hc : Qle_bool 1 (batch_size l) = true) by (apply Qle_bool_iff, H1).
    rewrite Hc in Hrun.
    destruct (attempt fuel e k l) as [[t1 l1] r1] eqn:Hatt.
    pose proof (attempt_general _ _ _ _ _ _ _ Hatt)
      as ((t1' & -> & (Hsz & _)) & _ & Hok).
    assert (Hone : Forall2 Qeq
                     (attempt_sizes (Attempt (batch_size l) :: t1'))
                     (map halved (seq k 1))).
    { cbn [attempt_sizes seq map]. rewrite Hsz.
      constructor; [exact Hb|constructor]. }
    destruct r1 as [[]|o|ex|].
    + rewrite (bind_ok _ _ _ _ _ _ Hatt) in Hrun.
      destruct (while_loop n fuel e (S k) l1) as [[t2 l2] r2] eqn:Hrest.
      unfold prepend in Hrun. apply triple_eq in Hrun as (<- & <- & <-).
      destruct (Hok eq_refl) as [Hb1 Hq].
      unfold Qlt_bool in Hq. apply negb_false_iff, Qle_bool_iff in Hq.
      rewrite <- Hb1 in Hq.
      assert (Hb' : batch_size l1 == halved (S k))
        by (rewrite Hb1, halved_S, Hb; reflexivity).
      destruct (IH _ _ _ _ _ Hb' Hq Hrest) as (m & Hm & Hs & Hx).
      exists (S m). split; [lia|]. split; [|intro Hr; specialize (Hx Hr); lia].
      rewrite attempt_sizes_app.
      change (seq k (S m)) with (seq k 1 ++ seq (S k) m). rewrite map_app.
      apply Forall2_app; assumption.
    + rewrite (bind_return _ _ _ _ _ _ Hatt) in Hrun.
      apply triple_eq in Hrun as (<- & <- & <-).
      exists 1%nat. split; [lia|]. split; [exact Hone|].
      intro Ho. injection Ho as ->.
      apply attempt_memory_exit in Hatt.
      unfold Qlt_bool in Hatt. apply negb_true_iff in Hatt.
      destruct (Nat.eq_dec k 9) as [->|Hne]; [reflexivity|exfalso].
      assert (Hle : 1 <= halved (S k)) by (apply halved_ge_1; lia).
      rewrite halved_S, <- Hb in Hle. apply Qle_bool_iff in Hle.
      rewrite Hle in Hatt. discriminate.
    + rewrite (bind_raise _ _ _ _ _ _ Hatt) in Hrun.
      apply triple_eq in Hrun as (<- & <- & <-).
      exists 1%nat. split; [lia|]. split; [exact Hone|discriminate].
    + rewrite (bind_hang _ _ _ _ _ Hatt) in Hrun.
      apply triple_eq in Hrun as (<- & <- & <-).
      exists 1%nat. split; [lia|]. split; [exact Hone|discriminate].
Qed.

(** X6: in every run the passes of the [while] loop start with the batch
    sizes 512, 256, 128, ... in this order, whatever makes a pass end: the
    [j]-th pass has the size [512 / 2^j], there are at most ten passes, and
    the run takes the memory exit (line 308) only in the tenth, the pass of
    batch size 1. *)
Theorem pass_sizes_are_halvings (fuel : nat) (e : env) :
  exists m,
    (m <= 10)%nat
    /\ Forall2 Qeq (attempt_sizes (fst (train fuel e)))
         (map halved (seq 0 m))
    /\ (snd (train fuel e) = Finished MemoryExit -> m = 10%nat).
Proof.
  unfold train.
  destruct (while_loop fuel fuel e 0 initial_locals) as [[t l'] r] eqn:Hrun.
  cbn [fst snd].
  destruct (while_sizes fuel e fuel 0%nat initial_locals t l' r)
    as (m & Hm & Hs & Hx); [reflexivity|discriminate|exact Hrun|].
  exists m. split; [lia|]. split; [exact Hs|].
  intro Hr. destruct r as [[]|[]|ex|]; try discriminate.
  exact (Hx eq_refl).
Qed.

(** *** The handler, case by case *)

Lemma handler_cases (msg : string) (l : locals) :
  forall t l' r, handler msg l = (t, l', r) ->
  (past_cutoff l = true /\ t = [] /\ l' = l /\ r = Return CutoffExit)
  \/ (past_cutoff l = false /\ contains oom_text msg = false
      /\ t = [Print (Shown (RuntimeError msg))] /\ l' = l
      /\ r = Return OtherExit)
  \/ (past_cutoff l = false /\ contains oom_text msg = true
      /\ Qlt_bool (batch_size l / 2) 1 = true
      /\ t = [Print DoesNotFit; LogScore penalty]
      /\ r = Return MemoryExit)
  \/ (past_cutoff l = false /\ contains oom_text msg = true
      /\ Qlt_bool (batch_size l / 2) 1 = false
      /\ ((vae l = Unbound /\ t = [Print (Halving (batch_size l / 2))]
           /\ r = Raise (UnboundLocalError "vae"))
          \/ (vae l <> Unbound /\ vae_optim l = Unbound
              /\ t = [Print (Halving (batch_size l / 2))]
              /\ r = Raise (UnboundLocalError "vae_optim"))
          \/ (vae l <> Unbound /\ vae_optim l <> Unbound
              /\ t = [Print (Halving (batch_size l / 2)); CollectGarbage]
              /\ l' = after_retry l /\ r = Ok tt))).
Proof.
  intros t l' r Hrun.
  destruct (past_cutoff l) eqn:Hc.
  { rewrite (handler_cutoff msg l Hc) in Hrun.
    apply triple_eq in Hrun as (<- & <- & <-). left. auto. }
  destruct (contains oom_text msg) eqn:Hm.
  2: { rewrite (handler_other msg l Hc Hm) in Hrun.
       apply triple_eq in Hrun as (<- & <- & <-). right. left. auto. }
  destruct (Qlt_bool (batch_size l / 2) 1) eqn:Hq.
  { rewrite (handler_memory_exit msg l Hc Hm Hq) in Hrun.
    apply triple_eq in Hrun as (<- & <- & <-). right. right. left. auto. }
  rewrite (handler_retry msg l Hc Hm Hq) in Hrun.
  do 3 right. repeat (split; [reflexivity|]).
  destruct (vae l) eqn:Hv, (vae_optim l) eqn:Hvo;
    apply triple_eq in Hrun as (<- & <- & <-);
    first [ left; repeat split; reflexivity
          | right; left; repeat split; (reflexivity || discriminate)
          | right; right; repeat split; (reflexivity || discriminate) ].
Qed.

Lemma attempt_inv (fuel : nat) (e : env) (k : nat)
    (l l' : locals) (t : list action) (r : res unit) :
  attempt fuel e k l = (t, l', r) ->
  (try_body fuel (dataset_len e) (attempts e k) l = (t, l', r)
   /\ forall msg, r <> Raise (RuntimeError msg))
  \/ exists t1 l1 msg t2,
       try_body fuel (dataset_len e) (attempts e k) l
         = (t1, l1, Raise (RuntimeError msg))
       /\ handler msg l1 = (t2, l', r)
       /\ t = t1 ++ t2.
Proof.
  unfold attempt, try_except. intro Hrun.
  destruct (try_body fuel (dataset_len e) (attempts e k) l)
    as [[t1 l1] r1] eqn:Hbody.
  destruct r1 as [a|o|[msg|name|msg']|];
    try (left; split; [exact Hrun|];
         apply triple_eq in Hrun as (_ & _ & <-); discriminate).
  right. destruct (handler msg l1) as [[t2 l2] r2] eqn:Hh.
  apply triple_eq in Hrun as (<- & <- & <-).
  exists t1, l1, msg, t2. auto.
Qed.

(** [i] outlives a pass, but a pass never starts with [i > 10_000]. *)
Lemma reach_cutoff (fuel : nat) (e : env) (k : nat) :
  forall pre l, reach fuel e k = Some (pre, l) -> past_cutoff l = false.
Proof.
  induction k as [|k IH]; intros pre l Hreach.
  - injection Hreach as <- <-. reflexivity.
  - cbn [reach] in Hreach.
    destruct (reach fuel e k) as [[t0 l0]|]; [|discriminate].
    destruct (Qle_bool 1 (batch_size l0)); [|discriminate].
    destruct (attempt fuel e k l0) as [[t1 l1] r1] eqn:Hatt.
    destruct r1 as [[]| | |]; try discriminate.
    injection Hreach as <- <-.
    apply attempt_inv in Hatt as [[Hbody _]|(t2 & l2 & msg & t3 & _ & Hh & _)].
    + apply try_body_tidy in Hbody as (_ & _ & Hok & _). contradiction.
    + apply handler_cases in Hh
        as [(_ & _ & _ & H)|[(_ & _ & _ & _ & H)|[(_ & _ & _ & _ & H)
           |(Hc & _ & _ & [(_ & _ & H)|[(_ & _ & _ & H)|(_ & _ & _ & -> & _)]])]]];
        try discriminate.
      exact Hc.
Qed.

(** X7: a run reports success only after a pass of the [while] loop in which
    nothing was raised before or in the [for] loop and no loss was NaN in any
    of the 20000 steps; the trace of the run ends with the actions of that
    pass and the weighted score of its six samples. *)
Theorem success_needs_clean_pass (fuel : nat) (e : env) :
  (512 <= dataset_len e)%N ->
  (10 <= fuel)%nat ->
  snd (train fuel e) = Finished Success ->
  exists k pre l,
    reach fuel e k = Some (pre, l)
    /\ setup_fault (attempts e k) = None
    /\ (forall j, (j < num_iters)%N -> clean (steps (attempts e k) j) j)
    /\ train fuel e =
         (pre ++ setup_actions (batch_size l)
              ++ clean_actions (py_int (batch_size l)) (steps (attempts e k))
                   (N.to_nat num_iters) 0%N
              ++ [LogScore (weighted_scores
                              (map (fun j => score (steps (attempts e k) j))
                                   sample_steps))],
          Finished Success).
Proof.
  intros Hlen Hfuel Hend.
  destruct (train_inv fuel e) as (k & pre & l & tk & l' & r & Hreach & Hatt
                                  & Htrain & _).
  { rewrite Hend. discriminate. }
  rewrite Htrain in Hend. cbn [snd] in Hend.
  destruct r as [[]|o|ex|]; try discriminate. injection Hend as ->.
  exists k, pre, l. split; [exact Hreach|].
  assert (Hbody : try_body fuel (dataset_len e) (attempts e k) l
                  = (tk, l', Return Success)).
  { apply attempt_inv in Hatt as [[Hbody _]|(t1 & l1 & msg & t2 & _ & Hh & _)];
      [exact Hbody|].
    apply handler_cases in Hh
      as [(_ & _ & _ & H)|[(_ & _ & _ & _ & H)|[(_ & _ & _ & _ & H)
         |(_ & _ & _ & [(_ & _ & H)|[(_ & _ & _ & H)|(_ & _ & _ & _ & H)]])]]];
      discriminate. }
  apply try_body_return_inv in Hbody as (Hsf & [[_ Hclean]|[Ho _]]);
    [|discriminate| |lia].
  2: exact (reach_generator _ _ _ _ _ Hreach Hlen).
  split; [exact Hsf|]. split; [exact Hclean|].
  exact (proj1 (clean_pass fuel e k pre l Hreach Hfuel Hlen Hsf Hclean)).
Qed.

Lemma success_needs_clean_pass_witness :
  (512 <= dataset_len plain_env)%N
  /\ (10 <= 10)%nat
  /\ snd (train 10 plain_env) = Finished Success
  /\ exists k pre l,
       reach 10 plain_env k = Some (pre, l)
       /\ setup_fault (attempts plain_env k) = None
       /\ (forall j, (j < num_iters)%N ->
             clean (steps (attempts plain_env k) j) j)
       /\ train 10 plain_env =
            (pre ++ setup_actions (batch_size l)
                 ++ clean_actions (py_int (batch_size l))
                      (steps (attempts plain_env k))
                      (N.to_nat num_iters) 0%N
                 ++ [LogScore (weighted_scores
                                 (map (fun j =>
                                         score (steps (attempts plain_env k) j))
                                      sample_steps))],
             Finished Success).
Proof.
  assert (H1 : (512 <= dataset_len plain_env)%N) by (simpl; lia).
  assert (H2 : (10 <= 10)%nat) by lia.
  assert (H3 : snd (train 10 plain_env) = Finished Success)
    by (vm_compute; reflexivity).
  repeat (split; [assumption|]).
  exact (success_needs_clean_pass 10 plain_env H1 H2 H3).
Defined.

(** X8: a run takes the NaN exit (line 289) only when, in its last pass, a
    step whose loss is NaN ran to the check of line 286 without raising,
    after steps that raised nothing and had no NaN loss; the penalty is
    logged right after the actions of that step. *)
Theorem nan_exit_needs_nan_loss (fuel : nat) (e : env) :
  (512 <= dataset_len e)%N ->
  (10 <= fuel)%nat ->
  snd (train fuel e) = Finished NanExit ->
  exists k pre l n,
    reach fuel e k = Some (pre, l)
    /\ (n < num_iters)%N
    /\ (forall j, (j < n)%N -> clean (steps (attempts e k) j) j)
    /\ raises (steps (attempts e k) n) n = None
    /\ loss_nan (steps (attempts e k) n) = true
    /\ train fuel e =
         (pre ++ setup_actions (batch_size l)
              ++ clean_actions (py_int (batch_size l)) (steps (attempts e k))
                   (N.to_nat n) 0%N
              ++ Iter n :: step_actions (py_int (batch_size l))
                             (steps (attempts e k) n) n ++ nan_actions,
          Finished NanExit).
Proof.
  intros Hlen Hfuel Hend.
  destruct (train_inv fuel e) as (k & pre & l & tk & l' & r & Hreach & Hatt
                                  & Htrain & _).
  { rewrite Hend. discriminate. }
  rewrite Htrain in Hend. cbn [snd] in Hend.
  destruct r as [[]|o|ex|]; try discriminate. injection Hend as ->.
  assert (Hbody : try_body fuel (dataset_len e) (attempts e k) l
                  = (tk, l', Return NanExit)).
  { apply attempt_inv in Hatt as [[Hbody _]|(t1 & l1 & msg & t2 & _ & Hh & _)];
      [exact Hbody|].
    apply handler_cases in Hh
      as [(_ & _ & _ & H)|[(_ & _ & _ & _ & H)|[(_ & _ & _ & _ & H)
         |(_ & _ & _ & [(_ & _ & H)|[(_ & _ & _ & H)|(_ & _ & _ & _ & H)]])]]];
      discriminate. }
  apply try_body_return_inv in Hbody
    as (Hsf & [[Ho _]|[_ (n & Hn & Hclean & Hnr & Hnan)]]);
    [discriminate| | |lia].
  2: exact (reach_generator _ _ _ _ _ Hreach Hlen).
  exists k, pre, l, n. repeat (split; [assumption|]).
  exact (nan_pass fuel e k pre l n Hreach Hfuel Hlen Hsf Hn Hclean Hnr Hnan).
Qed.

Lemma nan_exit_needs_nan_loss_witness :
  (512 <= dataset_len nan_at_12000)%N
  /\ (10 <= 10)%nat
  /\ snd (train 10 nan_at_12000) = Finished NanExit
  /\ exists k pre l n,
       reach 10 nan_at_12000 k = Some (pre, l)
       /\ (n < num_iters)%N
       /\ (forall j, (j < n)%N -> clean (steps (attempts nan_at_12000 k) j) j)
       /\ raises (steps (attempts nan_at_12000 k) n) n = None
       /\ loss_nan (steps (attempts nan_at_12000 k) n) = true
       /\ train 10 nan_at_12000 =
            (pre ++ setup_actions (batch_size l)
                 ++ clean_actions (py_int (batch_size l))
                      (steps (attempts nan_at_12000 k)) (N.to_nat n) 0%N
                 ++ Iter n :: step_actions (py_int (batch_size l))
                                (steps (attempts nan_at_12000 k) n) n
                 ++ nan_actions,
             Finished NanExit).
Proof.
  assert (H1 : (512 <= dataset_len nan_at_12000)%N) by (simpl; lia).
  assert (H2 : (10 <= 10)%nat) by lia.
  assert (H3 : snd (train 10 nan_at_12000) = Finished NanExit)
    by (vm_compute; reflexivity).
  repeat (split; [assumption|]).
  exact (nan_exit_needs_nan_loss 10 nan_at_12000 H1 H2 H3).
Defined.

(** X9: with fewer than 512 samples the loader of the first pass, built with
    [drop_last=True], has no batch, so that the generator of [sample_data]
    never yields: unless building the pipeline raises, [train] does not
    return, whatever the fuel; it stops at the first [next(loader)], after
    the loader of the first pass is built. *)
Theorem short_dataset_never_returns (e : env) :
  (dataset_len e < 512)%N ->
  (forall ex, setup_fault (attempts e 0) <> Some (SPipeline, ex)) ->
  forall fuel,
    snd (train fuel e) = OutOfFuel
    /\ ((1 <= fuel)%nat ->
        fst (train fuel e) = [Attempt 512; BuildLoader 512]).
Proof.
  intros Hlen Hsf fuel. unfold train.
  destruct fuel as [|fuel]; [split; [reflexivity|lia]|].
  rewrite while_S.
  change (Qle_bool 1 (batch_size initial_locals)) with true. cbv iota.
  assert (Hatt : attempt (S fuel) e 0 initial_locals
                 = ([Attempt 512; BuildLoader 512],
                    set_loader 0%N initial_locals, Hang)).
  { unfold attempt, try_except.
    rewrite try_body_hang; [reflexivity|exact Hsf|].
    change (py_int (batch_size initial_locals)) with 512%Z.
    unfold batches_per_pass. change (Z.to_N 512) with 512%N.
    rewrite N.div_small by exact Hlen. apply sample_data_empty. }
  rewrite (bind_hang _ _ _ _ _ Hatt). split; reflexivity.
Qed.

Lemma short_dataset_never_returns_witness :
  (dataset_len small_dataset < 512)%N
  /\ (forall ex, setup_fault (attempts small_dataset 0) <> Some (SPipeline, ex))
  /\ forall fuel,
       snd (train fuel small_dataset) = OutOfFuel
       /\ ((1 <= fuel)%nat ->
           fst (train fuel small_dataset) = [Attempt 512; BuildLoader 512]).
Proof.
  assert (H1 : (dataset_len small_dataset < 512)%N) by (simpl; lia).
  assert (H2 : forall ex,
             setup_fault (attempts small_dataset 0) <> Some (SPipeline, ex))
    by (intro ex; simpl; discriminate).
  split; [exact H1|]. split; [exact H2|].
  exact (short_dataset_never_returns small_dataset H1 H2).
Defined.

(** X10: a CUDA out-of-memory error raised before line 218 binds [vae], while
    the pipeline is built or the sample images are logged, in a pass that
    starts with [vae] unbound (the first pass, or a pass after [del vae]) and
    with a batch size of at least 2: the handler halves the batch size,
    prints the halving and then reads [vae] in [if vae is not None], which
    raises [UnboundLocalError]; the exception leaves [train] and no retry
    happens. *)
Theorem early_memory_error_is_unbound_local (fuel : nat) (e : env) (k : nat)
    (pre : list action) (l : locals) (sp : setup_point) (msg : string) :
  reach fuel e k = Some (pre, l) ->
  (k < fuel)%nat ->
  (k < 9)%nat ->
  vae l = Unbound ->
  setup_fault (attempts e k) = Some (sp, RuntimeError msg) ->
  contains oom_text msg = true ->
  sp = SPipeline
  \/ (sp = SSample /\ (512 <= dataset_len e)%N /\ (2 <= fuel)%nat) ->
  train fuel e =
    (pre ++ setup_prefix (batch_size l) sp
         ++ [Print (Halving (batch_size l / 2))],
     Uncaught (UnboundLocalError "vae")).
Proof.
  intros Hreach Hk Hk9 Hv Hsf Hm Hsp.
  destruct (reach_invariant _ _ _ _ _ Hreach) as [Hb H1].
  pose proof (reach_cutoff _ _ _ _ _ Hreach) as Hc.
  assert (Hq : Qlt_bool (batch_size l / 2) 1 = false).
  { unfold Qlt_bool. apply negb_false_iff, Qle_bool_iff.
    rewrite Hb, <- halved_S. apply halved_ge_1. lia. }
  assert (Hbody : exists l1,
             try_body fuel (dataset_len e) (attempts e k) l
               = (setup_prefix (batch_size l) sp, l1,
                  Raise (RuntimeError msg))
             /\ batch_size l1 = batch_size l /\ i l1 = i l /\ vae l1 = vae l).
  { destruct Hsp as [->|(-> & Hlen & Hfuel)].
    - exists l. split; [|auto]. apply try_body_pipeline_fault, Hsf.
    - destruct (sample_data_yields fuel
                  (batches_per_pass (dataset_len e) (py_int (batch_size l)))
                  0%N) as [p Hp];
        [exact (reach_generator _ _ _ _ _ Hreach Hlen)|exact Hfuel|].
      exists (setup_locals l p SSample). split; [|auto].
      apply (try_body_fault _ _ _ _ p _ _ Hsf); [discriminate|exact Hp]. }
  destruct Hbody as (l1 & Hbody & Hb1 & Hi1 & Hv1).
  assert (Hc1 : past_cutoff l1 = false)
    by (unfold past_cutoff in *; rewrite Hi1; exact Hc).
  rewrite <- Hb1 in Hq.
  pose proof (handler_retry msg l1 Hc1 Hm Hq) as Hh.
  rewrite Hv1, Hv, Hb1 in Hh.
  pose proof (attempt_handled _ _ _ _ _ _ _ Hbody) as Hatt.
  rewrite Hh in Hatt. unfold prepend in Hatt.
  rewrite (train_ends fuel e k pre _ l _ _ Hreach Hk Hatt); [|discriminate].
  reflexivity.
Qed.

Lemma early_memory_error_is_unbound_local_witness :
  let e := oom_at_first_batch in
  let msg := "CUDA out of memory"%string in
  reach 10 e 0 = Some ([], initial_locals)
  /\ (0 < 10)%nat
  /\ (0 < 9)%nat
  /\ vae initial_locals = Unbound
  /\ setup_fault (attempts e 0) = Some (SSample, RuntimeError msg)
  /\ contains oom_text msg = true
  /\ (SSample = SPipeline
      \/ (SSample = SSample /\ (512 <= dataset_len e)%N /\ (2 <= 10)%nat))
  /\ train 10 e =
       ([] ++ setup_prefix (batch_size initial_locals) SSample
           ++ [Print (Halving (batch_size initial_locals / 2))],
        Uncaught (UnboundLocalError "vae")).
Proof.
  intros e msg.
  assert (H1 : reach 10 e 0 = Some ([], initial_locals)) by reflexivity.
  assert (H2 : (0 < 10)%nat) by lia.
  assert (H3 : (0 < 9)%nat) by lia.
  assert (H4 : vae initial_locals = Unbound) by reflexivity.
  assert (H5 : setup_fault (attempts e 0) = Some (SSample, RuntimeError msg))
    by reflexivity.
  assert (H6 : contains oom_text msg = true) by reflexivity.
  assert (H7 : SSample = SPipeline
               \/ (SSample = SSample /\ (512 <= dataset_len e)%N
                   /\ (2 <= 10)%nat)).
  { right. split; [reflexivity|]. split; [simpl; lia|lia]. }
  repeat (split; [assumption|]).
  exact (early_memory_error_is_unbound_local 10 e 0 [] initial_locals SSample
           msg H1 H2 H3 H4 H5 H6 H7).
Defined.

(** X11: an exception of the [try] body that is no memory error ends the
    run, whatever the batch size.  A [RuntimeError] whose text does not
    contain ["CUDA out of memory"] is printed (line 319) and [train]
    returns, or returns without printing when [i > 10_000]; an exception
    that is no [RuntimeError] is not caught and leaves [train].  Nothing is
    logged after the exception. *)
Theorem errors_other_than_memory_end_the_run (fuel : nat) (e : env)
    (k : nat) (pre t : list action) (l l' : locals) (ex : exn) :
  reach fuel e k = Some (pre, l) ->
  (k < fuel)%nat ->
  try_body fuel (dataset_len e) (attempts e k) l = (t, l', Raise ex) ->
  match ex with
  | RuntimeError msg =>
      contains oom_text msg = false ->
      train fuel e =
        if past_cutoff l' then (pre ++ t, Finished CutoffExit)
        else (pre ++ t ++ [Print (Shown (RuntimeError msg))],
              Finished OtherExit)
  | _ => train fuel e = (pre ++ t, Uncaught ex)
  end.
Proof.
  intros Hreach Hk Hbody.
  destruct ex as [msg|name|msg'].
  - intro Hm.
    pose proof (attempt_handled _ _ _ _ _ _ _ Hbody) as Hatt.
    destruct (past_cutoff l') eqn:Hc.
    + rewrite (handler_cutoff msg l' Hc) in Hatt. unfold prepend in Hatt.
      rewrite (train_ends fuel e k pre _ l _ _ Hreach Hk Hatt);
        [|discriminate].
      rewrite app_nil_r. reflexivity.
    + rewrite (handler_other msg l' Hc Hm) in Hatt. unfold prepend in Hatt.
      rewrite (train_ends fuel e k pre _ l _ _ Hreach Hk Hatt);
        [|discriminate].
      reflexivity.
  - assert (Hatt : attempt fuel e k l
                   = (t, l', Raise (UnboundLocalError name)))
      by (unfold attempt, try_except; rewrite Hbody; reflexivity).
    rewrite (train_ends fuel e k pre _ l _ _ Hreach Hk Hatt); [|discriminate].
    reflexivity.
  - assert (Hatt : attempt fuel e k l = (t, l', Raise (OtherError msg')))
      by (unfold attempt, try_except; rewrite Hbody; reflexivity).
    rewrite (train_ends fuel e k pre _ l _ _ Hreach Hk Hatt); [|discriminate].
    reflexivity.
Qed.

Lemma errors_other_than_memory_end_the_run_witness :
  exists t l',
    reach 10 device_lost_at_step_1 0 = Some ([], initial_locals)
    /\ (0 < 10)%nat
    /\ try_body 10 (dataset_len device_lost_at_step_1)
         (attempts device_lost_at_step_1 0) initial_locals
       = (t, l', Raise (RuntimeError "device lost"))
    /\ contains oom_text "device lost" = false
    /\ train 10 device_lost_at_step_1 =
         if past_cutoff l' then ([] ++ t, Finished CutoffExit)
         else ([] ++ t ++ [Print (Shown (RuntimeError "device lost"))],
               Finished OtherExit).
Proof.
  do 2 eexists.
  assert (H1 : reach 10 device_lost_at_step_1 0 = Some ([], initial_locals))
    by reflexivity.
  assert (H2 : (0 < 10)%nat) by lia.
  split; [exact H1|]. split; [exact H2|].
  match goal with |- ?A /\ _ =>
    assert (H3 : A) by (vm_compute; reflexivity) end.
  split; [exact H3|].
  assert (H4 : contains oom_text "device lost" = false) by reflexivity.
  split; [exact H4|].
  exact (errors_other_than_memory_end_the_run 10 device_lost_at_step_1 0 []
           _ initial_locals _ _ H1 H2 H3 H4).
Defined.

(** X12: the cutoff of line 299 is strict.  A CUDA out-of-memory error at a
    step [n <= 10000], the step 10000 included, of a pass with a batch size
    of at least 2 is retried: the handler prints the halving, deletes [vae]
    and [vae_optim], collects garbage, and the next pass starts with half
    the batch size, with both names unbound and with [i] still bound to
    [n]. *)
Theorem memory_error_up_to_cutoff_is_retried (fuel : nat) (e : env)
    (k : nat) (pre : list action) (l : locals) (n : N) (ph : phase)
    (msg : string) :
  reach fuel e k = Some (pre, l) ->
  (10 <= fuel)%nat ->
  (512 <= dataset_len e)%N ->
  (k < 9)%nat ->
  setup_fault (attempts e k) = None ->
  (n <= retry_cutoff)%N ->
  (forall j, (j < n)%N -> clean (steps (attempts e k) j) j) ->
  fault (steps (attempts e k) n) = Some (ph, RuntimeError msg) ->
  reached n ph = true ->
  contains oom_text msg = true ->
  exists l'',
    reach fuel e (S k) =
      Some (pre ++ (setup_actions (batch_size l)
                    ++ clean_actions (py_int (batch_size l))
                         (steps (attempts e k)) (N.to_nat n) 0%N
                    ++ Iter n :: raise_actions n ph)
                ++ [Print (Halving (batch_size l / 2)); CollectGarbage],
            l'')
    /\ batch_size l'' = batch_size l / 2
    /\ i l'' = Some n
    /\ vae l'' = Unbound /\ vae_optim l'' = Unbound.
Proof.
  intros Hreach Hfuel Hlen Hk9 Hsetup Hn Hclean Hf Hre Hm.
  pose proof (reach_generator _ _ _ _ _ Hreach Hlen) as Hgen.
  destruct (reach_invariant _ _ _ _ _ Hreach) as [Hb H1].
  assert (Hlt : (n < num_iters)%N)
    by (unfold retry_cutoff, num_iters in *; lia).
  destruct (try_body_raise fuel (dataset_len e) (attempts e k) l
              Hsetup Hgen ltac:(lia) n ph _ Hlt Hclean Hf Hre)
    as (l' & Hbody & Hb' & Hi & Hv & Hvo).
  apply attempt_handled with (k := k) in Hbody.
  assert (Hc : past_cutoff l' = false).
  { unfold past_cutoff. rewrite Hi. apply N.ltb_ge, Hn. }
  assert (Hq : Qlt_bool (batch_size l' / 2) 1 = false).
  { unfold Qlt_bool. apply negb_false_iff, Qle_bool_iff.
    rewrite Hb', Hb, <- halved_S. apply halved_ge_1. lia. }
  rewrite (handler_retry msg l' Hc Hm Hq), Hv, Hvo, Hb' in Hbody.
  unfold prepend in Hbody.
  exists (after_retry l'). split.
  - cbn [reach]. rewrite Hreach.
    apply Qle_bool_iff in H1. rewrite H1, Hbody.
    rewrite <- !app_assoc. reflexivity.
  - unfold after_retry. cbn [batch_size i vae vae_optim].
    rewrite Hb', Hi, Hv, Hvo. auto.
Qed.

Lemma memory_error_up_to_cutoff_is_retried_witness :
  let e := oom_at_10000 in
  let msg := "CUDA out of memory"%string in
  reach 10 e 0 = Some ([], initial_locals)
  /\ (10 <= 10)%nat
  /\ (512 <= dataset_len e)%N
  /\ (0 < 9)%nat
  /\ setup_fault (attempts e 0) = None
  /\ (10000 <= retry_cutoff)%N
  /\ (forall j, (j < 10000)%N -> clean (steps (attempts e 0) j) j)
  /\ fault (steps (attempts e 0) 10000%N) = Some (PForward, RuntimeError msg)
  /\ reached 10000 PForward = true
  /\ contains oom_text msg = true
  /\ exists l'',
       reach 10 e 1 =
         Some ([] ++ (setup_actions (batch_size initial_locals)
                      ++ clean_actions (py_int (batch_size initial_locals))
                           (steps (attempts e 0)) (N.to_nat 10000) 0%N
                      ++ Iter 10000 :: raise_actions 10000 PForward)
                  ++ [Print (Halving (batch_size initial_locals / 2));
                      CollectGarbage],
               l'')
       /\ batch_size l'' = batch_size initial_locals / 2
       /\ i l'' = Some 10000%N
       /\ vae l'' = Unbound /\ vae_optim l'' = Unbound.
Proof.
  intros e msg.
  assert (H1 : reach 10 e 0 = Some ([], initial_locals)) by reflexivity.
  assert (H2 : (10 <= 10)%nat) by lia.
  assert (H3 : (512 <= dataset_len e)%N) by (simpl; lia).
  assert (H4 : (0 < 9)%nat) by lia.
  assert (H5 : setup_fault (attempts e 0) = None) by reflexivity.
  assert (H6 : (10000 <= retry_cutoff)%N) by (unfold retry_cutoff; lia).
  assert (H7 : forall j, (j < 10000)%N -> clean (steps (attempts e 0) j) j).
  { intros j Hj. simpl. destruct (N.eqb_spec j 10000); [lia|].
    split; reflexivity. }
  assert (H8 : fault (steps (attempts e 0) 10000%N)
               = Some (PForward, RuntimeError msg)) by reflexivity.
  assert (H9 : reached 10000 PForward = true) by reflexivity.
  assert (H10 : contains oom_text msg = true) by reflexivity.
  repeat (split; [assumption|]).
  exact (memory_error_up_to_cutoff_is_retried 10 e 0 [] initial_locals
           10000%N PForward msg H1 H2 H3 H4 H5 H6 H7 H8 H9 H10).
Defined.

(** X13: [i] outlives a pass of the [while] loop, but no pass starts with
    [i > 10_000], since a pass that raised beyond the cutoff was not retried.
    So a [RuntimeError] raised before the [for] loop binds [i] again is
    never dropped by the test of lines 298-300: such a pass does not end in
    the bare [return] of line 300. *)
Theorem setup_errors_never_take_cutoff (fuel : nat) (e : env) (k : nat)
    (pre : list action) (l : locals) :
  reach fuel e k = Some (pre, l) ->
  past_cutoff l = false
  /\ forall sp ex t l' r,
       setup_fault (attempts e k) = Some (sp, ex) ->
       attempt fuel e k l = (t, l', r) ->
       r <> Return CutoffExit /\ iters t = [].
Proof.
  intro Hreach. pose proof (reach_cutoff _ _ _ _ _ Hreach) as Hc.
  split; [exact Hc|]. intros sp ex t l' r Hsf Hatt.
  assert (Hbody : forall t1 l1 r1,
             try_body fuel (dataset_len e) (attempts e k) l = (t1, l1, r1) ->
             i l1 = i l /\ iters t1 = []
             /\ forall o, r1 <> Return o).
  { intros t1 l1 r1 Hrun.
    destruct sp.
    { rewrite (try_body_pipeline_fault _ _ _ _ _ Hsf) in Hrun.
      apply triple_eq in Hrun as (<- & <- & <-).
      repeat split; discriminate || reflexivity. }
    all: destruct (sample_data fuel
                (batches_per_pass (dataset_len e) (py_int (batch_size l)))
                0%N) as [p|] eqn:Hp;
      [ rewrite (try_body_fault _ _ _ _ p _ _ Hsf ltac:(discriminate) Hp)
          in Hrun
      | rewrite (try_body_hang _ _ _ _
                   ltac:(intros e' He'; rewrite Hsf in He'; discriminate) Hp)
          in Hrun ];
      apply triple_eq in Hrun as (<- & <- & <-);
      repeat split; discriminate || reflexivity. }
  apply attempt_inv in Hatt
    as [[Hrun _]|(t1 & l1 & msg & t2 & Hrun & Hh & ->)].
  - destruct (Hbody _ _ _ Hrun) as (_ & Hit & Hr).
    split; [apply Hr|exact Hit].
  - destruct (Hbody _ _ _ Hrun) as (Hi & Hit & _).
    assert (Hc1 : past_cutoff l1 = false)
      by (unfold past_cutoff in *; rewrite Hi; exact Hc).
    rewrite iters_app, Hit.
    apply handler_cases in Hh
      as [(H & _)|[(_ & _ & -> & _ & ->)|[(_ & _ & _ & -> & ->)
         |(_ & _ & _ & [(_ & -> & ->)|[(_ & _ & -> & ->)
                                      |(_ & _ & -> & _ & ->)]])]]];
      [congruence| | | | |]; split; discriminate || reflexivity.
Qed.

Lemma setup_errors_never_take_cutoff_witness :
  exists pre l,
    reach 10 always_oom 1 = Some (pre, l)
    /\ past_cutoff l = false
    /\ forall sp ex t l' r,
         setup_fault (attempts always_oom 1) = Some (sp, ex) ->
         attempt 10 always_oom 1 l = (t, l', r) ->
         r <> Return CutoffExit /\ iters t = [].
Proof.
  do 2 eexists.
  match goal with |- ?A /\ _ =>
    assert (H1 : A) by (vm_compute; reflexivity) end.
  split; [exact H1|].
  exact (setup_errors_never_take_cutoff 10 always_oom 1 _ _ H1).
Defined.

End TrainMore.

(** ** Facts on [accumulate] *)

Section AccumulateFacts.
Import LogCoshVAE Accumulate.
Local Open Scope R_scope.

Lemma zip_with_defined (f : R -> R -> R) (a : tensor) :
  forall b, List.length a = List.length b -> exists v, zip_with f a b = Some v.
Proof.
  induction a as [|x a IH]; intros [|y b] H; cbn in H; try discriminate.
  - exists []. reflexivity.
  - injection H as H. destruct (IH _ H) as [v Hv].
    exists (f x y :: v). cbn. rewrite Hv. reflexivity.
Qed.

Lemma dict_in (m : model) (n : string) (p : nat) :
  dict m n = Some p -> In (n, p) m.
Proof.
  induction m as [|[k q] m IH]; cbn; [discriminate|].
  destruct (dict m n) as [q'|].
  - intro H. right. apply IH. exact H.
  - destruct (String.eqb_spec k n) as [->|]; [|discriminate].
    intro H. injection H as ->. left. reflexivity.
Qed.

Lemma dict_unique (m : model) (n : string) (p : nat) :
  NoDup (map fst m) -> In (n, p) m -> dict m n = Some p.
Proof.
  induction m as [|[k q] m IH]; cbn; [contradiction|].
  intros Hnd [Heq|Hin]; inversion Hnd as [|? ? Hk Hnd']; subst.
  - injection Heq as -> ->.
    destruct (dict m n) as [q'|] eqn:Hd.
    + exfalso. apply Hk. apply dict_in in Hd.
      change n with (fst (n, q')). apply in_map, Hd.
    + rewrite String.eqb_refl. reflexivity.
  - rewrite (IH Hnd' Hin). reflexivity.
Qed.

Lemma loop_app (d : R) (par1 par2 : string -> option nat) (a : model) :
  forall b s,
  loop d par1 par2 (a ++ b) s =
    match loop d par1 par2 a s with
    | (s1, None) => loop d par1 par2 b s1
    | r => r
    end.
Proof.
  induction a as [|[n p] a IH]; intros b s; cbn [app loop].
  - reflexivity.
  - destruct (par1 n) as [p1|]; [|reflexivity].
    destruct (par2 n) as [p2|]; [|reflexivity].
    destruct (mix d (s p1) (s p2)) as [v|]; [|reflexivity].
    apply IH.
Qed.

(** The loop over parameters that are written once and not read as the
    second model: it stops at the first name that the second model lacks or
    whose tensors differ in size, with the parameters before it updated. *)
Lemma loop_spec (d : R) (par1 par2 : string -> option nat) :
  forall ps s s' err,
  (forall n p, In (n, p) ps -> par1 n = Some p) ->
  NoDup (objects ps) ->
  (forall n p p2, In (n, p) ps -> par2 n = Some p2 -> ~ In p2 (objects ps)) ->
  loop d par1 par2 ps s = (s', err) ->
  exists done todo,
    ps = done ++ todo
    /\ (forall q, ~ In q (objects done) -> s' q = s q)
    /\ (forall n p, In (n, p) done ->
          exists p2, par2 n = Some p2 /\ mix d (s p) (s p2) = Some (s' p))
    /\ match err with
       | None => todo = []
       | Some (KeyError n) =>
           exists p rest, todo = (n, p) :: rest /\ par2 n = None
       | Some (SizeMismatch n) =>
           exists p rest p2, todo = (n, p) :: rest /\ par2 n = Some p2
                             /\ mix d (s p) (s p2) = None
       end.
Proof.
  induction ps as [|[n p] ps IH]; intros s s' err H1 Hnd H2 Hrun.
  - injection Hrun as <- <-. exists [], []. repeat split; auto.
    intros n p [].
  - cbn [loop] in Hrun. rewrite (H1 n p (or_introl eq_refl)) in Hrun.
    destruct (par2 n) as [p2|] eqn:Hp2.
    2: { injection Hrun as <- <-. exists [], ((n, p) :: ps).
         repeat split; auto; [intros ? ? []|]. exists p, ps. auto. }
    destruct (mix d (s p) (s p2)) as [v|] eqn:Hv.
    2: { injection Hrun as <- <-. exists [], ((n, p) :: ps).
         repeat split; auto; [intros ? ? []|]. exists p, ps, p2. auto. }
    cbn [objects map snd] in Hnd, H2.
    inversion Hnd as [|? ? Hp Hnd']; subst.
    assert (Hp2' : p2 <> p /\ ~ In p2 (objects ps)).
    { pose proof (H2 n p p2 (or_introl eq_refl) Hp2) as H.
      cbn in H. split; intro; apply H; auto. }
    destruct (IH (set_data p v s) s' err) as (done & todo & -> & Hf & Hm & He);
      [intros; apply H1; right; assumption|exact Hnd'| |exact Hrun|].
    { intros n' p' q Hin Hq Hq'. apply (H2 n' p' q); [right; exact Hin|exact Hq|].
      right. exact Hq'. }
    assert (Hfresh : forall q, q <> p -> set_data p v s q = s q).
    { intros q Hq. unfold set_data.
      destruct (Nat.eqb_spec q p); [contradiction|reflexivity]. }
    assert (Hpd : ~ In p (objects done)).
    { intro H. apply Hp. unfold objects in *. rewrite map_app.
      apply in_or_app. left. exact H. }
    exists ((n, p) :: done), todo. split; [reflexivity|]. split; [|split].
    + intros q Hq. cbn in Hq. rewrite Hf by (intro; apply Hq; auto).
      apply Hfresh. intro; apply Hq; auto.
    + intros n' p' [Heq|Hin].
      * injection Heq as <- <-. exists p2. split; [exact Hp2|].
        rewrite (Hf p Hpd). unfold set_data. rewrite Nat.eqb_refl. exact Hv.
      * destruct (Hm n' p' Hin) as (q & Hq & Hmix). exists q.
        split; [exact Hq|].
        assert (Hin' : In (n', p') (done ++ todo))
          by (apply in_or_app; left; exact Hin).
        assert (Hne : p' <> p).
        { intros ->. apply Hp. change p with (snd (n', p)).
          apply in_map, Hin'. }
        assert (Hq' : q <> p).
        { intros ->. apply (H2 n' p' p); [right; exact Hin'|exact Hq|].
          left. reflexivity. }
        rewrite !Hfresh in Hmix by assumption. exact Hmix.
    + destruct err as [[n'|n']|]; [| |exact He].
      * exact He.
      * destruct He as (p' & rest & q & -> & Hq & Hmix).
        exists p', rest, q. split; [reflexivity|]. split; [exact Hq|].
        assert (Hin' : In (n', p') (done ++ (n', p') :: rest))
          by (apply in_or_app; right; left; reflexivity).
        assert (Hne : p' <> p).
        { intros ->. apply Hp. change p with (snd (n', p)).
          apply in_map, Hin'. }
        assert (Hq' : q <> p).
        { intros ->. apply (H2 n' p' p); [right; exact Hin'|exact Hq|].
          left. reflexivity. }
        rewrite !Hfresh in Hmix by assumption. exact Hmix.
Qed.

(** The hypothesis on the two models: each object of the first is named
    once, the second has every name of [ps], with a tensor of the same size
    in an object that is none of the first model's. *)
Lemma loop_succeeds (d : R) (m1 m2 : model) (s : store) :
  NoDup (map fst m1) ->
  NoDup (objects m1) ->
  (forall n p, In (n, p) m1 ->
     exists p2, dict m2 n = Some p2 /\ ~ In p2 (objects m1)
                /\ List.length (s p) = List.length (s p2)) ->
  exists s',
    accumulate d m1 m2 s = (s', None)
    /\ (forall n p, In (n, p) m1 ->
          exists p2, dict m2 n = Some p2 /\ ~ In p2 (objects m1)
                     /\ List.length (s p) = List.length (s p2)
                     /\ mix d (s p) (s p2) = Some (s' p))
    /\ (forall q, ~ In q (objects m1) -> s' q = s q).
Proof.
  intros Hn Ho H2. unfold accumulate.
  destruct (loop d (dict m1) (dict m2) m1 s) as [s' err] eqn:Hrun.
  destruct (loop_spec d (dict m1) (dict m2) m1 s s' err)
    as (done & todo & Heq & Hf & Hm & He);
    [intros; apply dict_unique; assumption|exact Ho| |exact Hrun|].
  { intros n p p2 Hin Hp2. destruct (H2 n p Hin) as (q & Hq & Hnq & _).
    rewrite Hp2 in Hq. injection Hq as ->. exact Hnq. }
  assert (Herr : err = None).
  { destruct err as [[n|n]|]; [| |reflexivity]; exfalso.
    - destruct He as (p & rest & -> & Hnone).
      destruct (H2 n p) as (q & Hq & _);
        [rewrite Heq; apply in_or_app; right; left; reflexivity|].
      rewrite Hnone in Hq. discriminate.
    - destruct He as (p & rest & p2 & -> & Hp2 & Hmix).
      destruct (H2 n p) as (q & Hq & _ & Hlen);
        [rewrite Heq; apply in_or_app; right; left; reflexivity|].
      rewrite Hp2 in Hq. injection Hq as <-.
      destruct (zip_with_defined (fun x y => d * x + (1 - d) * y) _ _ Hlen)
        as [v Hv].
      unfold mix in Hmix. rewrite Hv in Hmix. discriminate. }
  subst err. subst todo. rewrite app_nil_r in Heq. subst done.
  exists s'. split; [reflexivity|]. split; [|exact Hf].
  intros n p Hin. destruct (H2 n p Hin) as (q & Hq & Hnq & Hlen).
  destruct (Hm n p Hin) as (q' & Hq' & Hmix).
  rewrite Hq in Hq'. injection Hq' as <-. exists q. auto.
Qed.

(** X14: when the second model has every parameter name of the first, with
    tensors of the same sizes in objects of its own, [accumulate] raises
    nothing and overwrites the data of each parameter of the first model
    with the blend of line 45, computed from the data that this parameter
    and the parameter of the same name in the second model held before the
    call; it writes no other object, the parameters of the second model
    included. *)
Theorem accumulate_overwrites_first_model (d : R) (m1 m2 : model)
    (s : store) :
  NoDup (map fst m1) ->
  NoDup (objects m1) ->
  (forall n p, In (n, p) m1 ->
     exists p2, dict m2 n = Some p2 /\ ~ In p2 (objects m1)
                /\ List.length (s p) = List.length (s p2)) ->
  exists s',
    accumulate d m1 m2 s = (s', None)
    /\ (forall n p, In (n, p) m1 ->
          exists p2, dict m2 n = Some p2
            /\ mix d (s p) (s p2) = Some (s' p)
            /\ s' p2 = s p2)
    /\ (forall q, ~ In q (objects m1) -> s' q = s q).
Proof.
  intros Hn Ho H2.
  destruct (loop_succeeds d m1 m2 s Hn Ho H2) as (s' & Hrun & Hm & Hf).
  exists s'. split; [exact Hrun|]. split; [|exact Hf].
  intros n p Hin. destruct (Hm n p Hin) as (p2 & Hp2 & Hnq & _ & Hmix).
  exists p2. split; [exact Hp2|]. split; [exact Hmix|].
  apply Hf, Hnq.
Qed.

Lemma accumulate_overwrites_first_model_witness :
  NoDup (map fst generator)
  /\ NoDup (objects generator)
  /\ (forall n p, In (n, p) generator ->
        exists p2, dict generator_ema n = Some p2
                   /\ ~ In p2 (objects generator)
                   /\ List.length (sample_store p)
                      = List.length (sample_store p2))
  /\ exists s',
       accumulate (1 / 2) generator generator_ema sample_store = (s', None)
       /\ (forall n p, In (n, p) generator ->
             exists p2, dict generator_ema n = Some p2
               /\ mix (1 / 2) (sample_store p) (sample_store p2)
                  = Some (s' p)
               /\ s' p2 = sample_store p2)
       /\ (forall q, ~ In q (objects generator) -> s' q = sample_store q).
Proof.
  assert (H1 : NoDup (map fst generator)).
  { cbn. repeat constructor; cbn; intuition discriminate. }
  assert (H2 : NoDup (objects generator)).
  { cbn. repeat constructor; cbn; intuition discriminate. }
  assert (H3 : forall n p, In (n, p) generator ->
             exists p2, dict generator_ema n = Some p2
                        /\ ~ In p2 (objects generator)
                        /\ List.length (sample_store p)
                           = List.length (sample_store p2)).
  { intros n p [H|[H|[H|[]]]]; injection H as <- <-;
      eexists; (split; [reflexivity|]);
      (split; [cbn; intuition discriminate|reflexivity]). }
  split; [exact H1|]. split; [exact H2|]. split; [exact H3|].
  exact (accumulate_overwrites_first_model (1 / 2) generator generator_ema
           sample_store H1 H2 H3).
Defined.

(** X15: [accumulate] is not atomic.  When the second model lacks a
    parameter name [n] of the first, the call raises [KeyError] for the
    first such name, after the parameters before it have been overwritten:
    the first model is left partly updated, the parameter [n] and those
    after it keep their data. *)
Theorem accumulate_missing_name (d : R) (done rest : model) (n : string)
    (p : nat) (m2 : model) (s : store) :
  NoDup (map fst (done ++ (n, p) :: rest)) ->
  NoDup (objects (done ++ (n, p) :: rest)) ->
  (forall n' p', In (n', p') done ->
     exists p2, dict m2 n' = Some p2
                /\ ~ In p2 (objects (done ++ (n, p) :: rest))
                /\ List.length (s p') = List.length (s p2)) ->
  dict m2 n = None ->
  exists s',
    accumulate d (done ++ (n, p) :: rest) m2 s = (s', Some (KeyError n))
    /\ (forall n' p', In (n', p') done ->
          exists p2, dict m2 n' = Some p2
                     /\ mix d (s p') (s p2) = Some (s' p'))
    /\ (forall q, ~ In q (objects done) -> s' q = s q).
Proof.
  intros Hn Ho H2 Hmiss. unfold accumulate. rewrite loop_app.
  set (m1 := done ++ (n, p) :: rest) in *.
  destruct (loop d (dict m1) (dict m2) done s) as [s1 err] eqn:Hrun.
  assert (Hsub : forall x, In x done -> In x m1)
    by (intros x Hx; apply in_or_app; left; exact Hx).
  assert (Hod : forall q, In q (objects done) -> In q (objects m1)).
  { intros q Hq. unfold objects, m1. rewrite map_app.
    apply in_or_app. left. exact Hq. }
  destruct (loop_spec d (dict m1) (dict m2) done s s1 err)
    as (done' & todo & Heq & Hf & Hm & He); [| | |exact Hrun|].
  { intros n' p' Hin. apply dict_unique; [exact Hn|apply Hsub, Hin]. }
  { unfold objects, m1 in Ho. rewrite map_app in Ho.
    apply NoDup_app_remove_r in Ho. exact Ho. }
  { intros n' p' p2 Hin Hp2 Hq. destruct (H2 n' p' Hin) as (q & Hq' & Hnq & _).
    rewrite Hp2 in Hq'. injection Hq' as ->. apply Hnq, Hod, Hq. }
  assert (Herr : err = None).
  { destruct err as [[n'|n']|]; [| |reflexivity]; exfalso.
    - destruct He as (p' & rest' & -> & Hnone).
      destruct (H2 n' p') as (q & Hq & _);
        [rewrite Heq; apply in_or_app; right; left; reflexivity|].
      rewrite Hnone in Hq. discriminate.
    - destruct He as (p' & rest' & p2 & -> & Hp2 & Hmix).
      destruct (H2 n' p') as (q & Hq & _ & Hlen);
        [rewrite Heq; apply in_or_app; right; left; reflexivity|].
      rewrite Hp2 in Hq. injection Hq as <-.
      destruct (zip_with_defined (fun x y => d * x + (1 - d) * y) _ _ Hlen)
        as [v Hv].
      unfold mix in Hmix. rewrite Hv in Hmix. discriminate. }
  subst err. subst todo. rewrite app_nil_r in Heq. subst done'.
  exists s1. split; [|split; [exact Hm|exact Hf]].
  cbn [loop].
  rewrite (dict_unique m1 n p Hn)
    by (apply in_or_app; right; left; reflexivity).
  rewrite Hmiss. reflexivity.
Qed.

Lemma accumulate_missing_name_witness :
  let done := [("conv.weight"%string, 0%nat)] in
  let rest := [("fc.weight"%string, 2%nat)] in
  let n := "conv.bias"%string in
  NoDup (map fst (done ++ (n, 1%nat) :: rest))
  /\ NoDup (objects (done ++ (n, 1%nat) :: rest))
  /\ (forall n' p', In (n', p') done ->
        exists p2, dict without_bias n' = Some p2
                   /\ ~ In p2 (objects (done ++ (n, 1%nat) :: rest))
                   /\ List.length (sample_store p')
                      = List.length (sample_store p2))
  /\ dict without_bias n = None
  /\ exists s',
       accumulate (1 / 2) (done ++ (n, 1%nat) :: rest) without_bias
         sample_store = (s', Some (KeyError n))
       /\ (forall n' p', In (n', p') done ->
             exists p2, dict without_bias n' = Some p2
                        /\ mix (1 / 2) (sample_store p') (sample_store p2)
                           = Some (s' p'))
       /\ (forall q, ~ In q (objects done) -> s' q = sample_store q).
Proof.
  intros done rest n.
  assert (H1 : NoDup (map fst (done ++ (n, 1%nat) :: rest))).
  { cbn. repeat constructor; cbn; intuition discriminate. }
  assert (H2 : NoDup (objects (done ++ (n, 1%nat) :: rest))).
  { cbn. repeat constructor; cbn; intuition discriminate. }
  assert (H3 : forall n' p', In (n', p') done ->
             exists p2, dict without_bias n' = Some p2
                        /\ ~ In p2 (objects (done ++ (n, 1%nat) :: rest))
                        /\ List.length (sample_store p')
                           = List.length (sample_store p2)).
  { intros n' p' [H|[]]; injection H as <- <-.
    eexists. split; [reflexivity|].
    split; [cbn; intuition discriminate|reflexivity]. }
  assert (H4 : dict without_bias n = None) by reflexivity.
  split; [exact H1|]. split; [exact H2|]. split; [exact H3|].
  split; [exact H4|].
  exact (accumulate_missing_name (1 / 2) done rest n 1%nat without_bias
           sample_store H1 H2 H3 H4).
Defined.

End AccumulateFacts.

(** ** Facts on [sample_data] *)

Section SamplingFacts.
Import Train Sampling.

Lemma draws_last (fuel : nat) (n : N) (j : nat) :
  forall pos,
  draws fuel n (S j) pos =
    match draws fuel n j pos with
    | Some p => sample_data fuel n p
    | None => None
    end.
Proof.
  induction j as [|j IH]; intro pos.
  - cbn. destruct (sample_data fuel n pos); reflexivity.
  - change (draws fuel n (S (S j)) pos)
      with (match sample_data fuel n pos with
            | Some p => draws fuel n (S j) p
            | None => None
            end).
    destruct (sample_data fuel n pos) as [p|] eqn:Hp.
    + rewrite IH. cbn [draws]. rewrite Hp. reflexivity.
    + cbn [draws]. rewrite Hp. reflexivity.
Qed.

Lemma sample_data_next (fuel : nat) (n pos : N) :
  (1 <= n)%N -> (2 <= fuel)%nat -> (pos <= n)%N ->
  sample_data fuel n pos = Some (if (pos <? n)%N then pos + 1 else 1)%N.
Proof.
  intros Hn Hfuel Hpos.
  destruct fuel as [|[|fuel]]; try lia. cbn [sample_data].
  destruct (N.ltb_spec pos n); [reflexivity|].
  destruct (N.ltb_spec 0 n); [reflexivity|lia].
Qed.

(** X19: the generator of [sample_data] over a loader of [n >= 1] batches
    never ends and goes through the loader again and again: for every [j]
    the [j]-th [next], counted from 0, returns, and leaves the generator
    just behind the batch of index [j mod n] of its pass, that is at the
    position [j mod n + 1]; one restart of the [for] loop at most is needed
    for a [next]. *)
Theorem sample_data_cycles (fuel : nat) (n : N) (j : nat) :
  (1 <= n)%N -> (2 <= fuel)%nat ->
  draws fuel n (S j) 0 = Some (N.of_nat j mod n + 1)%N.
Proof.
  intros Hn Hfuel. induction j as [|j IH].
  - cbn [draws]. rewrite sample_data_next by lia.
    destruct (N.ltb_spec 0 n); [|lia].
    rewrite N.mod_small by lia. reflexivity.
  - rewrite draws_last, IH.
    assert (Hr : (N.of_nat j mod n < n)%N) by (apply N.mod_lt; lia).
    rewrite sample_data_next by lia.
    pose proof (N.div_mod (N.of_nat j) n ltac:(lia)) as Hdiv.
    rewrite Nat2N.inj_succ.
    destruct (N.ltb_spec (N.of_nat j mod n + 1) n) as [Hlt|Hge].
    + f_equal. f_equal.
      apply (N.mod_unique _ _ (N.of_nat j / n)); [exact Hlt|lia].
    + f_equal.
      replace (N.succ (N.of_nat j) mod n)%N with 0%N; [reflexivity|].
      apply (N.mod_unique _ _ (N.of_nat j / n + 1)); lia.
Qed.

Lemma sample_data_cycles_witness :
  (1 <= 3)%N /\ (2 <= 2)%nat
  /\ draws 2 3 (S 7) 0 = Some (N.of_nat 7 mod 3 + 1)%N.
Proof.
  assert (H1 : (1 <= 3)%N) by lia.
  assert (H2 : (2 <= 2)%nat) by lia.
  split; [exact H1|]. split; [exact H2|].
  exact (sample_data_cycles 2 3 7 H1 H2).
Defined.

End SamplingFacts.


(** ** Facts on the shapes of the network *)

Section NetworkFacts.
Import Network.
Local Open Scope nat_scope.

Lemma empty_false (sh : shape) :
  Forall (fun d => 1 <= d) sh -> empty sh = false.
Proof.
  induction 1 as [|d sh Hd _ IH]; [reflexivity|].
  destruct d; [lia|]. exact IH.
Qed.

Lemma pow2_pos (k : nat) : 1 <= 2 ^ k.
Proof. induction k; cbn; lia. Qed.

Lemma pow2_ge_2 (k : nat) : 1 <= k -> 2 <= 2 ^ k.
Proof.
  destruct k; [lia|]. intros _. rewrite Nat.pow_succ_r'.
  pose proof (pow2_pos k). lia.
Qed.

Lemma conv_halves (k : nat) : conv_size (2 ^ S k) 3 2 1 = 2 ^ k.
Proof.
  unfold conv_size. rewrite Nat.pow_succ_r'. pose proof (pow2_pos k).
  replace (2 * 2 ^ k + 2 * 1 - 3) with (1 + (2 ^ k - 1) * 2) by lia.
  rewrite Nat.div_add by lia. change (1 / 2) with 0. lia.
Qed.

Lemma conv_same (h : nat) : 1 <= h -> conv_size h 3 1 1 = h.
Proof. intro H. unfold conv_size. rewrite Nat.div_1_r. lia. Qed.

Lemma conv_forward (tr : bool) (cin cout k s p b h w : nat) :
  1 <= b -> 1 <= cin -> 1 <= h -> 1 <= w ->
  k <= h + 2 * p -> k <= w + 2 * p ->
  layer_forward tr (Conv2d cin cout k s p) [b; cin; h; w]
    = Has [b; cout; conv_size h k s p; conv_size w k s p].
Proof.
  intros Hb Hc Hh Hw Hkh Hkw. unfold layer_forward.
  rewrite empty_false by (repeat constructor; assumption).
  rewrite Nat.eqb_refl.
  apply Nat.leb_le in Hkh, Hkw. rewrite Hkh, Hkw. reflexivity.
Qed.

Lemma conv_mismatch (tr : bool) (cin cout k s p b c h w : nat) :
  1 <= b -> 1 <= c -> 1 <= h -> 1 <= w -> c <> cin ->
  layer_forward tr (Conv2d cin cout k s p) [b; c; h; w] = Raises.
Proof.
  intros Hb Hc Hh Hw Hne. unfold layer_forward.
  rewrite empty_false by (repeat constructor; assumption).
  apply Nat.eqb_neq in Hne. rewrite Hne. reflexivity.
Qed.

Lemma norm_forward (tr : bool) (b c h w : nat) :
  1 <= b -> 1 <= c -> 1 <= h -> 1 <= w -> 1 < b * h * w ->
  layer_forward tr (BatchNorm2d c) [b; c; h; w] = Has [b; c; h; w].
Proof.
  intros Hb Hc Hh Hw Hn. unfold layer_forward.
  rewrite empty_false by (repeat constructor; assumption).
  rewrite Nat.eqb_refl. apply Nat.ltb_lt in Hn. rewrite Hn.
  rewrite orb_true_r. reflexivity.
Qed.

Lemma act_forward (tr : bool) (b c h w : nat) :
  1 <= b -> 1 <= c -> 1 <= h -> 1 <= w ->
  layer_forward tr (FusedLeakyReLU c) [b; c; h; w] = Has [b; c; h; w].
Proof.
  intros Hb Hc Hh Hw. unfold layer_forward.
  rewrite empty_false by (repeat constructor; assumption).
  rewrite Nat.eqb_refl. reflexivity.
Qed.

Lemma up_forward (tr : bool) (k b c h w : nat) :
  1 <= b -> 1 <= c -> 1 <= h -> 1 <= w ->
  layer_forward tr (Upsample k) [b; c; h; w] = Has [b; c; k * h; k * w].
Proof.
  intros Hb Hc Hh Hw. unfold layer_forward.
  rewrite empty_false by (repeat constructor; assumption). reflexivity.
Qed.

Lemma linear_forward (tr : bool) (fin fout b : nat) :
  1 <= b -> 1 <= fin ->
  layer_forward tr (Linear fin fout) [b; fin] = Has [b; fout].
Proof.
  intros Hb Hf. unfold layer_forward.
  rewrite empty_false by (repeat constructor; assumption).
  cbn [last]. rewrite Nat.eqb_refl. reflexivity.
Qed.

Lemma linear_mismatch (tr : bool) (fin fout b f : nat) :
  1 <= b -> 1 <= f -> f <> fin ->
  layer_forward tr (Linear fin fout) [b; f] = Raises.
Proof.
  intros Hb Hf Hne. unfold layer_forward.
  rewrite empty_false by (repeat constructor; assumption).
  cbn [last]. apply Nat.eqb_neq in Hne. rewrite Hne. reflexivity.
Qed.

Lemma sequential_app (tr : bool) (a : list layer) :
  forall b sh,
  sequential tr (a ++ b) sh = and_then (sequential tr a sh) (sequential tr b).
Proof.
  induction a as [|ly a IH]; intros b sh; cbn [app sequential and_then].
  - reflexivity.
  - destruct (layer_forward tr ly sh); cbn [and_then]; auto.
Qed.

Lemma last_cons (l : list nat) :
  forall d x, last (d :: l) x = last l d.
Proof.
  induction l as [|e l IH]; intros d x; [reflexivity|].
  change (last (d :: e :: l) x) with (last (e :: l) x).
  rewrite (IH e x), (IH e d). reflexivity.
Qed.

Lemma last_default (l : list nat) (x y : nat) :
  l <> [] -> last l x = last l y.
Proof.
  destruct l as [|d l]; [contradiction|]. intros _.
  rewrite (last_cons l d x), (last_cons l d y). reflexivity.
Qed.

(** The encoder halves the height and the width once for each entry of
    [hidden_dims] and ends with the last entry as the number of channels. *)
Lemma encoder_shape (tr : bool) :
  forall dims cin b k,
  Forall (fun d => 1 <= d) dims -> 1 <= b -> 1 <= cin -> 1 <= k ->
  sequential tr (encoder_modules cin dims)
    [b; cin; 2 ^ (k + List.length dims); 2 ^ (k + List.length dims)]
  = Has [b; last dims cin; 2 ^ k; 2 ^ k].
Proof.
  induction dims as [|h rest IH]; intros cin b k Hd Hb Hc Hk.
  - cbn [encoder_modules sequential List.length last].
    rewrite Nat.add_0_r. reflexivity.
  - inversion Hd as [|? ? Hh Hrest]; subst.
    cbn [encoder_modules List.length].
    replace (k + S (List.length rest)) with (S (k + List.length rest)) by lia.
    pose proof (pow2_pos (S (k + List.length rest))) as Hp.
    pose proof (pow2_ge_2 (k + List.length rest) ltac:(lia)) as Hp'.
    cbn [app sequential].
    rewrite conv_forward by lia. cbn [and_then]. rewrite conv_halves.
    rewrite norm_forward by nia. cbn [and_then].
    rewrite act_forward by lia. cbn [and_then].
    rewrite (IH h b k Hrest Hb Hh Hk).
    rewrite (last_cons rest h cin). reflexivity.
Qed.

(** The decoder doubles the height and the width once for each pair of
    neighbours in the reversed [hidden_dims]. *)
Lemma decoder_shape (tr : bool) :
  forall r a b k,
  Forall (fun d => 1 <= d) (a :: r) -> 1 <= b ->
  sequential tr (decoder_modules (a :: r)) [b; a; 2 ^ k; 2 ^ k]
  = Has [b; last r a; 2 ^ (k + List.length r); 2 ^ (k + List.length r)].
Proof.
  induction r as [|c r IH]; intros a b k Hd Hb.
  - cbn [decoder_modules sequential List.length last].
    rewrite Nat.add_0_r. reflexivity.
  - inversion Hd as [|? ? Ha Hr]; subst.
    inversion Hr as [|? ? Hc _]; subst.
    pose proof (pow2_pos k) as Hp.
    change (decoder_modules (a :: c :: r))
      with ([Upsample 2; Conv2d a c 3 1 1; BatchNorm2d c; FusedLeakyReLU c]
            ++ decoder_modules (c :: r)).
    cbn [app sequential].
    rewrite up_forward by lia. cbn [and_then].
    rewrite <- Nat.pow_succ_r'. pose proof (pow2_ge_2 (S k) ltac:(lia)) as Hp'.
    rewrite conv_forward by lia. cbn [and_then].
    rewrite conv_same by lia.
    rewrite norm_forward by nia. cbn [and_then].
    rewrite act_forward by lia. cbn [and_then].
    rewrite (IH c b (S k) Hr Hb). cbn [List.length].
    replace (k + S (List.length r)) with (S k + List.length r) by lia.
    rewrite (last_cons r c a). reflexivity.
Qed.

Lemma rev_nonempty (dims : list nat) :
  dims <> [] ->
  exists r, rev dims = last dims 0 :: r
            /\ S (List.length r) = List.length dims.
Proof.
  intro Hne. destruct (exists_last Hne) as (l' & x & ->).
  rewrite rev_app_distr, last_last. cbn [rev app].
  exists (rev l'). split; [reflexivity|].
  rewrite length_rev, length_app. cbn. lia.
Qed.

Lemma init_nonempty (cin latent : nat) (hidden : option (list nat)) :
  my_hidden_dims hidden <> [] ->
  init cin latent hidden
    = Has (modules_of cin latent (my_hidden_dims hidden)).
Proof.
  unfold init. destruct (my_hidden_dims hidden); [contradiction|reflexivity].
Qed.

Lemma last_positive (dims : list nat) :
  dims <> [] -> Forall (fun d => 1 <= d) dims -> 1 <= last dims 0.
Proof.
  intros Hne Hd. destruct (exists_last Hne) as (l' & x & ->).
  rewrite last_last. apply Forall_app in Hd as [_ Hx].
  inversion Hx; assumption.
Qed.

Lemma tanh_forward (tr : bool) (sh : shape) :
  Forall (fun d => 1 <= d) sh -> layer_forward tr Tanh sh = Has sh.
Proof.
  intro H. unfold layer_forward. rewrite (empty_false sh H).
  destruct sh as [|? [|? [|? [|? [|]]]]]; reflexivity.
Qed.

Lemma encode_shape (tr : bool) (cin latent : nat) (dims : list nat)
    (b : nat) :
  dims <> [] -> last dims 0 = latent ->
  Forall (fun d => 1 <= d) dims -> 1 <= b -> 1 <= cin ->
  encode tr (modules_of cin latent dims)
    [b; cin; 2 ^ (1 + List.length dims); 2 ^ (1 + List.length dims)]
  = Has ([b; latent], [b; latent]).
Proof.
  intros Hne Hlast Hd Hb Hc.
  pose proof (last_positive dims Hne Hd) as Hl. rewrite Hlast in Hl.
  unfold encode, modules_of. cbn [encoder fc_mu fc_var].
  rewrite (encoder_shape tr dims cin b 1 Hd Hb Hc (le_n 1)).
  cbn [and_then]. rewrite (last_default dims cin 0 Hne), Hlast.
  change (2 ^ 1) with 2. unfold flatten1.
  rewrite empty_false by (repeat constructor; lia).
  cbn [and_then numel fold_right].
  replace (latent * (2 * (2 * 1))) with (latent * 4) by lia.
  rewrite linear_forward by lia. reflexivity.
Qed.

Lemma decode_shape (tr : bool) (cin latent : nat) (dims : list nat)
    (b : nat) :
  dims <> [] -> last dims 0 = latent ->
  Forall (fun d => 1 <= d) dims -> 1 <= b ->
  decode tr (modules_of cin latent dims) [b; latent]
  = Has [b; 3; 2 ^ (1 + List.length dims); 2 ^ (1 + List.length dims)].
Proof.
  intros Hne Hlast Hd Hb.
  pose proof (last_positive dims Hne Hd) as Hl. rewrite Hlast in Hl.
  destruct (rev_nonempty dims Hne) as (r & Hrev & Hlen).
  rewrite Hlast in Hrev.
  assert (Hr : Forall (fun d => 1 <= d) (latent :: r)).
  { rewrite <- Hrev. apply Forall_rev, Hd. }
  unfold decode, modules_of.
  cbn [decoder_input latent_dim decoder final_layer].
  rewrite Hlast, Hrev, (last_cons r latent 0).
  rewrite linear_forward by lia. cbn [and_then].
  unfold view4. rewrite empty_false by (repeat constructor; lia).
  replace (latent * 2 * 2 =? 0) with false
    by (symmetry; apply Nat.eqb_neq; lia).
  replace (numel [b; latent * 4]) with (b * (latent * 2 * 2))
    by (cbn [numel fold_right]; lia).
  rewrite Nat.Div0.mod_mul, Nat.div_mul by lia.
  cbn [Nat.eqb and_then].
  change [b; latent; 2; 2] with [b; latent; 2 ^ 1; 2 ^ 1].
  rewrite (decoder_shape tr r latent b 1 Hr Hb). cbn [and_then].
  assert (Hout : 1 <= last r latent).
  { rewrite <- (last_cons r latent 0). apply last_positive; [discriminate|].
    exact Hr. }
  pose proof (pow2_pos (1 + List.length r)) as Hp.
  cbn [sequential].
  rewrite up_forward by lia. cbn [and_then].
  rewrite <- Nat.pow_succ_r'.
  replace (S (1 + List.length r)) with (1 + List.length dims) by lia.
  pose proof (pow2_ge_2 (1 + List.length dims) ltac:(lia)) as Hp'.
  rewrite conv_forward by lia. cbn [and_then].
  rewrite conv_same by lia.
  rewrite norm_forward by nia. cbn [and_then].
  rewrite act_forward by lia. cbn [and_then].
  rewrite conv_forward by lia. cbn [and_then].
  rewrite conv_same by lia.
  rewrite tanh_forward by (repeat constructor; lia). reflexivity.
Qed.

Lemma forward_shape (tr : bool) (cin latent : nat) (dims : list nat)
    (b : nat) :
  dims <> [] -> last dims 0 = latent ->
  Forall (fun d => 1 <= d) dims -> 1 <= b -> 1 <= cin ->
  forward tr (modules_of cin latent dims)
    [b; cin; 2 ^ (1 + List.length dims); 2 ^ (1 + List.length dims)]
  = Has ([b; 3; 2 ^ (1 + List.length dims); 2 ^ (1 + List.length dims)],
         [b; latent], [b; latent]).
Proof.
  intros Hne Hlast Hd Hb Hc. unfold forward.
  rewrite (encode_shape tr cin latent dims b Hne Hlast Hd Hb Hc).
  cbn [and_then]. unfold reparameterize_shape.
  destruct (list_eq_dec Nat.eq_dec [b; latent] [b; latent]) as [_|Hx];
    [|contradiction].
  cbn [and_then].
  rewrite (decode_shape tr cin latent dims b Hne Hlast Hd Hb). reflexivity.
Qed.

Lemma hidden_dims_facts (nf latent : nat) :
  List.length (hidden_dims nf latent) = 6
  /\ last (hidden_dims nf latent) 0 = latent
  /\ hidden_dims nf latent <> []
  /\ (1 <= nf -> 1 <= latent ->
      Forall (fun d => 1 <= d) (hidden_dims nf latent)).
Proof.
  unfold hidden_dims. cbn [seq map app Nat.pow].
  split; [reflexivity|]. split; [reflexivity|]. split; [discriminate|].
  intros Hn Hl. repeat constructor; lia.
Qed.

(** X22: the schedule of line 217 has six entries, the last of which is
    [latent_dim]; no entry exceeds [latent_dim], the entries do not
    decrease, and each of the first five is [number_filters * 2^i] unless
    that exceeds [latent_dim]. *)
Theorem hidden_dims_schedule (nf latent : nat) :
  List.length (hidden_dims nf latent) = 6
  /\ last (hidden_dims nf latent) 0 = latent
  /\ Forall (fun d => d <= latent) (hidden_dims nf latent)
  /\ (forall i j, i <= j -> j < 6 ->
        nth i (hidden_dims nf latent) 0 <= nth j (hidden_dims nf latent) 0)
  /\ (forall i, i < 5 -> nf * 2 ^ i <= latent ->
        nth i (hidden_dims nf latent) 0 = nf * 2 ^ i).
Proof.
  unfold hidden_dims. cbn [seq map app Nat.pow].
  split; [reflexivity|]. split; [reflexivity|].
  split; [repeat constructor; lia|]. split.
  - intros i j Hij Hj.
    destruct i as [|[|[|[|[|[|i]]]]]]; destruct j as [|[|[|[|[|[|j]]]]]];
      cbn [nth]; lia.
  - intros i Hi. destruct i as [|[|[|[|[|i]]]]]; cbn [nth Nat.pow]; lia.
Qed.

(** X23: a network built from a list of positive dimensions that ends with
    [latent_dim] maps a batch of images of side [2^(n+1)], [n] the length
    of the list, to a reconstruction of side [2^(n+1)] with three channels
    and to [mu] and [log_var] of shape batch x [latent_dim], in training
    and in evaluation mode. *)
Theorem forward_keeps_image_size (tr : bool) (cin latent : nat)
    (dims : list nat) (b : nat) :
  dims <> [] -> last dims 0 = latent ->
  Forall (fun d => 1 <= d) dims -> 1 <= b -> 1 <= cin ->
  let side := 2 ^ (1 + List.length dims) in
  init cin latent (Some dims) = Has (modules_of cin latent dims)
  /\ forward tr (modules_of cin latent dims) [b; cin; side; side]
     = Has ([b; 3; side; side], [b; latent], [b; latent]).
Proof.
  intros Hne Hlast Hd Hb Hc side. split.
  - apply (init_nonempty cin latent (Some dims)), Hne.
  - apply forward_shape; assumption.
Qed.

Lemma forward_keeps_image_size_witness :
  [32; 64; 128; 256; 512] <> []
  /\ last [32; 64; 128; 256; 512] 0 = 512
  /\ Forall (fun d => 1 <= d) [32; 64; 128; 256; 512]
  /\ 1 <= 1 /\ 1 <= 3
  /\ let side := 2 ^ (1 + List.length [32; 64; 128; 256; 512]) in
     init 3 512 (Some [32; 64; 128; 256; 512])
       = Has (modules_of 3 512 [32; 64; 128; 256; 512])
     /\ forward true (modules_of 3 512 [32; 64; 128; 256; 512])
          [1; 3; side; side]
        = Has ([1; 3; side; side], [1; 512], [1; 512]).
Proof.
  assert (H1 : [32; 64; 128; 256; 512] <> []) by discriminate.
  assert (H2 : last [32; 64; 128; 256; 512] 0 = 512) by reflexivity.
  assert (H3 : Forall (fun d => 1 <= d) [32; 64; 128; 256; 512])
    by (repeat constructor; lia).
  assert (H4 : 1 <= 1) by lia.
  assert (H5 : 1 <= 3) by lia.
  repeat (split; [assumption|]).
  exact (forward_keeps_image_size true 3 512 [32; 64; 128; 256; 512] 1
           H1 H2 H3 H4 H5).
Defined.

(** X24: the network that [train] builds (lines 217-226) fits its data: for
    every [number_filters >= 1], [latent_dim >= 1] and batch size, the
    forward pass of an image batch of shape batch x 3 x 128 x 128 returns a
    reconstruction of the same shape, so that [vae.loss(real, fake, ...)]
    subtracts tensors of one shape, and [mu] and [log_var] of shape
    batch x [latent_dim]. *)
Theorem train_network_fits_images (tr : bool) (nf latent b : nat) :
  1 <= nf -> 1 <= latent -> 1 <= b ->
  exists net,
    init 3 latent (Some (hidden_dims nf latent)) = Has net
    /\ forward tr net [b; 3; 128; 128]
       = Has ([b; 3; 128; 128], [b; latent], [b; latent]).
Proof.
  intros Hn Hl Hb.
  destruct (hidden_dims_facts nf latent) as (Hlen & Hlast & Hne & Hd).
  exists (modules_of 3 latent (hidden_dims nf latent)). split.
  - apply (init_nonempty 3 latent (Some (hidden_dims nf latent))), Hne.
  - pose proof (forward_shape tr 3 latent (hidden_dims nf latent) b Hne
                  Hlast (Hd Hn Hl) Hb ltac:(lia)) as H.
    rewrite Hlen in H. exact H.
Qed.

Lemma train_network_fits_images_witness :
  1 <= 16 /\ 1 <= 256 /\ 1 <= 512
  /\ exists net,
       init 3 256 (Some (hidden_dims 16 256)) = Has net
       /\ forward true net [512; 3; 128; 128]
          = Has ([512; 3; 128; 128], [512; 256], [512; 256]).
Proof.
  assert (H1 : 1 <= 16) by lia.
  assert (H2 : 1 <= 256) by lia.
  assert (H3 : 1 <= 512) by lia.
  repeat (split; [assumption|]).
  exact (train_network_fits_images true 16 256 512 H1 H2 H3).
Defined.

Lemma decode_mismatch (tr : bool) (cin latent : nat) (dims : list nat)
    (b : nat) :
  dims <> [] -> Forall (fun d => 1 <= d) dims ->
  1 <= latent -> 1 <= b -> last dims 0 <> latent ->
  decode tr (modules_of cin latent dims) [b; latent] = Raises.
Proof.
  intros Hne Hd Hl Hb Hdiff.
  pose proof (last_positive dims Hne Hd) as Hw.
  destruct (rev_nonempty dims Hne) as (r & Hrev & Hlen).
  set (width := last dims 0) in *.
  unfold decode, modules_of.
  cbn [decoder_input latent_dim decoder final_layer].
  fold width. rewrite Hrev, (last_cons r width 0).
  rewrite linear_forward by lia. cbn [and_then].
  unfold view4. rewrite empty_false by (repeat constructor; lia).
  replace (latent * 2 * 2 =? 0) with false
    by (symmetry; apply Nat.eqb_neq; lia).
  destruct (numel [b; width * 4] mod (latent * 2 * 2) =? 0) eqn:Hmod;
    [|reflexivity].
  apply Nat.eqb_eq in Hmod.
  assert (Hq : 1 <= numel [b; width * 4] / (latent * 2 * 2)).
  { apply Nat.Div0.div_exact in Hmod.
    assert (Hn : 1 <= numel [b; width * 4])
      by (cbn [numel fold_right]; nia).
    destruct (numel [b; width * 4] / (latent * 2 * 2)); [lia|lia]. }
  set (q := numel [b; width * 4] / (latent * 2 * 2)) in *.
  cbn [and_then].
  destruct r as [|c r].
  - cbn [decoder_modules sequential and_then last].
    rewrite up_forward by lia. cbn [and_then].
    rewrite conv_mismatch by lia. reflexivity.
  - change (decoder_modules (width :: c :: r))
      with ([Upsample 2; Conv2d width c 3 1 1; BatchNorm2d c;
             FusedLeakyReLU c] ++ decoder_modules (c :: r)).
    cbn [app sequential].
    rewrite up_forward by lia. cbn [and_then].
    rewrite conv_mismatch by lia. reflexivity.
Qed.

(** X25: [decode] works only when the last entry of [hidden_dims] is
    [latent_dim]: line 145 views the output of [decoder_input], which has
    [hidden_dims[-1] * 4] entries per sample, as [latent_dim] channels of
    2 x 2, while the first convolution after it expects [hidden_dims[-1]]
    channels.  With positive dimensions whose last differs from
    [latent_dim], the default [hidden_dims] (ending in 512) included, the
    model is built but [decode] raises for every batch of latent vectors. *)
Theorem decode_needs_latent_width (tr : bool) (cin latent : nat)
    (hidden : option (list nat)) (b : nat) :
  my_hidden_dims hidden <> [] ->
  Forall (fun d => 1 <= d) (my_hidden_dims hidden) ->
  1 <= latent -> 1 <= b ->
  last (my_hidden_dims hidden) 0 <> latent ->
  exists net,
    init cin latent hidden = Has net
    /\ decode tr net [b; latent] = Raises.
Proof.
  intros Hne Hd Hl Hb Hdiff.
  exists (modules_of cin latent (my_hidden_dims hidden)).
  split; [apply init_nonempty, Hne|].
  apply decode_mismatch; assumption.
Qed.

Lemma decode_needs_latent_width_witness :
  my_hidden_dims None <> []
  /\ Forall (fun d => 1 <= d) (my_hidden_dims None)
  /\ 1 <= 256 /\ 1 <= 24
  /\ last (my_hidden_dims None) 0 <> 256
  /\ exists net,
       init 3 256 None = Has net
       /\ decode false net [24; 256] = Raises.
Proof.
  assert (H1 : my_hidden_dims None <> []) by discriminate.
  assert (H2 : Forall (fun d => 1 <= d) (my_hidden_dims None))
    by (repeat constructor; lia).
  assert (H3 : 1 <= 256) by lia.
  assert (H4 : 1 <= 24) by lia.
  assert (H5 : last (my_hidden_dims None) 0 <> 256) by (cbn; lia).
  repeat (split; [assumption|]).
  exact (decode_needs_latent_width false 3 256 None 24 H1 H2 H3 H4 H5).
Defined.

Lemma pow2_ge_4 (k : nat) : 2 <= k -> 4 <= 2 ^ k.
Proof.
  destruct k as [|[|k]]; try lia. intros _.
  rewrite !Nat.pow_succ_r'. pose proof (pow2_pos k). lia.
Qed.

(** X26: [encode] accepts one image size only.  The linear maps [fc_mu] and
    [fc_var] take [hidden_dims[-1] * 4] features, the 2 x 2 map that is left
    of an image of side [2^(n+1)] after [n] convolutions of stride 2; an
    image of side [2^(n+k)] with [k >= 2], such as 256 x 256 for the six
    dimensions of [train], leaves a larger map and [fc_mu] raises. *)
Theorem encode_rejects_larger_images (tr : bool) (cin latent : nat)
    (dims : list nat) (b k : nat) :
  dims <> [] -> Forall (fun d => 1 <= d) dims ->
  1 <= b -> 1 <= cin -> 2 <= k ->
  let side := 2 ^ (k + List.length dims) in
  encode tr (modules_of cin latent dims) [b; cin; side; side] = Raises.
Proof.
  intros Hne Hd Hb Hc Hk side. unfold side. clear side.
  pose proof (last_positive dims Hne Hd) as Hw.
  pose proof (pow2_ge_4 k Hk) as Hp.
  unfold encode, modules_of. cbn [encoder fc_mu fc_var].
  rewrite (encoder_shape tr dims cin b k Hd Hb Hc ltac:(lia)).
  cbn [and_then]. rewrite (last_default dims cin 0 Hne).
  unfold flatten1. rewrite empty_false by (repeat constructor; lia).
  cbn [and_then numel fold_right]. rewrite Nat.mul_1_r.
  assert (Hpp : 16 <= 2 ^ k * 2 ^ k) by nia.
  rewrite linear_mismatch; [reflexivity|lia|nia|].
  intro Heq. apply Nat.mul_cancel_l in Heq; lia.
Qed.

Lemma encode_rejects_larger_images_witness :
  hidden_dims 16 256 <> []
  /\ Forall (fun d => 1 <= d) (hidden_dims 16 256)
  /\ 1 <= 8 /\ 1 <= 3 /\ 2 <= 2
  /\ let side := 2 ^ (2 + List.length (hidden_dims 16 256)) in
     encode true (modules_of 3 256 (hidden_dims 16 256)) [8; 3; side; side]
     = Raises.
Proof.
  assert (H1 : hidden_dims 16 256 <> []) by discriminate.
  assert (H2 : Forall (fun d => 1 <= d) (hidden_dims 16 256))
    by (apply hidden_dims_facts; lia).
  assert (H3 : 1 <= 8) by lia.
  assert (H4 : 1 <= 3) by lia.
  assert (H5 : 2 <= 2) by lia.
  repeat (split; [assumption|]).
  exact (encode_rejects_larger_images true 3 256 (hidden_dims 16 256) 8 2
           H1 H2 H3 H4 H5).
Defined.

Lemma numel_positive (sh : shape) :
  Forall (fun d => 1 <= d) sh -> 1 <= numel sh.
Proof.
  induction 1 as [|d sh Hd _ IH]; cbn [numel fold_right]; [lia|].
  fold (numel sh). nia.
Qed.

(** X27: [Flatten] and [UnFlatten] undo each other on tensors with entries:
    [UnFlatten(c, s)] gives a flattened batch of [c] x [s] x [s] maps its
    shape back, [Flatten] gives an unflattened batch x [c * s * s] tensor
    its shape back, and flattening twice is flattening once. *)
Theorem flatten_unflatten_round_trip (b c s : nat) (sh : shape) :
  1 <= b -> 1 <= c -> 1 <= s -> Forall (fun d => 1 <= d) sh ->
  and_then (Flatten [b; c; s; s]) (UnFlatten c s) = Has [b; c; s; s]
  /\ and_then (UnFlatten c s [b; c * s * s]) Flatten = Has [b; c * s * s]
  /\ and_then (Flatten (b :: sh)) Flatten = Flatten (b :: sh).
Proof.
  intros Hb Hc Hs Hsh.
  assert (Hcss : 1 <= c * s * s) by nia.
  split; [|split].
  - unfold Flatten. rewrite empty_false by (repeat constructor; lia).
    cbn [and_then]. unfold UnFlatten.
    rewrite empty_false
      by (repeat constructor; cbn [numel fold_right]; nia).
    replace (numel [b; numel [c; s; s]] =? b * c * s * s) with true;
      [reflexivity|].
    symmetry. apply Nat.eqb_eq. cbn [numel fold_right]. lia.
  - unfold UnFlatten. rewrite empty_false by (repeat constructor; lia).
    replace (numel [b; c * s * s] =? b * c * s * s) with true.
    + cbn [and_then]. unfold Flatten.
      rewrite empty_false by (repeat constructor; lia).
      f_equal. f_equal. cbn [numel fold_right]. f_equal. lia.
    + symmetry. apply Nat.eqb_eq. cbn [numel fold_right]. lia.
  - pose proof (numel_positive sh Hsh) as Hn.
    unfold Flatten at 1 3. rewrite empty_false by (constructor; assumption).
    cbn [and_then]. unfold Flatten.
    rewrite empty_false by (repeat constructor; lia).
    cbn [numel fold_right]. rewrite Nat.mul_1_r. reflexivity.
Qed.

Lemma flatten_unflatten_round_trip_witness :
  1 <= 24 /\ 1 <= 3 /\ 1 <= 4 /\ Forall (fun d => 1 <= d) [3; 4; 4]
  /\ and_then (Flatten [24; 3; 4; 4]) (UnFlatten 3 4) = Has [24; 3; 4; 4]
  /\ and_then (UnFlatten 3 4 [24; 3 * 4 * 4]) Flatten = Has [24; 3 * 4 * 4]
  /\ and_then (Flatten (24 :: [3; 4; 4])) Flatten = Flatten (24 :: [3; 4; 4]).
Proof.
  assert (H1 : 1 <= 24) by lia.
  assert (H2 : 1 <= 3) by lia.
  assert (H3 : 1 <= 4) by lia.
  assert (H4 : Forall (fun d => 1 <= d) [3; 4; 4])
    by (repeat constructor; lia).
  repeat (split; [assumption|]).
  exact (flatten_unflatten_round_trip 24 3 4 [3; 4; 4] H1 H2 H3 H4).
Defined.

(** X28: [UnFlatten(c, s)] accepts exactly the tensors with [c * s * s]
    entries per sample: on a tensor with entries whose first dimension is
    [b], it returns the shape [b] x [c] x [s] x [s] when the other
    dimensions multiply to [c * s * s] and raises otherwise; on a tensor
    without dimensions both modules raise, since [x.size(0)] does. *)
Theorem unflatten_checks_size (c s b : nat) (rest : shape) :
  Forall (fun d => 1 <= d) (b :: rest) ->
  UnFlatten c s (b :: rest)
    = (if numel rest =? c * s * s then Has [b; c; s; s] else Raises)
  /\ UnFlatten c s [] = Raises /\ Flatten [] = Raises.
Proof.
  intro Hsh. split; [|split; reflexivity].
  inversion Hsh as [|? ? Hb Hrest]; subst.
  unfold UnFlatten. rewrite (empty_false _ Hsh).
  cbn [numel fold_right]. fold (numel rest).
  destruct (Nat.eqb_spec (numel rest) (c * s * s)) as [->|Hne].
  - replace (b * (c * s * s) =? b * c * s * s) with true; [reflexivity|].
    symmetry. apply Nat.eqb_eq. lia.
  - replace (b * numel rest =? b * c * s * s) with false; [reflexivity|].
    symmetry. apply Nat.eqb_neq. nia.
Qed.

Lemma unflatten_checks_size_witness :
  Forall (fun d => 1 <= d) [24; 50]
  /\ UnFlatten 3 4 [24; 50]
     = (if numel [50] =? 3 * 4 * 4 then Has [24; 3; 4; 4] else Raises)
  /\ UnFlatten 3 4 [] = Raises /\ Flatten [] = Raises.
Proof.
  assert (H1 : Forall (fun d => 1 <= d) [24; 50])
    by (repeat constructor; lia).
  split; [exact H1|].
  exact (unflatten_checks_size 3 4 24 [50] H1).
Defined.

End NetworkFacts.
